(** * agentvault: document store, full-text index and ranked search

    A shallow embedding of [src/index/build_index.py] (schema, triggers,
    [upsert_doc], the adapters, the two ingestion drivers, [main]) and of
    [src/agent/run.py] ([search], [main]), with the properties of the
    specification, and further properties of the code, stated and proved
    over it.

    The two Python modules are thin layers over SQLite: the [docs] table,
    the external-content FTS5 table [docs_fts], three triggers and one
    ranked [MATCH] query.  The SQL text is part of the source, so the
    embedding has two layers:

    - a model of what SQLite does with that SQL (table scan order, rowid
      allocation, the FTS5 index commands, the FTS5 query language, bm25);
    - the Python functions written over that model, statement by statement.

    Conventions of the model.  Python [str] values are Rocq strings (their
    UTF-8 bytes), which hold no lone surrogate; where a lone surrogate
    matters ([upsert_doc_str]) a text is a list of bytes and surrogates.  A
    nullable TEXT column, and a Python value that may be [None], is an
    [option string]; rowids and Python integers are [Z].  Functions of
    libraries whose result is not computed here (SHA-256, the bm25 and the
    snippet of FTS5) are fields of the class [Env]; every theorem holds for
    every environment.  SQLite computes bm25 in doubles: the score of a row
    is the rational that double is, whatever it is, and nothing is assumed
    of it.  [bm25_exact] is the formula of FTS5 over the rationals; the
    examples are run with it.

    Limits of the model.  The tokenizer is exact on ASCII text: bytes above
    127 are kept as token characters, where unicode61 separates on non-ASCII
    white space and strips diacritics; what a query finds is stated for
    ASCII text.  The FTS5 parser has no bound on the nesting depth of a
    query, and a query it accepts is answered: an error FTS5 meets while it
    runs a query is not modelled.  Rowids stay below 2^63.  The ChatGPT driver
    is modelled over what an adapter does when it is run (the dicts it
    yields, then a normal return or an exception); the adapters are
    modelled over what the parsers give them ([soup.get_text], [json.loads],
    [read_text]), and the file system is what [rglob] lists.  Printing
    ([print], [json.dumps]) is left out: the programs return what they
    print. *)

From Stdlib Require Import ZArith QArith Qfield String Ascii List Bool Lia Sorted Permutation.
From Stdlib Require DecimalString.
From stdpp Require Import base gmap gmultiset strings list.

Local Open Scope Z_scope.

(** ** Python results *)

(** The exceptions the modelled code can raise. *)
Inductive exn : Type :=
| OperationalError   (* sqlite3.OperationalError: missing table, FTS5 query error *)
| OverflowError      (* Python int outside the 64-bit range bound as a parameter *)
| ProducerError      (* any exception raised inside an ingestion adapter *)
| UnicodeEncodeError.  (* a str with a lone surrogate bound as a parameter *)

Inductive result (A : Type) : Type :=
| Ok (a : A)
| Raise (e : exn).
Arguments Ok {A} a.
Arguments Raise {A} e.

(** ** Text: the unicode61 tokenizer on ASCII

    FTS5's default tokenizer: letters and digits are token characters,
    upper case is folded to lower case, everything else separates tokens.
    Bytes above 127 are kept as token characters. *)

Definition is_digit (c : ascii) : bool :=
  let n := nat_of_ascii c in ((48 <=? n) && (n <=? 57))%nat.
Definition is_upper (c : ascii) : bool :=
  let n := nat_of_ascii c in ((65 <=? n) && (n <=? 90))%nat.
Definition is_lower (c : ascii) : bool :=
  let n := nat_of_ascii c in ((97 <=? n) && (n <=? 122))%nat.
Definition is_high (c : ascii) : bool := (128 <=? nat_of_ascii c)%nat.

Definition is_token_char (c : ascii) : bool :=
  is_digit c || is_upper c || is_lower c || is_high c.

Definition fold_case (c : ascii) : ascii :=
  if is_upper c then ascii_of_nat (nat_of_ascii c + 32) else c.

Definition emit (cur : string) : list string :=
  match cur with EmptyString => [] | _ => [cur] end.

Fixpoint tokenize_from (cur : string) (s : string) : list string :=
  match s with
  | EmptyString => emit cur
  | String c s' =>
      if is_token_char c
      then tokenize_from (String.append cur (String (fold_case c) EmptyString)) s'
      else emit cur ++ tokenize_from EmptyString s'
  end.

Definition tokenize (s : string) : list string := tokenize_from EmptyString s.

(** Tokens of a nullable TEXT value: NULL has none. *)
Definition sql_tokens (v : option string) : list string :=
  match v with Some s => tokenize s | None => [] end.


(** Well-formed UTF-8: the strings that are the encoding of a [str]. *)
Definition in_range (lo hi : nat) (c : ascii) : bool :=
  ((lo <=? nat_of_ascii c) && (nat_of_ascii c <=? hi))%nat.

Fixpoint utf8_from (l : list ascii) : bool :=
  match l with
  | [] => true
  | b0 :: t =>
      if in_range 0 127 b0 then utf8_from t
      else if in_range 194 223 b0 then
        match t with
        | b1 :: t1 => in_range 128 191 b1 && utf8_from t1
        | _ => false
        end
      else if in_range 224 239 b0 then
        match t with
        | b1 :: b2 :: t2 =>
            in_range (if in_range 224 224 b0 then 160 else 128)
                     (if in_range 237 237 b0 then 159 else 191) b1
            && in_range 128 191 b2 && utf8_from t2
        | _ => false
        end
      else if in_range 240 244 b0 then
        match t with
        | b1 :: b2 :: b3 :: t3 =>
            in_range (if in_range 240 240 b0 then 144 else 128)
                     (if in_range 244 244 b0 then 143 else 191) b1
            && in_range 128 191 b2 && in_range 128 191 b3 && utf8_from t3
        | _ => false
        end
      else false
  end.

Definition is_utf8 (s : string) : bool := utf8_from (list_ascii_of_string s).

(** ** The [docs] table *)

Record doc : Type := {
  doc_id : Z;                         (* id INTEGER PRIMARY KEY *)
  doc_source : string;                (* source TEXT NOT NULL *)
  doc_path : string;                  (* path TEXT NOT NULL *)
  doc_title : option string;          (* title TEXT *)
  doc_created_at : option string;     (* created_at TEXT *)
  doc_content : string;               (* content TEXT NOT NULL *)
  doc_sha256 : option string;         (* sha256 TEXT *)
  doc_ingested_at : string            (* ingested_at TEXT NOT NULL *)
}.

(** ** The FTS5 index [docs_fts]

    A posting is (term, rowid, column, offset); columns 0 and 1 are [title]
    and [content], [source] and [path] are UNINDEXED.  Besides the postings
    FTS5 keeps the size of every indexed row per column and two totals, the
    number of rows and the number of tokens. *)

Definition posting : Type := string * Z * nat * nat.

Record fts_index : Type := {
  ix_postings : gmultiset posting;
  ix_docsize : gmap Z (nat * nat);
  ix_nrow : Z;
  ix_ntoken : Z
}.

Definition fts_empty : fts_index :=
  {| ix_postings := ∅; ix_docsize := ∅; ix_nrow := 0; ix_ntoken := 0 |}.

Definition col_postings (rowid : Z) (col : nat) (toks : list string) : list posting :=
  imap (fun off t => (t, rowid, col, off)) toks.

Definition row_postings (rowid : Z) (ttl : option string) (cnt : string) : list posting :=
  col_postings rowid 0 (sql_tokens ttl) ++ col_postings rowid 1 (tokenize cnt).

Definition row_ntoken (ttl : option string) (cnt : string) : Z :=
  Z.of_nat (length (sql_tokens ttl)) + Z.of_nat (length (tokenize cnt)).

(** [INSERT INTO docs_fts(rowid, title, content, source, path) VALUES ...] *)
Definition fts_insert (ix : fts_index) (rowid : Z) (ttl : option string) (cnt : string)
  : fts_index :=
  {| ix_postings := ix_postings ix ⊎ list_to_set_disj (row_postings rowid ttl cnt);
     ix_docsize :=
       <[rowid := (length (sql_tokens ttl), length (tokenize cnt))]> (ix_docsize ix);
     ix_nrow := ix_nrow ix + 1;
     ix_ntoken := ix_ntoken ix + row_ntoken ttl cnt |}.

(** [INSERT INTO docs_fts(docs_fts, rowid, title, content, source, path)
     VALUES('delete', ...)]: the postings of the supplied values are taken
    out of the index; FTS5 trusts the caller to supply the values that were
    indexed. *)
Definition fts_delete (ix : fts_index) (rowid : Z) (ttl : option string) (cnt : string)
  : fts_index :=
  {| ix_postings := ix_postings ix ∖ list_to_set_disj (row_postings rowid ttl cnt);
     ix_docsize := delete rowid (ix_docsize ix);
     ix_nrow := ix_nrow ix - 1;
     ix_ntoken := ix_ntoken ix - row_ntoken ttl cnt |}.

(** The three triggers of [init_schema]. *)
Definition docs_ai (ix : fts_index) (new : doc) : fts_index :=
  fts_insert ix (doc_id new) (doc_title new) (doc_content new).

Definition docs_ad (ix : fts_index) (old : doc) : fts_index :=
  fts_delete ix (doc_id old) (doc_title old) (doc_content old).

Definition docs_au (ix : fts_index) (old new : doc) : fts_index :=
  fts_insert (fts_delete ix (doc_id old) (doc_title old) (doc_content old))
             (doc_id new) (doc_title new) (doc_content new).

(** ** Queries, as FTS5 holds them once parsed *)

(** A phrase: its terms, each possibly a prefix term, and the [^] marker. *)
Record fts5_phrase : Type := {
  ph_first : bool;
  ph_terms : list (string * bool)
}.

Inductive fts5_expr : Type :=
| E_STRING (cols : list nat) (near : list fts5_phrase) (dist : Z)
| E_EOF
| E_AND (a b : fts5_expr)
| E_OR (a b : fts5_expr)
| E_NOT (a b : fts5_expr).

(** ** External library functions

    What the code takes from libraries and the embedding does not compute.
    The two auxiliary functions of FTS5 are functions of the index, the
    query and the row; SQLite computes bm25 in doubles, and a double is a
    rational. *)

Class Env : Type := {
  (** [hashlib.sha256(bytes).hexdigest()] *)
  sha256_hexdigest : string -> string;
  (** [bm25(docs_fts)] for a row of the index under a query *)
  fts5_bm25 : fts_index -> fts5_expr -> Z -> Q;
  (** [snippet(docs_fts, 1, '[', ']', ellipsis, 12)] for a row of the index
      under a query, from the text of the [content] column *)
  fts5_snippet : fts_index -> fts5_expr -> Z -> string -> string
}.

(** ** Database and connection

    [docs] lists the rows of the table in rowid order, the order of a table
    scan.  A connection sees its own uncommitted writes ([live]); [durable]
    is what a later connection finds.  [None] is a database file on which
    [init_schema] never ran. *)

Record db : Type := { docs : list doc; docs_fts : fts_index }.

Definition empty_db : db := {| docs := []; docs_fts := fts_empty |}.

Record conn : Type := { live : option db; durable : option db }.

(** [sqlite3.connect] on the stored file. *)
Definition connect (file : option db) : conn := {| live := file; durable := file |}.

(** [conn.commit()] *)
Definition commit (c : conn) : conn := {| live := live c; durable := live c |}.

(** [init_schema]: every statement is [CREATE ... IF NOT EXISTS], followed
    by a commit. *)
Definition init_schema (c : conn) : conn :=
  commit {| live := Some (match live c with Some d => d | None => empty_db end);
            durable := durable c |}.

(** ** [upsert_doc] *)

Section Store.
Context `{Env}.

(** [_sha256]: the text is encoded with errors ignored, which is the
    identity on strings that are already UTF-8 bytes. *)
Definition _sha256 (text : string) : string := sha256_hexdigest text.

Definition key_matches (src pth : string) (d : doc) : bool :=
  String.eqb (doc_source d) src && String.eqb (doc_path d) pth.

(** [SELECT id, sha256 FROM docs WHERE source=? AND path=?] then
    [fetchone()]: the first row of the scan. *)
Definition select_id_sha256 (ds : list doc) (src pth : string)
  : option (Z * option string) :=
  match List.find (key_matches src pth) ds with
  | Some d => Some (doc_id d, doc_sha256 d)
  | None => None
  end.

Definition set_fields (d : doc) (ttl crt : option string) (cnt sha now : string) : doc :=
  {| doc_id := doc_id d; doc_source := doc_source d; doc_path := doc_path d;
     doc_title := ttl; doc_created_at := crt; doc_content := cnt;
     doc_sha256 := Some sha; doc_ingested_at := now |}.

(** [UPDATE docs SET title=?, created_at=?, content=?, sha256=?,
     ingested_at=? WHERE id=?], trigger [docs_au] firing for each row. *)
Fixpoint sql_update (ds : list doc) (ix : fts_index) (rid : Z)
    (ttl crt : option string) (cnt sha now : string) : list doc * fts_index :=
  match ds with
  | [] => ([], ix)
  | d :: ds' =>
      if doc_id d =? rid then
        let d' := set_fields d ttl crt cnt sha now in
        let '(r, ix') := sql_update ds' (docs_au ix d d') rid ttl crt cnt sha now in
        (d' :: r, ix')
      else
        let '(r, ix') := sql_update ds' ix rid ttl crt cnt sha now in
        (d :: r, ix')
  end.

(** The rowid SQLite gives a new row of an INTEGER PRIMARY KEY table: one
    more than the largest in use, 1 in an empty table. *)
Definition next_rowid (ds : list doc) : Z :=
  foldr (fun d m => Z.max (doc_id d) m) 0 ds + 1.

(** [INSERT INTO docs(source, path, title, created_at, content, sha256,
     ingested_at) VALUES(?,?,?,?,?,?,?)], trigger [docs_ai] firing. *)
Definition sql_insert (ds : list doc) (ix : fts_index) (src pth : string)
    (ttl crt : option string) (cnt sha now : string) : list doc * fts_index :=
  let d := {| doc_id := next_rowid ds; doc_source := src; doc_path := pth;
              doc_title := ttl; doc_created_at := crt; doc_content := cnt;
              doc_sha256 := Some sha; doc_ingested_at := now |} in
  (ds ++ [d], docs_ai ix d).

(** [DELETE FROM docs WHERE id=?], trigger [docs_ad] firing.  No function of
    the repository issues it; it is here for the trigger. *)
Fixpoint sql_delete (ds : list doc) (ix : fts_index) (rid : Z) : list doc * fts_index :=
  match ds with
  | [] => ([], ix)
  | d :: ds' =>
      if doc_id d =? rid then sql_delete ds' (docs_ad ix d) rid
      else let '(r, ix') := sql_delete ds' ix rid in (d :: r, ix')
  end.

(** The branch [upsert_doc] takes.  The Python function returns [None] on
    every path; the label names the path. *)
Inductive outcome : Type := Created | Updated | Unchanged.

Definition sha_equal (stored : option string) (sha : string) : bool :=
  match stored with Some s => String.eqb s sha | None => false end.

(** The body of [upsert_doc] on a database with the schema; [now] is the
    value of [datetime.now(timezone.utc).isoformat()] at the call. *)
Definition upsert_db (d : db) (src pth : string) (ttl crt : option string)
    (cnt : string) (now : string) : outcome * db :=
  let sha := _sha256 cnt in
  let ingested_at := now in
  match select_id_sha256 (docs d) src pth with
  | Some (rid, stored) =>
      if sha_equal stored sha then (Unchanged, d)
      else
        let '(ds, ix) := sql_update (docs d) (docs_fts d) rid ttl crt cnt sha ingested_at in
        (Updated, {| docs := ds; docs_fts := ix |})
  | None =>
      let '(ds, ix) := sql_insert (docs d) (docs_fts d) src pth ttl crt cnt sha ingested_at in
      (Created, {| docs := ds; docs_fts := ix |})
  end.

(** [upsert_doc]: without the schema the first statement raises. *)
Definition upsert_doc (c : conn) (src pth : string) (ttl crt : option string)
    (cnt : string) (now : string) : result (outcome * conn) :=
  match live c with
  | None => Raise OperationalError
  | Some d =>
      let '(o, d') := upsert_db d src pth ttl crt cnt now in
      Ok (o, {| live := Some d'; durable := durable c |})
  end.

End Store.

(** ** Texts that cannot be encoded

    A [str] is a sequence of code points and can hold lone surrogates
    (U+D800 to U+DFFF): [json.loads] makes one from an escape such as
    [\udc80].  A lone surrogate has no UTF-8 encoding.  [_sha256] encodes
    with errors ignored, which leaves it out; sqlite3 encodes a [str] it
    binds to a statement strictly and raises [UnicodeEncodeError].
    Everywhere else in this file a text is given by its UTF-8 bytes, so it
    holds no lone surrogate; here a text is a list of such bytes and of
    lone surrogates. *)

Inductive pychar : Type :=
| Utf8 (b : ascii)          (* a byte of the encoding of a character *)
| Surrogate (code : Z).     (* a lone surrogate, by its code point *)

Definition of_utf8 (s : string) : list pychar := List.map Utf8 (list_ascii_of_string s).

(** [text.encode("utf-8", errors="ignore")] *)
Definition encode_ignore (text : list pychar) : string :=
  string_of_list_ascii
    (flat_map (fun c => match c with Utf8 b => [b] | Surrogate _ => [] end) text).

(** The encoding sqlite3 makes of a [str] it binds; [None] is its
    [UnicodeEncodeError]. *)
Definition encode_strict (text : list pychar) : option string :=
  if forallb (fun c => match c with Utf8 _ => true | Surrogate _ => false end) text
  then Some (encode_ignore text)
  else None.

Section StoreText.
Context `{Env}.

(** [upsert_doc] for a content that may hold lone surrogates.  The digest
    is that of the encoding with errors ignored; the SELECT binds source
    and path only; the UPDATE and the INSERT bind the content, and when it
    cannot be encoded they raise before anything is written. *)
Definition upsert_doc_str (c : conn) (src pth : string) (ttl crt : option string)
    (content : list pychar) (now : string) : result (outcome * conn) :=
  let sha := _sha256 (encode_ignore content) in
  match live c with
  | None => Raise OperationalError
  | Some d =>
      let same :=
        match select_id_sha256 (docs d) src pth with
        | Some (_, stored) => sha_equal stored sha
        | None => false
        end in
      if same then Ok (Unchanged, {| live := Some d; durable := durable c |})
      else
        match encode_strict content with
        | Some cnt => upsert_doc c src pth ttl crt cnt now
        | None => Raise UnicodeEncodeError
        end
  end.

End StoreText.

(** ** The FTS5 query language

    [docs_fts MATCH ?] hands the query string to FTS5.  The lexer and the
    grammar below follow FTS5's: barewords and double-quoted strings,
    [+] and [*] inside phrases, [^], column filters, [NEAR] groups,
    implicit AND, and the operators [AND], [OR], [NOT] with NOT binding
    tightest.  FTS5's parser stack is bounded (queries nested about a
    hundred levels deep are rejected); the model has no such bound. *)

Inductive token : Type :=
| T_LP | T_RP | T_LCP | T_RCP | T_COLON | T_COMMA | T_PLUS | T_STAR | T_MINUS | T_CARET
| T_AND | T_OR | T_NOT
| T_STRING (quoted : bool) (text : string).

Definition dquote : ascii := "034"%char.
Definition nul : ascii := "000"%char.

Definition is_space (c : ascii) : bool :=
  let n := nat_of_ascii c in
  ((n =? 32) || (n =? 9) || (n =? 10) || (n =? 13))%nat.

Definition is_bareword (c : ascii) : bool :=
  let n := nat_of_ascii c in
  is_digit c || is_upper c || is_lower c || (n =? 95)%nat || (n =? 26)%nat || is_high c.

Definition punct (c : ascii) : option token :=
  if Ascii.eqb c "("%char then Some T_LP
  else if Ascii.eqb c ")"%char then Some T_RP
  else if Ascii.eqb c "{"%char then Some T_LCP
  else if Ascii.eqb c "}"%char then Some T_RCP
  else if Ascii.eqb c ":"%char then Some T_COLON
  else if Ascii.eqb c ","%char then Some T_COMMA
  else if Ascii.eqb c "+"%char then Some T_PLUS
  else if Ascii.eqb c "*"%char then Some T_STAR
  else if Ascii.eqb c "-"%char then Some T_MINUS
  else if Ascii.eqb c "^"%char then Some T_CARET
  else None.

Definition snoc_char (s : string) (c : ascii) : string :=
  String.append s (String c EmptyString).

(** A finished bareword: the three operators are keywords, in upper case only. *)
Definition bare_token (acc : string) : token :=
  if String.eqb acc "AND" then T_AND
  else if String.eqb acc "OR" then T_OR
  else if String.eqb acc "NOT" then T_NOT
  else T_STRING false acc.

Inductive lex_state : Type :=
| L_idle
| L_bare (acc : string)
| L_quoted (acc : string)        (* inside a string *)
| L_quote_seen (acc : string).   (* inside a string, just after a quote *)

Definition lex_idle (c : ascii) : option (list token * lex_state) :=
  if is_space c then Some ([], L_idle)
  else match punct c with
       | Some t => Some ([t], L_idle)
       | None =>
           if Ascii.eqb c dquote then Some ([], L_quoted EmptyString)
           else if is_bareword c then Some ([], L_bare (String c EmptyString))
           else None
       end.

Definition emit_then (t : token) (r : option (list token * lex_state))
  : option (list token * lex_state) :=
  match r with Some (ts, st) => Some (t :: ts, st) | None => None end.

Definition lex_step (st : lex_state) (c : ascii) : option (list token * lex_state) :=
  match st with
  | L_idle => lex_idle c
  | L_bare acc =>
      if is_bareword c then Some ([], L_bare (snoc_char acc c))
      else emit_then (bare_token acc) (lex_idle c)
  | L_quoted acc =>
      if Ascii.eqb c dquote then Some ([], L_quote_seen acc)
      else Some ([], L_quoted (snoc_char acc c))
  | L_quote_seen acc =>
      if Ascii.eqb c dquote then Some ([], L_quoted (snoc_char acc dquote))
      else emit_then (T_STRING true acc) (lex_idle c)
  end.

(** End of input; an open string is FTS5's error of the unterminated string. *)
Definition lex_end (st : lex_state) : option (list token) :=
  match st with
  | L_idle => Some []
  | L_bare acc => Some [bare_token acc]
  | L_quoted _ => None
  | L_quote_seen acc => Some [T_STRING true acc]
  end.

(** The query is read as a C string: a NUL byte ends it. *)
Fixpoint lex_from (st : lex_state) (s : string) : option (list token) :=
  match s with
  | EmptyString => lex_end st
  | String c s' =>
      if Ascii.eqb c nul then lex_end st
      else match lex_step st c with
           | None => None
           | Some (ts, st') =>
               match lex_from st' s' with
               | Some r => Some (ts ++ r)
               | None => None
               end
           end
  end.

Definition fts5_lex (s : string) : option (list token) := lex_from L_idle s.

(** *** Expressions *)

Definition all_cols : list nat := [0; 1; 2; 3]%nat.
Definition default_neardist : Z := 10.

Definition lower_string (s : string) : string :=
  string_of_list_ascii (List.map fold_case (list_ascii_of_string s)).

(** Column names are compared without regard to ASCII case. *)
Definition column_index (name : string) : option nat :=
  let n := lower_string name in
  if String.eqb n "title" then Some 0%nat
  else if String.eqb n "content" then Some 1%nat
  else if String.eqb n "source" then Some 2%nat
  else if String.eqb n "path" then Some 3%nat
  else None.

Definition mem_nat (n : nat) (l : list nat) : bool := existsb (Nat.eqb n) l.

Definition colset_invert (cs : list nat) : list nat :=
  List.filter (fun c => negb (mem_nat c cs)) all_cols.

Definition colset_inter (a b : list nat) : list nat :=
  List.filter (fun c => mem_nat c b) a.

(** The names between braces, up to the closing brace. *)
Fixpoint parse_colsetlist (toks : list token) : option (list nat * list token) :=
  match toks with
  | T_STRING _ n :: rest =>
      match column_index n with
      | None => None
      | Some c =>
          match rest with
          | T_RCP :: rest' => Some ([c], rest')
          | _ => match parse_colsetlist rest with
                 | Some (cs, rest') => Some (c :: cs, rest')
                 | None => None
                 end
          end
      end
  | _ => None
  end.

Inductive colset_result : Type :=
| NoColset
| ColsetError
| Colset (cols : list nat) (rest : list token).

(** A column filter and its colon, when the tokens start with one. *)
Definition parse_colset (toks : list token) : colset_result :=
  match toks with
  | T_STRING _ n :: T_COLON :: rest =>
      match column_index n with Some c => Colset [c] rest | None => ColsetError end
  | T_MINUS :: T_STRING _ n :: T_COLON :: rest =>
      match column_index n with
      | Some c => Colset (colset_invert [c]) rest
      | None => ColsetError
      end
  | T_LCP :: rest =>
      match parse_colsetlist rest with
      | Some (cs, T_COLON :: rest') => Colset cs rest'
      | _ => ColsetError
      end
  | T_MINUS :: T_LCP :: rest =>
      match parse_colsetlist rest with
      | Some (cs, T_COLON :: rest') => Colset (colset_invert cs) rest'
      | _ => ColsetError
      end
  | T_MINUS :: _ => ColsetError
  | _ => NoColset
  end.

Fixpoint set_last_prefix (ts : list (string * bool)) (pfx : bool) : list (string * bool) :=
  match ts with
  | [] => []
  | [(t, _)] => [(t, pfx)]
  | x :: ts' => x :: set_last_prefix ts' pfx
  end.

(** A string joins a phrase: its tokens are appended, and the last term of
    the phrase takes the string's [*]. *)
Definition phrase_add (ts : list (string * bool)) (text : string) (star : bool)
  : list (string * bool) :=
  set_last_prefix (ts ++ List.map (fun t => (t, false)) (tokenize text)) star.

(** The rest of a phrase after its first string: [+ STRING [*]] repeated. *)
Fixpoint parse_phrase_rest (ts : list (string * bool)) (toks : list token)
  : option (list (string * bool) * list token) :=
  match toks with
  | T_PLUS :: T_STRING _ s :: T_STAR :: rest => parse_phrase_rest (phrase_add ts s true) rest
  | T_PLUS :: T_STRING _ s :: rest => parse_phrase_rest (phrase_add ts s false) rest
  | T_PLUS :: _ => None
  | _ => Some (ts, toks)
  end.

Definition parse_phrase (toks : list token) : option (list (string * bool) * list token) :=
  match toks with
  | T_STRING _ s :: T_STAR :: rest => parse_phrase_rest (phrase_add [] s true) rest
  | T_STRING _ s :: rest => parse_phrase_rest (phrase_add [] s false) rest
  | _ => None
  end.

Definition mk_phrase (first : bool) (ts : list (string * bool)) : fts5_phrase :=
  {| ph_first := first; ph_terms := ts |}.

Definition phrase_is_empty (p : fts5_phrase) : bool :=
  match ph_terms p with [] => true | _ => false end.

(** A phrase joins a NEAR group; an empty phrase next to another one is dropped. *)
Definition nearset_add (l : list fts5_phrase) (p : fts5_phrase) : list fts5_phrase :=
  match l with
  | [] => [p]
  | _ =>
      if phrase_is_empty p then l
      else match List.last l p with
           | q => if phrase_is_empty q then removelast l ++ [p] else l ++ [p]
           end
  end.

(** The phrases of a NEAR group up to [,] or [)]. *)
Fixpoint parse_nearphrases (fuel : nat) (acc : list fts5_phrase) (toks : list token)
  : option (list fts5_phrase * list token) :=
  match fuel with
  | O => None
  | S fuel' =>
      match toks with
      | T_STRING _ _ :: _ =>
          match parse_phrase toks with
          | Some (ts, rest) => parse_nearphrases fuel' (nearset_add acc (mk_phrase false ts)) rest
          | None => None
          end
      | _ => match acc with [] => None | _ => Some (acc, toks) end
      end
  end.

Definition all_digits (s : string) : bool :=
  forallb is_digit (list_ascii_of_string s).

(** C [int] arithmetic as SQLite is compiled: 32 bits, wrapping. *)
Definition wrap32 (z : Z) : Z := (z + 2147483648) mod 4294967296 - 2147483648.

Definition digits_value (s : string) : Z :=
  fold_left (fun n c => wrap32 (n * 10 + (Z.of_nat (nat_of_ascii c) - 48)))
            (list_ascii_of_string s) 0.

(** The node of a phrase or NEAR group: with an empty phrase it matches
    nothing (FTS5's EOF node). *)
Definition mk_string (cols : list nat) (near : list fts5_phrase) (dist : Z) : fts5_expr :=
  if existsb phrase_is_empty near then E_EOF else E_STRING cols near dist.

(** [nearset]: a phrase, [^] and a phrase, or [NEAR(phrases [, N])]. *)
Definition parse_nearset (cols : list nat) (toks : list token)
  : option (fts5_expr * list token) :=
  match toks with
  | T_CARET :: rest =>
      match parse_phrase rest with
      | Some (ts, rest') => Some (mk_string cols [mk_phrase true ts] default_neardist, rest')
      | None => None
      end
  | T_STRING q s :: T_LP :: rest =>
      if negb q && String.eqb s "NEAR" then
        match parse_nearphrases (S (length rest)) [] rest with
        | Some (phs, T_RP :: rest') => Some (mk_string cols phs default_neardist, rest')
        | Some (phs, T_COMMA :: T_STRING qd d :: T_RP :: rest') =>
            if negb qd && all_digits d
            then Some (mk_string cols phs (digits_value d), rest')
            else None
        | _ => None
        end
      else None
  | T_STRING _ _ :: _ =>
      match parse_phrase toks with
      | Some (ts, rest) => Some (mk_string cols [mk_phrase false ts] default_neardist, rest)
      | None => None
      end
  | _ => None
  end.

(** [cnearset]: a nearset, possibly under a column filter. *)
Definition parse_cnearset (toks : list token) : option (fts5_expr * list token) :=
  match parse_colset toks with
  | ColsetError => None
  | Colset cols rest => parse_nearset cols rest
  | NoColset => parse_nearset all_cols toks
  end.

(** Implicit AND; operands that match nothing are dropped. *)
Definition implicit_and (l r : fts5_expr) : fts5_expr :=
  match r with
  | E_EOF => l
  | _ => match l with E_EOF => r | _ => E_AND l r end
  end.

Definition starts_cnearset (toks : list token) : bool :=
  match toks with
  | T_STRING _ _ :: _ | T_CARET :: _ | T_MINUS :: _ | T_LCP :: _ => true
  | _ => false
  end.

(** [exprlist], after its first element. *)
Fixpoint parse_exprlist (fuel : nat) (acc : fts5_expr) (toks : list token)
  : option (fts5_expr * list token) :=
  match fuel with
  | O => None
  | S fuel' =>
      if starts_cnearset toks then
        match parse_cnearset toks with
        | Some (e, rest) => parse_exprlist fuel' (implicit_and acc e) rest
        | None => None
        end
      else Some (acc, toks)
  end.

(** A column filter in front of a parenthesised expression restricts every
    phrase inside. *)
Fixpoint set_colset (cols : list nat) (e : fts5_expr) : fts5_expr :=
  match e with
  | E_STRING cs near dist => E_STRING (colset_inter cs cols) near dist
  | E_EOF => E_EOF
  | E_AND a b => E_AND (set_colset cols a) (set_colset cols b)
  | E_OR a b => E_OR (set_colset cols a) (set_colset cols b)
  | E_NOT a b => E_NOT (set_colset cols a) (set_colset cols b)
  end.

Inductive binop : Type := B_OR | B_AND | B_NOT.

Definition binop_token (o : binop) (t : token) : bool :=
  match o, t with
  | B_OR, T_OR | B_AND, T_AND | B_NOT, T_NOT => true
  | _, _ => false
  end.

Definition binop_node (o : binop) : fts5_expr -> fts5_expr -> fts5_expr :=
  match o with B_OR => E_OR | B_AND => E_AND | B_NOT => E_NOT end.

(** [expr]: OR over AND over NOT over primaries, each operator
    left-associative.  A primary is a parenthesised expression, possibly
    under a column filter, or an [exprlist]. *)
Fixpoint parse_level (fuel : nat) (lvl : list binop) (toks : list token)
  : option (fts5_expr * list token) :=
  match fuel with
  | O => None
  | S fuel' =>
      match lvl with
      | o :: lvl' =>
          match parse_level fuel' lvl' toks with
          | Some (e, rest) =>
              (fix chain (n : nat) (l : fts5_expr) (ts : list token) {struct n}
                 : option (fts5_expr * list token) :=
                 match n with
                 | O => None
                 | S n' =>
                     match ts with
                     | t :: ts' =>
                         if binop_token o t then
                           match parse_level fuel' lvl' ts' with
                           | Some (r, rest') => chain n' (binop_node o l r) rest'
                           | None => None
                           end
                         else Some (l, ts)
                     | [] => Some (l, ts)
                     end
                 end) fuel' e rest
          | None => None
          end
      | [] =>
          match toks with
          | T_LP :: rest =>
              match parse_level fuel' [B_OR; B_AND; B_NOT] rest with
              | Some (e, T_RP :: rest') => Some (e, rest')
              | _ => None
              end
          | _ =>
              match parse_colset toks with
              | ColsetError => None
              | Colset cols (T_LP :: rest) =>
                  match parse_level fuel' [B_OR; B_AND; B_NOT] rest with
                  | Some (e, T_RP :: rest') => Some (set_colset cols e, rest')
                  | _ => None
                  end
              | _ =>
                  match parse_cnearset toks with
                  | Some (e, rest) => parse_exprlist fuel' e rest
                  | None => None
                  end
              end
          end
      end
  end.

Definition parse_expr (toks : list token) : option fts5_expr :=
  match parse_level (4 * length toks + 8) [B_OR; B_AND; B_NOT] toks with
  | Some (e, []) => Some e
  | _ => None
  end.

(** A query that starts with [*] is not a full-text query but one of
    FTS5's two special queries, named after the star. *)
Inductive fts5_query : Type :=
| Q_expr (e : fts5_expr)
| Q_reads
| Q_id.

Fixpoint skip_blanks (s : string) : string :=
  match s with
  | String c s' => if Ascii.eqb c " "%char then skip_blanks s' else s
  | EmptyString => s
  end.

Fixpoint first_word (s : string) : string :=
  match s with
  | String c s' =>
      if Ascii.eqb c " "%char || Ascii.eqb c nul then EmptyString
      else String c (first_word s')
  | EmptyString => EmptyString
  end.

Definition fts5_special (s : string) : option fts5_query :=
  let w := lower_string (first_word (skip_blanks s)) in
  if String.eqb w "reads" then Some Q_reads
  else if String.eqb w "id" then Some Q_id
  else None.

(** The parser as [MATCH] runs it; [None] is an FTS5 error. *)
Definition fts5_parse (query : string) : option fts5_query :=
  match query with
  | String c rest =>
      if Ascii.eqb c "*"%char then fts5_special rest
      else match fts5_lex query with
           | Some toks => option_map Q_expr (parse_expr toks)
           | None => None
           end
  | EmptyString => None
  end.

(** ** Matching

    What the index says about one row: whether a term stands at an offset
    of a column, where the instances of a phrase are, which of them survive
    the NEAR condition. *)

Definition col_size (ix : fts_index) (rowid : Z) (col : nat) : nat :=
  match ix_docsize ix !! rowid with
  | Some (a, b) => match col with O => a | S O => b | _ => O end
  | None => O
  end.

Definition posting_matches (rowid : Z) (col off : nat) (t : string) (pfx : bool)
    (p : posting) : bool :=
  let '(t', r, c, o) := p in
  (r =? rowid) && (c =? col)%nat && (o =? off)%nat
  && (if pfx then String.prefix t t' else String.eqb t' t).

Definition term_at (ix : fts_index) (rowid : Z) (col off : nat) (tm : string * bool) : bool :=
  existsb (posting_matches rowid col off (fst tm) (snd tm)) (elements (ix_postings ix)).

Fixpoint phrase_at (ix : fts_index) (rowid : Z) (col off : nat) (ts : list (string * bool))
  : bool :=
  match ts with
  | [] => true
  | tm :: ts' => term_at ix rowid col off tm && phrase_at ix rowid col (S off) ts'
  end.

(** The instances of a phrase in a row, as (column, offset of the first
    term), in position order.  Only the indexed columns hold tokens. *)
Definition phrase_hits (ix : fts_index) (rowid : Z) (cols : list nat) (p : fts5_phrase)
  : list (nat * nat) :=
  match ph_terms p with
  | [] => []
  | ts =>
      flat_map
        (fun col =>
           if mem_nat col cols then
             List.map (fun off => (col, off))
               (List.filter
                  (fun off => (negb (ph_first p) || (off =? 0)%nat)
                              && phrase_at ix rowid col off ts)
                  (seq 0 (col_size ix rowid col)))
           else [])
        [0; 1]%nat
  end.

(** *** NEAR

    FTS5 walks the position lists of the phrases of a group in step, one
    reader per phrase, and writes out the positions that fall in a common
    window.  A position is column * 2^32 + offset. *)

Definition pos_key (p : nat * nat) : Z := Z.of_nat (fst p) * 4294967296 + Z.of_nat (snd p).
Definition lookahead_eof : Z := 4611686018427387904.

Record near_reader : Type := {
  nr_nterm : nat;                  (* number of terms of the phrase *)
  nr_rest : list (nat * nat);      (* current position, then the ones to come *)
  nr_out : list (nat * nat)        (* positions written, latest first *)
}.

Definition reader_pos (r : near_reader) : Z :=
  match nr_rest r with p :: _ => pos_key p | [] => lookahead_eof end.

Definition reader_lookahead (r : near_reader) : Z :=
  match nr_rest r with _ :: p :: _ => pos_key p | _ => lookahead_eof end.

Fixpoint drop_below (iMin : Z) (l : list (nat * nat)) : list (nat * nat) :=
  match l with
  | p :: l' => if pos_key p <? iMin then drop_below iMin l' else l
  | [] => []
  end.

(** One pass over the readers; [None] when one of them runs out. *)
Fixpoint align_pass (nNear : Z) (rs : list near_reader) (iMax : Z)
  : option (list near_reader * Z * bool) :=
  match rs with
  | [] => Some ([], iMax, true)
  | r :: rs' =>
      let iMin := iMax - Z.of_nat (nr_nterm r) - nNear in
      let pos := reader_pos r in
      if (pos <? iMin) || (pos >? iMax) then
        match drop_below iMin (nr_rest r) with
        | [] => None
        | p :: l =>
            match align_pass nNear rs' (Z.max iMax (pos_key p)) with
            | Some (rs'', m, _) =>
                Some ({| nr_nterm := nr_nterm r; nr_rest := p :: l; nr_out := nr_out r |}
                        :: rs'', m, false)
            | None => None
            end
        end
      else
        match align_pass nNear rs' iMax with
        | Some (rs'', m, b) => Some (r :: rs'', m, b)
        | None => None
        end
  end.

Fixpoint align (fuel : nat) (nNear : Z) (rs : list near_reader) (iMax : Z)
  : option (list near_reader) :=
  match fuel with
  | O => None
  | S fuel' =>
      match align_pass nNear rs iMax with
      | None => None
      | Some (rs', _, true) => Some rs'
      | Some (rs', m, false) => align fuel' nNear rs' m
      end
  end.

Definition write_out (r : near_reader) : near_reader :=
  match nr_rest r with
  | p :: _ =>
      match nr_out r with
      | q :: _ => if pos_key q =? pos_key p then r
                  else {| nr_nterm := nr_nterm r; nr_rest := nr_rest r; nr_out := p :: nr_out r |}
      | [] => {| nr_nterm := nr_nterm r; nr_rest := nr_rest r; nr_out := [p] |}
      end
  | [] => r
  end.

(** The first reader whose lookahead is the smallest. *)
Fixpoint argmin_lookahead (rs : list near_reader) (i best : nat) (bestv : Z) : nat :=
  match rs with
  | [] => best
  | r :: rs' =>
      if reader_lookahead r <? bestv
      then argmin_lookahead rs' (S i) i (reader_lookahead r)
      else argmin_lookahead rs' (S i) best bestv
  end.

Definition reader_next (r : near_reader) : near_reader :=
  {| nr_nterm := nr_nterm r; nr_rest := List.tl (nr_rest r); nr_out := nr_out r |}.

Fixpoint near_loop (fuel : nat) (nNear : Z) (rs : list near_reader) : list near_reader :=
  match fuel with
  | O => rs
  | S fuel' =>
      match rs with
      | [] => rs
      | r0 :: _ =>
          match align (S fuel') nNear rs (reader_pos r0) with
          | None => rs
          | Some rs1 =>
              let rs2 := List.map write_out rs1 in
              let i := argmin_lookahead rs2 0 0 (reader_lookahead (List.hd r0 rs2)) in
              let rs3 := alter reader_next i rs2 in
              match nr_rest (List.nth i rs3 r0) with
              | [] => rs3
              | _ => near_loop fuel' nNear rs3
              end
          end
      end
  end.

Definition near_filter (dist : Z) (near : list fts5_phrase) (hs : list (list (nat * nat)))
  : list (list (nat * nat)) :=
  let rs := List.map (fun '(p, h) => {| nr_nterm := length (ph_terms p);
                                        nr_rest := h; nr_out := [] |})
                     (List.combine near hs) in
  let fuel := (length (List.concat hs) + length hs + 2)%nat in
  List.map (fun r => List.rev (nr_out r)) (near_loop fuel dist rs).

Definition is_nil {A} (l : list A) : bool := match l with [] => true | _ => false end.

(** The instances of the phrases of a phrase or NEAR node in a row: every
    phrase must occur, and in a group of several the NEAR filter applies. *)
Definition string_insts (ix : fts_index) (rowid : Z) (cols : list nat)
    (near : list fts5_phrase) (dist : Z) : list (list (nat * nat)) :=
  let hs := List.map (phrase_hits ix rowid cols) near in
  if existsb is_nil hs then List.map (fun _ => []) near
  else match near with
       | [_] => hs
       | _ => near_filter dist near hs
       end.

Fixpoint matches (ix : fts_index) (rowid : Z) (e : fts5_expr) : bool :=
  match e with
  | E_STRING cols near dist =>
      match string_insts ix rowid cols near dist with
      | h :: _ => negb (is_nil h)
      | [] => false
      end
  | E_EOF => false
  | E_AND a b => matches ix rowid a && matches ix rowid b
  | E_OR a b => matches ix rowid a || matches ix rowid b
  | E_NOT a b => matches ix rowid a && negb (matches ix rowid b)
  end.

(** The phrase instances of a matching row, phrase by phrase: those of the
    nodes that take part in the match.  They enter the BM25 formula below,
    not [search]. *)
Fixpoint insts (ix : fts_index) (rowid : Z) (active : bool) (e : fts5_expr)
  : list (list (nat * nat)) :=
  match e with
  | E_STRING cols near dist =>
      if active then string_insts ix rowid cols near dist
      else List.map (fun _ => []) near
  | E_EOF => []
  | E_AND a b =>
      let act := active && matches ix rowid e in
      insts ix rowid act a ++ insts ix rowid act b
  | E_OR a b => insts ix rowid active a ++ insts ix rowid active b
  | E_NOT a b =>
      let act := active && matches ix rowid e in
      insts ix rowid act a ++ insts ix rowid false b
  end.

(** The phrases of an expression with their column filters, in the order
    of [insts]. *)
Fixpoint phrases_of (e : fts5_expr) : list (list nat * fts5_phrase) :=
  match e with
  | E_STRING cols near _ => List.map (fun p => (cols, p)) near
  | E_EOF => []
  | E_AND a b | E_OR a b | E_NOT a b => phrases_of a ++ phrases_of b
  end.

(** *** Sorting *)

Fixpoint insert_by {A} (le : A -> A -> bool) (x : A) (l : list A) : list A :=
  match l with
  | [] => [x]
  | y :: l' => if le x y then x :: l else y :: insert_by le x l'
  end.

(** Stable insertion sort. *)
Definition sort_by {A} (le : A -> A -> bool) (l : list A) : list A :=
  foldr (insert_by le) [] l.

(** The rows of the index, by ascending rowid: the order in which FTS5
    visits them. *)
Definition index_rowids (ix : fts_index) : list Z :=
  sort_by Z.leb (List.map fst (map_to_list (ix_docsize ix))).

Definition matching_rowids (ix : fts_index) (e : fts5_expr) : list Z :=
  List.filter (fun r => matches ix r e) (index_rowids ix).

(** ** The BM25 formula

    The Okapi BM25 function with the constants of FTS5, evaluated exactly
    over a given logarithm.  SQLite evaluates its bm25 in doubles, so this
    is not the function [search] sorts by, which is the [fts5_bm25] of the
    environment; it is a scoring function an environment can have, and the
    one the examples are run with. *)

Section Formula.
Variable fts5_log : Q -> Q.

Definition bm25_k1 : Q := 12 # 10.
Definition bm25_b : Q := 75 # 100.

(** The number of rows that hold the phrase, under its column filter. *)
Definition phrase_nhit (ix : fts_index) (cp : list nat * fts5_phrase) : Z :=
  Z.of_nat (length (List.filter
                      (fun r => negb (is_nil (phrase_hits ix r (fst cp) (snd cp))))
                      (index_rowids ix))).

(** Inverse document frequency, with FTS5's floor. *)
Definition idf (nRow nHit : Z) : Q :=
  let v := fts5_log ((inject_Z (nRow - nHit) + (1 # 2)) / (inject_Z nHit + (1 # 2)))%Q in
  if Qle_bool v 0 then (1 # 1000000)%Q else v.

Definition row_size (ix : fts_index) (rowid : Z) : Z :=
  Z.of_nat (col_size ix rowid 0) + Z.of_nat (col_size ix rowid 1).

Definition avgdl (ix : fts_index) : Q :=
  (inject_Z (ix_ntoken ix) / inject_Z (ix_nrow ix))%Q.

Definition bm25_phrase (w freq D avg : Q) : Q :=
  (w * ((freq * (bm25_k1 + 1)) / (freq + bm25_k1 * (1 - bm25_b + bm25_b * D / avg))))%Q.

(** Per phrase: its idf and its frequency in the row. *)
Definition row_stats (ix : fts_index) (e : fts5_expr) (rowid : Z) : list (Q * Q) :=
  List.combine
    (List.map (fun cp => idf (ix_nrow ix) (phrase_nhit ix cp)) (phrases_of e))
    (List.map (fun l => inject_Z (Z.of_nat (length l))) (insts ix rowid true e)).

(** The formula with the default weights: the better the match, the more
    negative. *)
Definition bm25_exact (ix : fts_index) (e : fts5_expr) (rowid : Z) : Q :=
  (- fold_left
       (fun score '(w, freq) =>
          score + bm25_phrase w freq (inject_Z (row_size ix rowid)) (avgdl ix))
       (row_stats ix e rowid) 0)%Q.

End Formula.

(** ** [search] *)

Section Rank.
Context `{Env}.

(** [bm25(docs_fts)] *)
Definition bm25 (ix : fts_index) (e : fts5_expr) (rowid : Z) : Q := fts5_bm25 ix e rowid.

Inductive pyval : Type := PyNone | PyStr (s : string).

(** A Python dict with string keys, in insertion order. *)
Definition pydict : Type := list (string * pyval).

Fixpoint dict_get (d : pydict) (key : string) : option pyval :=
  match d with
  | [] => None
  | (k, v) :: d' => if String.eqb k key then Some v else dict_get d' key
  end.

(** A row of the join, with the values of the two auxiliary functions. *)
Record hit : Type := {
  h_doc : doc;
  h_score : Q;
  h_snippet : pyval
}.

(** [JOIN docs d ON d.id = docs_fts.rowid] *)
Definition join_docs (ds : list doc) (rowid : Z) : list doc :=
  List.filter (fun d => doc_id d =? rowid) ds.

(** [FROM docs_fts JOIN docs d ... WHERE docs_fts MATCH ?], rows in rowid order. *)
Definition match_rows (d : db) (e : fts5_expr) : list hit :=
  flat_map
    (fun rowid =>
       List.map
         (fun r => {| h_doc := r;
                      h_score := bm25 (docs_fts d) e rowid;
                      h_snippet :=
                        PyStr (fts5_snippet (docs_fts d) e rowid (doc_content r)) |})
         (join_docs (docs d) rowid))
    (matching_rowids (docs_fts d) e).

(** The row of a special query has rowid 0, no score and no snippet. *)
Definition special_rows (d : db) : list hit :=
  List.map (fun r => {| h_doc := r; h_score := 0%Q; h_snippet := PyNone |})
           (join_docs (docs d) 0).

(** [ORDER BY bm25(docs_fts)]: ascending, rows of equal score in the order
    they came. *)
Definition order_by_bm25 (l : list hit) : list hit :=
  sort_by (fun x y => Qle_bool (h_score x) (h_score y)) l.

(** [LIMIT ?]: a negative limit is no limit. *)
Definition sql_limit {A} (limit : Z) (l : list A) : list A :=
  if limit <? 0 then l else firstn (Z.to_nat limit) l.

(** [COALESCE(d.title, '')] *)
Definition coalesce (v : option string) (dflt : string) : string :=
  match v with Some s => s | None => dflt end.

(** The dict built from a row [r]: source, path, title, snippet. *)
Definition result_dict (h : hit) : pydict :=
  [ ("source"%string, PyStr (doc_source (h_doc h)));
    ("path"%string, PyStr (doc_path (h_doc h)));
    ("title"%string, PyStr (coalesce (doc_title (h_doc h)) EmptyString));
    ("snippet"%string, h_snippet h) ].

Definition is_int64 (n : Z) : bool :=
  (-9223372036854775808 <=? n) && (n <=? 9223372036854775807).

(** The rows [fetchall()] returns.  The statement is prepared (the tables
    must exist), then the parameters are bound (the limit must fit 64
    bits), then it runs; with [LIMIT 0] it ends before the query string is
    looked at. *)
Definition search_hits (c : conn) (query : string) (limit : Z) : result (list hit) :=
  match live c with
  | None => Raise OperationalError
  | Some d =>
      if negb (is_int64 limit) then Raise OverflowError
      else if limit =? 0 then Ok []
      else
        match fts5_parse query with
        | None => Raise OperationalError
        | Some (Q_expr e) => Ok (sql_limit limit (order_by_bm25 (match_rows d e)))
        | Some Q_id => Ok (sql_limit limit (order_by_bm25 (special_rows d)))
        | Some Q_reads =>
            match special_rows d with
            | [] => Ok []
            | _ => Raise OperationalError
            end
        end
  end.

(** [search(conn, query, limit)] *)
Definition search (c : conn) (query : string) (limit : Z) : result (list pydict) :=
  match search_hits c query limit with
  | Ok rows => Ok (List.map result_dict rows)
  | Raise e => Raise e
  end.

End Rank.

(** ** The ChatGPT ingestion driver

    The two adapters are generators.  What a generator does on one file is
    a finite run: it yields dicts, then returns or raises.  [json.loads] on
    a malformed export raises before the first dict; an element of
    unexpected shape raises after the dicts of the conversations before it. *)

Record docdict : Type := {
  dd_title : option string;        (* doc.get of title *)
  dd_created_at : option string;   (* doc.get of created_at *)
  dd_content : option string       (* doc.get of content *)
}.

Inductive gen : Type :=
| G_yield (d : docdict) (rest : gen)
| G_return
| G_raise.

(** A path under [vault/chatgpt], with the run of each adapter on it. *)
Record entry : Type := {
  e_path : string;       (* str(p) *)
  e_name : string;       (* p.name *)
  e_is_file : bool;      (* p.is_file() *)
  e_html : gen;          (* ingest_chatgpt_html(p) *)
  e_json : gen           (* ingest_chatgpt_conversations_json(p) *)
}.

Fixpoint ends_with_aux (rsuffix rs : list ascii) : bool :=
  match rsuffix, rs with
  | [], _ => true
  | a :: l, c :: m => Ascii.eqb a c && ends_with_aux l m
  | _ :: _, [] => false
  end.

(** [s.endswith(suffix)] *)
Definition ends_with (s suffix : string) : bool :=
  ends_with_aux (List.rev (list_ascii_of_string suffix)) (List.rev (list_ascii_of_string s)).

(** [sub in s] *)
Fixpoint str_contains (sub s : string) : bool :=
  String.prefix sub s
  || match s with String _ s' => str_contains sub s' | EmptyString => false end.

(** [x or ...] with the empty string on an optional string *)
Definition or_empty (v : option string) : string :=
  match v with Some s => s | None => EmptyString end.

(** The docs a run yields before it ends. *)
Fixpoint yielded (g : gen) : list docdict :=
  match g with G_yield d g' => d :: yielded g' | _ => [] end.

Fixpoint raises (g : gen) : bool :=
  match g with G_yield _ g' => raises g' | G_return => false | G_raise => true end.

Section Driver.
Context `{Env}.

(** The clock: [clock k] is what [datetime.now] answers to the call of
    [upsert_doc] that follows [k] earlier ones. *)
Variable clock : nat -> string.

(** [for doc in adapter(p): upsert_doc(...); n += 1] *)
Fixpoint drain (c : conn) (pth : string) (g : gen) (n : nat) : conn * nat * option exn :=
  match g with
  | G_return => (c, n, None)
  | G_raise => (c, n, Some ProducerError)
  | G_yield doc g' =>
      match upsert_doc c "chatgpt" pth (dd_title doc) (dd_created_at doc)
                       (or_empty (dd_content doc)) (clock n) with
      | Raise e => (c, n, Some e)
      | Ok (_, c') => drain c' pth g' (S n)
      end
  end.

Definition is_html (e : entry) : bool := ends_with (lower_string (e_name e)) ".html".

Definition is_conversations_json (e : entry) : bool :=
  ends_with (lower_string (e_name e)) ".json"
  && str_contains "conversation" (lower_string (e_name e)).

(** The body of the loop for one path. *)
Definition ingest_entry (c : conn) (e : entry) (n : nat) : conn * nat * option exn :=
  if negb (e_is_file e) then (c, n, None)
  else
    let '(c1, n1, x1) :=
      if is_html e then drain c (e_path e) (e_html e) n else (c, n, None) in
    match x1 with
    | Some x => (c1, n1, Some x)
    | None =>
        if is_conversations_json e then drain c1 (e_path e) (e_json e) n1
        else (c1, n1, None)
    end.

Fixpoint ingest_loop (c : conn) (es : list entry) (n : nat) : conn * nat * option exn :=
  match es with
  | [] => (c, n, None)
  | e :: es' =>
      match ingest_entry c e n with
      | (c', n', None) => ingest_loop c' es' n'
      | r => r
      end
  end.

(** [ingest_chatgpt]: the connection as the call leaves it, and the count
    or the exception.  [base] is [None] when [vault/chatgpt] does not
    exist, else what [rglob] lists. *)
Definition ingest_chatgpt (c : conn) (base : option (list entry)) : conn * result nat :=
  match base with
  | None => (c, Ok 0%nat)
  | Some es =>
      match ingest_loop c es 0 with
      | (c', n, None) => (commit c', Ok n)
      | (c', _, Some x) => (c', Raise x)
      end
  end.

End Driver.

(** ** Reachable stores *)

Section Reach.
Context `{Env}.

(** The statements that change [docs]. *)
Inductive mutation : Type :=
| M_upsert (src pth : string) (ttl crt : option string) (cnt now : string)
| M_delete (rid : Z).

Definition apply_mutation (d : db) (m : mutation) : db :=
  match m with
  | M_upsert src pth ttl crt cnt now => snd (upsert_db d src pth ttl crt cnt now)
  | M_delete rid =>
      let '(ds, ix) := sql_delete (docs d) (docs_fts d) rid in
      {| docs := ds; docs_fts := ix |}
  end.

Definition run (ms : list mutation) : db := fold_left apply_mutation ms empty_db.

(** The index FTS5 builds from scratch over a table (its [rebuild]). *)
Definition build_fts (ds : list doc) : fts_index :=
  fold_left docs_ai ds fts_empty.

Definition doc_key (d : doc) : string * string := (doc_source d, doc_path d).

(** What holds of every store the code can produce. *)
Record wf_db (d : db) : Prop := {
  wf_ids_increasing : StronglySorted Z.lt (List.map doc_id (docs d));
  wf_ids_positive : Forall (fun r => 0 < doc_id r) (docs d);
  wf_keys : List.NoDup (List.map doc_key (docs d));
  wf_index : docs_fts d = build_fts (docs d);
  wf_hash : Forall (fun r => doc_sha256 r = Some (_sha256 (doc_content r))) (docs d)
}.

(** The number of times a token occurs in the indexed columns of a row. *)
Definition term_freq (t : string) (r : doc) : nat :=
  length (List.filter (String.eqb t) (sql_tokens (doc_title r)))
  + length (List.filter (String.eqb t) (tokenize (doc_content r))).

(** The number of tokens of a row. *)
Definition doc_length (r : doc) : nat :=
  length (sql_tokens (doc_title r)) + length (tokenize (doc_content r)).

(** The query that asks for one token. *)
Definition term_query (t : string) (dist : Z) : fts5_expr :=
  E_STRING all_cols [mk_phrase false [(t, false)]] dist.

End Reach.

(** Position of the first dict of a result list that carries a key. *)
Definition dict_key (r : pydict) : option pyval * option pyval :=
  (dict_get r "source", dict_get r "path").

Definition key_of (src pth : string) : option pyval * option pyval :=
  (Some (PyStr src), Some (PyStr pth)).



(** ** Notions of the statements *)

(** No row of the table has the id. *)
Definition free_of (rid : Z) (ds : list doc) : Prop := Forall (fun d => doc_id d <> rid) ds.

(** The parts of the index built from a table: the postings of its rows,
    the two column sizes of a row, the number of tokens. *)
Definition postings_of (ds : list doc) : gmultiset posting :=
  foldr (fun d acc =>
           list_to_set_disj (row_postings (doc_id d) (doc_title d) (doc_content d)) ⊎ acc)
        ∅ ds.

Definition doc_sizes (r : doc) : nat * nat :=
  (length (sql_tokens (doc_title r)), length (tokenize (doc_content r))).

Definition tokens_of (ds : list doc) : Z :=
  foldr (fun d acc => row_ntoken (doc_title d) (doc_content d) + acc) 0 ds.

(** The tokens of an indexed column of a row, and a term against a token. *)
Definition col_tokens (r : doc) (col : nat) : list string :=
  match col with
  | O => sql_tokens (doc_title r)
  | S O => tokenize (doc_content r)
  | _ => []
  end.

Definition term_matches (tm : string * bool) (tok : string) : bool :=
  if snd tm then String.prefix (fst tm) tok else String.eqb tok (fst tm).

Definition term_phrase (t : string) : fts5_phrase := mk_phrase false [(t, false)].

(** The order of the results. *)
Definition score_le (x y : hit) : Prop := (h_score x <= h_score y)%Q.



(** A path and a dict that sqlite3 can bind: each text is the encoding of
    a [str]. *)
Definition opt_utf8 (v : option string) : bool :=
  match v with Some s => is_utf8 s | None => true end.

Definition storable (pd : string * docdict) : bool :=
  is_utf8 (fst pd) && opt_utf8 (dd_title (snd pd)) && opt_utf8 (dd_created_at (snd pd))
  && opt_utf8 (dd_content (snd pd)).


(** An entry whose adapter raises: a file, with a raising run of the
    adapter its name selects (the JSON adapter is not reached when the
    HTML one raised). *)
Definition entry_raises (e : entry) : bool :=
  e_is_file e
  && ((is_html e && raises (e_html e))
      || (is_conversations_json e && raises (e_json e))).

Definition is_word_char (c : ascii) : bool := is_lower c || is_digit c.

(** A non-empty string of lower-case letters and digits. *)
Definition is_word (w : string) : bool :=
  match w with
  | EmptyString => false
  | _ => forallb is_word_char (list_ascii_of_string w)
  end.

(** The two documents of the specification's example. *)
Definition fox_example (now1 now2 : string) : list mutation :=
  [ M_upsert "chatgpt" "a.json" None None "the quick brown fox" now1;
    M_upsert "chatgpt" "b.json" None None "the quick quick fox" now2 ].

Section Notions.
Context `{Env}.

(** The row an insert adds. *)
Definition new_doc (ds : list doc) (src pth : string) (ttl crt : option string)
    (cnt now : string) : doc :=
  {| doc_id := next_rowid ds; doc_source := src; doc_path := pth;
     doc_title := ttl; doc_created_at := crt; doc_content := cnt;
     doc_sha256 := Some (_sha256 cnt); doc_ingested_at := now |}.

(** The row of the join for a row of [docs]. *)
Definition hit_of (d : db) (e : fts5_expr) (r : doc) : hit :=
  {| h_doc := r;
     h_score := bm25 (docs_fts d) e (doc_id r);
     h_snippet := PyStr (fts5_snippet (docs_fts d) e (doc_id r) (doc_content r)) |}.

(** What one call of [upsert_db] leaves behind. *)
Record upserted (d d' : db) (o : outcome) (src pth : string) (ttl crt : option string)
    (cnt now : string) (r : doc) : Prop := {
  up_in : List.In r (docs d');
  up_key : doc_key r = (src, pth);
  up_hash : doc_sha256 r = Some (_sha256 cnt);
  up_find : List.find (key_matches src pth) (docs d') = Some r;
  up_written : o <> Unchanged ->
               doc_title r = ttl /\ doc_created_at r = crt /\ doc_content r = cnt
               /\ doc_ingested_at r = now;
  up_others : forall x, doc_key x <> (src, pth) ->
                        (List.In x (docs d') <-> List.In x (docs d));
  up_length : (length (docs d') <= S (length (docs d)))%nat
}.

(** The store after the upserts of a list of dicts under one path, the
    [k]-th of them at clock tick [n + k]. *)
Fixpoint upsert_all (clock : nat -> string) (d : db) (pth : string)
                    (ds : list docdict) (n : nat) : db :=
  match ds with
  | [] => d
  | doc :: ds' =>
      upsert_all clock (snd (upsert_db d "chatgpt" pth (dd_title doc) (dd_created_at doc)
                                 (or_empty (dd_content doc)) (clock n)))
                 pth ds' (S n)
  end.

End Notions.

(** ** Concrete data *)

(** An environment to run the model on: the digest of a text is the text
    (no two texts collide), the score is the BM25 formula evaluated exactly
    with [x - 1] for the logarithm (it has the sign of the logarithm), the
    snippet is the whole content. *)
Definition test_env : Env :=
  {| sha256_hexdigest := fun s => s;
     fts5_bm25 := bm25_exact (fun x => (x - 1)%Q);
     fts5_snippet := fun _ _ _ s => s |}.

Definition t1 : string := "2024-01-01T00:00:00+00:00".
Definition t2 : string := "2024-01-02T00:00:00+00:00".
Definition test_clock (n : nat) : string := match n with O => t1 | _ => t2 end.

(** A store with the schema and no document. *)
Definition fresh_conn : conn := init_schema (connect None).

(** The store of the example: [a.json], then [b.json]. *)
Definition fox_db : db := run (H := test_env) (fox_example t1 t2).

Definition fox_a : doc :=
  {| doc_id := 1; doc_source := "chatgpt"; doc_path := "a.json"; doc_title := None;
     doc_created_at := None; doc_content := "the quick brown fox";
     doc_sha256 := Some "the quick brown fox"%string; doc_ingested_at := t1 |}.

Definition fox_b : doc :=
  {| doc_id := 2; doc_source := "chatgpt"; doc_path := "b.json"; doc_title := None;
     doc_created_at := None; doc_content := "the quick quick fox";
     doc_sha256 := Some "the quick quick fox"%string; doc_ingested_at := t2 |}.



Definition conv (ttl cnt : string) : docdict :=
  {| dd_title := Some ttl; dd_created_at := None; dd_content := Some cnt |}.

Definition json_file (pth : string) (g : gen) : entry :=
  {| e_path := pth; e_name := "conversations.json"; e_is_file := true;
     e_html := G_return; e_json := g |}.

(** Three export files; the second is not valid JSON. *)
Definition batch : list entry :=
  [ json_file "vault/chatgpt/a/conversations.json" (G_yield (conv "A" "hello") G_return);
    json_file "vault/chatgpt/b/conversations.json" G_raise;
    json_file "vault/chatgpt/c/conversations.json" (G_yield (conv "C" "world") G_return) ].

(** One export file with two conversations without messages. *)
Definition twin_file : entry :=
  json_file "vault/chatgpt/conversations.json"
            (G_yield (conv "A" "") (G_yield (conv "B" "") G_return)).

Definition fox_results : list pydict :=
  [ [ ("source"%string, PyStr "chatgpt"); ("path"%string, PyStr "b.json");
      ("title"%string, PyStr ""); ("snippet"%string, PyStr "the quick quick fox") ];
    [ ("source"%string, PyStr "chatgpt"); ("path"%string, PyStr "a.json");
      ("title"%string, PyStr ""); ("snippet"%string, PyStr "the quick brown fox") ] ].

Definition two_convs : gen :=
  G_yield (conv "A" "hello") (G_yield (conv "B" "world") G_return).

(** Three conversations, the last with the content of the second. *)
Definition three_convs : gen :=
  G_yield (conv "A" "hello")
          (G_yield (conv "B" "world") (G_yield (conv "C" "world") G_return)).


(** ** Further notions on stores and queries *)

(** The keys a sequence of mutations upserts. *)
Definition upserted_keys (ms : list mutation) : list (string * string) :=
  flat_map (fun m => match m with
                     | M_upsert src pth _ _ _ _ => [(src, pth)]
                     | M_delete _ => []
                     end) ms.

Definition only_upserts (ms : list mutation) : bool :=
  forallb (fun m => match m with M_upsert _ _ _ _ _ _ => true | M_delete _ => false end) ms.







Definition is_alnum (c : ascii) : bool := is_lower c || is_upper c || is_digit c.

(** A non-empty string of ASCII letters and digits, in either case. *)
Definition is_alnum_word (w : string) : bool :=
  match w with
  | EmptyString => false
  | _ => forallb is_alnum (list_ascii_of_string w)
  end.

(** One of the three operator keywords. *)
Definition is_keyword (w : string) : bool :=
  String.eqb w "AND" || String.eqb w "OR" || String.eqb w "NOT".

(** Only blanks, if anything. *)
Definition is_blank (q : string) : bool := forallb is_space (list_ascii_of_string q).

(** ** The upserts of a batch *)

(** The dicts the loop body upserts for a path when no adapter raises:
    those of the adapters its name selects, the HTML one first. *)
Definition entry_docs (e : entry) : list docdict :=
  if e_is_file e then
    (if is_html e then yielded (e_html e) else [])
    ++ (if is_conversations_json e then yielded (e_json e) else [])
  else [].

(** The upserts of a listing, in order: path and dict. *)
Definition batch_docs (es : list entry) : list (string * docdict) :=
  flat_map (fun e => List.map (pair (e_path e)) (entry_docs e)) es.

Section Batch.
Context `{Env}.

(** A sequence of upserts under one source, the [k]-th of them at clock
    tick [n + k]. *)
Fixpoint upsert_batch (clock : nat -> string) (src : string) (d : db)
                      (l : list (string * docdict)) (n : nat) : db :=
  match l with
  | [] => d
  | (pth, doc) :: l' =>
      upsert_batch clock src
        (snd (upsert_db d src pth (dd_title doc) (dd_created_at doc)
                        (or_empty (dd_content doc)) (clock n)))
        l' (S n)
  end.

End Batch.

(** ** Python text

    The adapters work on [str] values with [strip], [join] and two regular
    expressions.  A [str] is its UTF-8 bytes here, so a character is one to
    four bytes. *)

Definition byte (c : ascii) : Z := Z.of_N (N_of_ascii c).

Definition newline : ascii := "010"%char.

(** The encodings of the characters [str.isspace] holds of, which are also
    those [\s] matches: U+0009 to U+000D, U+001C to U+0020, U+0085, U+00A0,
    U+1680, U+2000 to U+200A, U+2028, U+2029, U+202F, U+205F, U+3000. *)
Definition py_space (w : list ascii) : bool :=
  match List.map byte w with
  | [a] => ((9 <=? a) && (a <=? 13)) || ((28 <=? a) && (a <=? 32))
  | [a; b] => (a =? 194) && ((b =? 133) || (b =? 160))
  | [a; b; c] =>
      ((a =? 225) && (b =? 154) && (c =? 128))
      || ((a =? 226) && (b =? 128)
          && (((128 <=? c) && (c <=? 138)) || (c =? 168) || (c =? 169) || (c =? 175)))
      || ((a =? 226) && (b =? 129) && (c =? 159))
      || ((a =? 227) && (b =? 128) && (c =? 128))
  | _ => false
  end.

(** The number of bytes of the blank a text starts with, 0 when it starts
    with none.  [rd] is the identity; read from the end of a text, on its
    reversed bytes, [rd] is [rev]. *)
Definition blank_len (rd : list ascii -> list ascii) (s : list ascii) : nat :=
  if py_space (rd (firstn 1 s)) then 1
  else if py_space (rd (firstn 2 s)) then 2
  else if py_space (rd (firstn 3 s)) then 3
  else 0.

Fixpoint drop_blanks (rd : list ascii -> list ascii) (fuel : nat) (s : list ascii)
  : list ascii :=
  match fuel with
  | O => s
  | S fuel' =>
      match blank_len rd s with
      | O => s
      | k => drop_blanks rd fuel' (skipn k s)
      end
  end.

Definition lstrip_bytes (s : list ascii) : list ascii := drop_blanks (fun w => w) (length s) s.

Definition rstrip_bytes (s : list ascii) : list ascii :=
  List.rev (drop_blanks (@List.rev ascii) (length s) (List.rev s)).

(** [s.strip()] *)
Definition strip (s : string) : string :=
  string_of_list_ascii (rstrip_bytes (lstrip_bytes (list_ascii_of_string s))).

(** [sep.join(parts)] *)
Fixpoint join (sep : string) (parts : list string) : string :=
  match parts with
  | [] => EmptyString
  | [p] => p
  | p :: rest => String.append p (String.append sep (join sep rest))
  end.

(** ** Regular expressions

    The two patterns of the source use literals, [\s], [.], [^] and [$]
    under [re.MULTILINE], greedy repetition and one group.  The matcher is
    a backtracking one, as Python's: [re_alts] lists the ways an expression
    can match at a cursor in the order Python tries them, a greedy
    repetition trying one more round before it stops.  (The expressions
    repeated in the source consume at least one character a round; the
    matcher does not look for rounds that consume none.) *)

Inductive regex : Type :=
| R_char (c : ascii)                 (* a literal ASCII character *)
| R_space                            (* \s *)
| R_any                              (* . : any character but the newline *)
| R_bol                              (* ^ under MULTILINE *)
| R_eol                              (* $ under MULTILINE *)
| R_seq (r1 r2 : regex)
| R_many (min : nat) (r : regex)     (* r{min,}, greedy; + is {1,} *)
| R_group (r : regex).               (* ( r ), the first group *)

(** A cursor in the text: whether it stands at the start of a line, what
    follows it, and the text of the group once it has matched. *)
Record cursor : Type := {
  cur_bol : bool;
  cur_rest : list ascii;
  cur_group : option (list ascii)
}.

Definition is_cont (c : ascii) : bool := (128 <=? byte c) && (byte c <? 192).

(** The number of bytes that follow a leading byte in its character. *)
Definition lead_extra (c : ascii) : nat :=
  if byte c <? 192 then 0%nat
  else if byte c <? 224 then 1%nat
  else if byte c <? 240 then 2%nat
  else 3%nat.

Fixpoint take_cont (k : nat) (s : list ascii) : nat :=
  match k, s with
  | S k', c :: t => if is_cont c then S (take_cont k' t) else O
  | _, _ => O
  end.

(** The number of bytes of the character a text starts with. *)
Definition char_len (s : list ascii) : nat :=
  match s with
  | [] => O
  | c :: t => S (take_cont (lead_extra c) t)
  end.

(** The cursor after [k] bytes. *)
Definition advance (k : nat) (s : cursor) : cursor :=
  {| cur_bol := Ascii.eqb (List.last (firstn k (cur_rest s)) "000"%char) newline;
     cur_rest := skipn k (cur_rest s);
     cur_group := cur_group s |}.

(** The rounds of a greedy repetition: one more round is tried before the
    repetition stops; it may stop once [min] rounds are done. *)
Fixpoint rounds (alts : cursor -> list cursor) (fuel min : nat) (s : cursor)
  : list cursor :=
  match fuel with
  | O => []
  | S fuel' =>
      flat_map (rounds alts fuel' (Nat.pred min)) (alts s)
      ++ match min with O => [s] | S _ => [] end
  end.

Fixpoint re_alts (r : regex) (s : cursor) : list cursor :=
  match r with
  | R_char c =>
      match cur_rest s with
      | a :: _ => if Ascii.eqb a c then [advance 1 s] else []
      | [] => []
      end
  | R_space =>
      match blank_len (fun w => w) (cur_rest s) with
      | O => []
      | k => [advance k s]
      end
  | R_any =>
      match cur_rest s with
      | a :: _ => if Ascii.eqb a newline then [] else [advance (char_len (cur_rest s)) s]
      | [] => []
      end
  | R_bol => if cur_bol s then [s] else []
  | R_eol =>
      match cur_rest s with
      | [] => [s]
      | a :: _ => if Ascii.eqb a newline then [s] else []
      end
  | R_seq r1 r2 => flat_map (re_alts r2) (re_alts r1 s)
  | R_many min r' => rounds (re_alts r') (S (length (cur_rest s))) min s
  | R_group r' =>
      List.map
        (fun s' =>
           {| cur_bol := cur_bol s'; cur_rest := cur_rest s';
              cur_group := Some (firstn (length (cur_rest s) - length (cur_rest s'))
                                        (cur_rest s)) |})
        (re_alts r' s)
  end.

(** A match: the text before it, the text matched, the text after it and
    the group. *)
Record re_match : Type := {
  m_before : list ascii;
  m_text : list ascii;
  m_after : list ascii;
  m_group : option (list ascii)
}.

(** The match at a cursor, if there is one: the first alternative. *)
Definition match_at (r : regex) (before : list ascii) (s : cursor) : option re_match :=
  match re_alts r s with
  | s' :: _ =>
      Some {| m_before := before;
              m_text := firstn (length (cur_rest s) - length (cur_rest s')) (cur_rest s);
              m_after := cur_rest s';
              m_group := cur_group s' |}
  | [] => None
  end.

(** The leftmost match from a cursor on; [before] is the text passed,
    reversed. *)
Fixpoint search_from (r : regex) (fuel : nat) (before : list ascii) (s : cursor)
  : option re_match :=
  match match_at r (List.rev before) s with
  | Some m => Some m
  | None =>
      match fuel with
      | O => None
      | S fuel' =>
          match char_len (cur_rest s) with
          | O => None
          | k => search_from r fuel'
                   (List.rev (firstn k (cur_rest s)) ++ before) (advance k s)
          end
      end
  end.

Definition start_cursor (text : list ascii) : cursor :=
  {| cur_bol := true; cur_rest := text; cur_group := None |}.

(** [re.search(r, text, flags=re.MULTILINE)] *)
Definition re_search (r : regex) (text : string) : option re_match :=
  let t := list_ascii_of_string text in
  search_from r (length t) [] (start_cursor t).

(** [re.sub(r, repl, text)] for an expression that matches no empty text:
    the matches, leftmost first and not overlapping, are replaced. *)
Fixpoint sub_from (r : regex) (repl : list ascii) (fuel : nat) (s : cursor) : list ascii :=
  match fuel with
  | O => cur_rest s
  | S fuel' =>
      match match_at r [] s with
      | Some m => repl ++ sub_from r repl fuel' (advance (length (m_text m)) s)
      | None =>
          match char_len (cur_rest s) with
          | O => []
          | k => firstn k (cur_rest s) ++ sub_from r repl fuel' (advance k s)
          end
      end
  end.

Definition re_sub (r : regex) (repl text : string) : string :=
  let t := list_ascii_of_string text in
  string_of_list_ascii (sub_from r (list_ascii_of_string repl) (length t) (start_cursor t)).

(** [x or dflt] for a string that may be [None] *)
Definition str_or (v : option string) (dflt : string) : string :=
  match v with
  | Some EmptyString | None => dflt
  | Some s => s
  end.

(** ** The adapters for HTML and Markdown *)

(** The pattern of the first heading, [^#\s+(.+)$]. *)
Definition heading_re : regex :=
  R_seq R_bol
    (R_seq (R_char "#")
       (R_seq (R_many 1 R_space) (R_seq (R_group (R_many 1 R_any)) R_eol))).

(** The pattern of three newlines or more, [\n{3,}]. *)
Definition blank_lines_re : regex := R_many 3 (R_char newline).

Definition two_newlines : string := String newline (String newline EmptyString).

(** [m.group(1)] *)
Definition group1 (m : re_match) : string :=
  string_of_list_ascii (match m_group m with Some g => g | None => [] end).

(** [ingest_chatgpt_html].  [name] is [path.name]; [soup_text] is what
    [soup.get_text] gave for the file, [None] when reading or parsing it
    raised. *)
Definition ingest_chatgpt_html (name : string) (soup_text : option string) : gen :=
  match soup_text with
  | None => G_raise
  | Some text =>
      let text := strip (re_sub blank_lines_re two_newlines text) in
      G_yield {| dd_title := Some (String.append "ChatGPT export: " name);
                 dd_created_at := None;
                 dd_content := Some text |}
              G_return
  end.

(** [ingest_perplexity_markdown].  [text] is what [read_text] gave. *)
Definition ingest_perplexity_markdown (name text : string) : docdict :=
  let title :=
    match re_search heading_re text with
    | Some m => Some (strip (group1 m))
    | None => None
    end in
  {| dd_title := Some (str_or title (String.append "Perplexity export: " name));
     dd_created_at := None;
     dd_content := Some (strip text) |}.

(** ** [ingest_perplexity] *)

(** A path under [vault/perplexity]. *)
Record pfile : Type := {
  pf_path : string;             (* str(p) *)
  pf_name : string;             (* p.name *)
  pf_is_file : bool;            (* p.is_file() *)
  pf_text : option string       (* p.read_text(...), None when it raises *)
}.

(** [name.rfind('.')] *)
Fixpoint rfind_dot (s : list ascii) (i : nat) (found : option nat) : option nat :=
  match s with
  | [] => found
  | c :: t => rfind_dot t (S i) (if Ascii.eqb c "."%char then Some i else found)
  end.

(** [p.suffix]: the name from its last dot on, when that dot is neither the
    first nor the last character. *)
Definition path_suffix (name : string) : string :=
  let l := list_ascii_of_string name in
  match rfind_dot l 0 None with
  | Some i =>
      if ((0 <? i) && (i <? length l - 1))%nat then string_of_list_ascii (skipn i l)
      else EmptyString
  | None => EmptyString
  end.

(** [p.suffix.lower() in {".md", ".txt"}] *)
Definition is_markdown (f : pfile) : bool :=
  let sfx := lower_string (path_suffix (pf_name f)) in
  String.eqb sfx ".md" || String.eqb sfx ".txt".

Section Perplexity.
Context `{Env}.
Variable clock : nat -> string.

Fixpoint perplexity_loop (c : conn) (fs : list pfile) (n : nat)
  : conn * nat * option exn :=
  match fs with
  | [] => (c, n, None)
  | f :: fs' =>
      if negb (pf_is_file f) then perplexity_loop c fs' n
      else if is_markdown f then
        match pf_text f with
        | None => (c, n, Some ProducerError)
        | Some text =>
            let doc := ingest_perplexity_markdown (pf_name f) text in
            match upsert_doc c "perplexity" (pf_path f) (dd_title doc) (dd_created_at doc)
                             (or_empty (dd_content doc)) (clock n) with
            | Raise e => (c, n, Some e)
            | Ok (_, c') => perplexity_loop c' fs' (S n)
            end
        end
      else perplexity_loop c fs' n
  end.

(** [ingest_perplexity]; [base] is [None] when [vault/perplexity] does not
    exist, else what [rglob] lists. *)
Definition ingest_perplexity (c : conn) (base : option (list pfile)) : conn * result nat :=
  match base with
  | None => (c, Ok 0%nat)
  | Some fs =>
      match perplexity_loop c fs 0 with
      | (c', n, None) => (commit c', Ok n)
      | (c', _, Some x) => (c', Raise x)
      end
  end.

End Perplexity.

(** ** [main] *)

(** [_db]: the directory is made, the file opened; the two PRAGMAs change
    nothing of what the tables hold. *)
Definition _db (file : option db) : conn := connect file.

Section Main.
Context `{Env}.

(** [main] of [build_index]: the connection as the run leaves it, and the
    two counts it prints ([None] under [--init-only]) or the exception.
    [clock1] and [clock2] are the clocks of the two batches. *)
Definition main (clock1 clock2 : nat -> string) (file : option db) (init_only : bool)
    (chatgpt : option (list entry)) (perplexity : option (list pfile))
  : conn * result (option (nat * nat)) :=
  let conn := init_schema (_db file) in
  if init_only then (conn, Ok None)
  else
    match ingest_chatgpt clock1 conn chatgpt with
    | (c1, Raise x) => (c1, Raise x)
    | (c1, Ok n1) =>
        match ingest_perplexity clock2 c1 perplexity with
        | (c2, Raise x) => (c2, Raise x)
        | (c2, Ok n2) => (c2, Ok (Some (n1, n2)))
        end
    end.

(** [main] of [run]: a search on a new connection to the file. *)
Definition run_main (file : option db) (query : string) (limit : Z)
  : result (list pydict) :=
  search (connect file) query limit.

End Main.

(** The files [ingest_perplexity] reads, with the dict of each. *)
Definition perplexity_docs (fs : list pfile) : list (string * docdict) :=
  flat_map (fun f =>
              if pf_is_file f && is_markdown f then
                match pf_text f with
                | Some text => [(pf_path f, ingest_perplexity_markdown (pf_name f) text)]
                | None => []
                end
              else []) fs.

(** A file of the listing that is read and cannot be. *)
Definition unreadable (f : pfile) : bool :=
  pf_is_file f && is_markdown f
  && match pf_text f with None => true | Some _ => false end.

(** *** Notions on texts *)

(** The text consists of blanks, if of anything. *)
Definition all_blanks (s : string) : bool :=
  match lstrip_bytes (list_ascii_of_string s) with [] => true | _ => false end.

(** The text starts with a blank. *)
Definition starts_blank (s : string) : bool :=
  negb (Nat.eqb (blank_len (fun w => w) (list_ascii_of_string s)) 0).

(** The text has no newline. *)
Definition one_line (s : string) : bool :=
  forallb (fun c => negb (Ascii.eqb c newline)) (list_ascii_of_string s).

(** What may follow a line: nothing, or a newline and more. *)
Definition line_end (s : string) : bool :=
  match s with
  | EmptyString => true
  | String c _ => Ascii.eqb c newline
  end.

(** Some line of the text starts with [#] and a blank after it; [bol]
    tells whether the text starts a line. *)
Fixpoint heading_mark (bol : bool) (s : list ascii) : bool :=
  match s with
  | [] => false
  | c :: t =>
      (bol && Ascii.eqb c "#"%char && negb (Nat.eqb (blank_len (fun w => w) t) 0))
      || heading_mark (Ascii.eqb c newline) t
  end.

Definition three_newlines : string :=
  String newline (String newline (String newline EmptyString)).

(** The number of newlines a text starts with, and the longest run of
    newlines in it. *)
Fixpoint nl_run (s : list ascii) : nat :=
  match s with
  | c :: t => if Ascii.eqb c newline then S (nl_run t) else O
  | [] => O
  end.

Fixpoint max_nl_run (s : list ascii) : nat :=
  match s with
  | [] => O
  | _ :: t => Nat.max (nl_run s) (max_nl_run t)
  end.

(** ** The adapter for conversations JSON

    [ingest_chatgpt_conversations_json] works on what [json.loads] gave:
    [None], booleans, integers, floats, strings, lists and dicts.  A float
    is kept by its [repr]; a dict lists its keys in insertion order, each
    once.  An attribute a value does not have ([get], [items], [strip]) is
    an [AttributeError]: the functions below return [None] for it. *)

#[warnings="-register-all"]
Inductive json : Type :=
| J_null
| J_bool (b : bool)
| J_int (n : Z)
| J_float (repr : string)
| J_str (s : string)
| J_list (l : list json)
| J_dict (kv : list (string * json)).

(** What the adapter takes from libraries. *)
Class PyLib : Type := {
  (** [datetime.fromtimestamp(x, tz=utc).isoformat()], [None] when it raises *)
  utc_isoformat : json -> option string;
  (** [dateutil.parser.parse(s).astimezone(utc).isoformat()], [None] when
      it raises *)
  dateutil_isoformat : string -> option string;
  (** [str(x)] of a list or a dict *)
  py_repr : json -> string
}.

(** [bool(v)] *)
Definition truthy (v : json) : bool :=
  match v with
  | J_null => false
  | J_bool b => b
  | J_int n => negb (n =? 0)
  | J_float r => negb (String.eqb r "0.0" || String.eqb r "-0.0")
  | J_str s => negb (String.eqb s "")
  | J_list l => match l with [] => false | _ => true end
  | J_dict kv => match kv with [] => false | _ => true end
  end.

(** [a or b] *)
Definition py_or (a b : json) : json := if truthy a then a else b.

Fixpoint assoc (kv : list (string * json)) (key : string) : option json :=
  match kv with
  | [] => None
  | (k, v) :: kv' => if String.eqb k key then Some v else assoc kv' key
  end.

(** [v.get(key)] *)
Definition py_get (v : json) (key : string) : option json :=
  match v with
  | J_dict kv => Some (match assoc kv key with Some x => x | None => J_null end)
  | _ => None
  end.

(** [v.items()] *)
Definition py_items (v : json) : option (list (string * json)) :=
  match v with J_dict kv => Some kv | _ => None end.

(** [v.strip()] *)
Definition py_strip (v : json) : option string :=
  match v with J_str s => Some (strip s) | _ => None end.

Definition empty_dict : json := J_dict [].

Definition newline_s : string := String newline EmptyString.

Section Conversations.
Context `{PyLib}.

(** [str(v)] *)
Definition py_str (v : json) : string :=
  match v with
  | J_null => "None"
  | J_bool true => "True"
  | J_bool false => "False"
  | J_int n => DecimalString.NilZero.string_of_int (Z.to_int n)
  | J_float r => r
  | J_str s => s
  | J_list _ | J_dict _ => py_repr v
  end.

(** The body of the loop over [mapping.items()] for one node: the line it
    appends, if it appends one. *)
Definition node_line (node : json) : option (option string) :=
  m0 ← py_get (py_or node empty_dict) "message";
  let msg := py_or m0 empty_dict in
  if negb (truthy msg) then Some None
  else
    a ← py_get msg "author";
    r ← py_get (py_or a empty_dict) "role";
    role0 ← py_strip (py_or r (J_str ""));
    let role := str_or (Some role0) "unknown" in
    c0 ← py_get msg "content";
    content ← py_get (py_or c0 empty_dict) "parts";
    let body :=
      strip (match content with
             | J_list ps => join newline_s (List.map py_str ps)
             | J_null => EmptyString
             | _ => py_str content
             end) in
    Some (match body with
          | EmptyString => None
          | _ => Some (String.append "[" (String.append role (String.append "] " body)))
          end).

(** The dict the adapter yields for a conversation. *)
Record convdoc : Type := {
  cd_title : json;
  cd_created_at : option string;
  cd_content : string
}.

(** [created_at] from [created]: the timestamp, else the date in words,
    else nothing. *)
Definition created_iso (created : json) : option string :=
  match created with
  | J_null => None
  | _ =>
      match utc_isoformat created with
      | Some s => Some s
      | None => dateutil_isoformat (py_str created)
      end
  end.

(** The body of the loop over the conversations, up to its [yield]. *)
Definition conversation_doc (c : json) : option convdoc :=
  t ← py_get c "title";
  ct ← py_get c "create_time";
  created ← (if truthy ct then Some ct else py_get c "created_at");
  mp ← py_get c "mapping";
  nodes ← py_items (py_or mp empty_dict);
  lines ← mapM node_line (List.map snd nodes);
  Some {| cd_title := py_or t (J_str "ChatGPT conversation");
          cd_created_at := created_iso created;
          cd_content := strip (join (String.append newline_s newline_s)
                                    (omap (fun l => l) lines)) |}.

(** A run of the adapter: dicts yielded, then a return or an exception. *)
Inductive conv_gen : Type :=
| CG_yield (d : convdoc) (rest : conv_gen)
| CG_return
| CG_raise.

Fixpoint conversations_run (convs : list json) : conv_gen :=
  match convs with
  | [] => CG_return
  | c :: rest =>
      match conversation_doc c with
      | Some d => CG_yield d (conversations_run rest)
      | None => CG_raise
      end
  end.

(** [ingest_chatgpt_conversations_json]; [data] is what [json.loads] gave
    for the file, [None] when reading or parsing it raised. *)
Definition ingest_chatgpt_conversations_json (data : option json) : conv_gen :=
  match data with
  | None => CG_raise
  | Some data =>
      let convs :=
        match data with
        | J_dict kv =>
            match assoc kv "conversations" with
            | Some v => v
            | None => data
            end
        | _ => data
        end in
      match convs with
      | J_list l => conversations_run l
      | _ => CG_return
      end
  end.

(** What the driver takes from a dict whose title is a string. *)
Definition docdict_of (d : convdoc) : option docdict :=
  match cd_title d with
  | J_str s => Some {| dd_title := Some s; dd_created_at := cd_created_at d;
                       dd_content := Some (cd_content d) |}
  | _ => None
  end.

(** The run as the driver sees it, when every title is a string. *)
Fixpoint gen_of (g : conv_gen) : option gen :=
  match g with
  | CG_yield d rest =>
      d' ← docdict_of d; rest' ← gen_of rest; Some (G_yield d' rest')
  | CG_return => Some G_return
  | CG_raise => Some G_raise
  end.

Fixpoint conv_yielded (g : conv_gen) : list convdoc :=
  match g with CG_yield d g' => d :: conv_yielded g' | _ => [] end.

End Conversations.

Definition is_dict (v : json) : bool :=
  match v with J_dict _ => true | _ => false end.

(** The list of conversations of a file, when it has one: the top level,
    or what stands under [conversations] in a top-level dict. *)
Definition conversations_of (data : json) : option (list json) :=
  match data with
  | J_list l => Some l
  | J_dict kv =>
      match assoc kv "conversations" with
      | Some (J_list l) => Some l
      | _ => None
      end
  | _ => None
  end.

Fixpoint conv_raises (g : conv_gen) : bool :=
  match g with CG_yield _ g' => conv_raises g' | CG_return => false | CG_raise => true end.

(** A conversation without messages: a dict whose [mapping] is absent,
    null or empty. *)
Definition no_messages (c : json) : bool :=
  match c with
  | J_dict kv =>
      negb (truthy (match assoc kv "mapping" with Some v => v | None => J_null end))
  | _ => false
  end.

(** The title of a conversation, when it is a string or the default. *)
Definition title_text (c : json) : option string :=
  match py_get c "title" with
  | Some t =>
      match py_or t (J_str "ChatGPT conversation") with
      | J_str s => Some s
      | _ => None
      end
  | None => None
  end.

(** ** Concrete data for the adapters *)

(** Library functions for runs of the model: no date is read, a list or
    dict prints as nothing. *)
Definition test_pylib : PyLib :=
  {| utc_isoformat := fun _ => None;
     dateutil_isoformat := fun _ => None;
     py_repr := fun _ => EmptyString |}.

(** An HTML export, with the text the parser gave. *)
Definition html_entry (pth name soup_text : string) : entry :=
  {| e_path := pth; e_name := name; e_is_file := true;
     e_html := ingest_chatgpt_html name (Some soup_text);
     e_json := G_raise |}.

Definition html_vault : list entry :=
  [ html_entry "vault/chatgpt/a.html" "a.html"
               (String.append "Hello" (String.append three_newlines "world"));
    html_entry "vault/chatgpt/b.HTML" "b.HTML" "  second page  " ].

Definition md_file (pth name text : string) : pfile :=
  {| pf_path := pth; pf_name := name; pf_is_file := true; pf_text := Some text |}.

Definition md_vault : list pfile :=
  [ md_file "vault/perplexity/q.md" "q.md"
            (String.append "# Title" (String.append newline_s "body"));
    md_file "vault/perplexity/notes.TXT" "notes.TXT" "plain notes";
    md_file "vault/perplexity/.md" ".md" "hidden" ].

(** A Markdown file that cannot be read. *)
Definition locked_file : pfile :=
  {| pf_path := "vault/perplexity/locked.md"; pf_name := "locked.md";
     pf_is_file := true; pf_text := None |}.

(** Two conversations without messages, and a list with an element that
    is no dict. *)
Definition bare_conv (ttl : string) : json := J_dict [("title"%string, J_str ttl)].

Definition broken_list : list json := [bare_conv "A"; J_str "oops"; bare_conv "C"].


(** * Part II: properties *)

(** * Properties of the store *)

Section StoreFacts.
Context `{Env}.

Lemma fts_index_eq (a c : fts_index) :
  ix_postings a = ix_postings c -> ix_docsize a = ix_docsize c ->
  ix_nrow a = ix_nrow c -> ix_ntoken a = ix_ntoken c -> a = c.
Proof. destruct a, c; simpl; intros; subst; reflexivity. Qed.

(** ** [sql_update] and [sql_delete] on a table with distinct ids *)

Lemma sql_update_free ds ix rid ttl crt cnt sha now :
  free_of rid ds -> sql_update ds ix rid ttl crt cnt sha now = (ds, ix).
Proof.
  induction 1 as [|d ds Hd _ IH]; simpl; [reflexivity|].
  destruct (Z.eqb_spec (doc_id d) rid); [contradiction|].
  rewrite IH. reflexivity.
Qed.

Lemma sql_update_split l1 r l2 ix ttl crt cnt sha now :
  free_of (doc_id r) l1 -> free_of (doc_id r) l2 ->
  sql_update (l1 ++ r :: l2) ix (doc_id r) ttl crt cnt sha now
  = (l1 ++ set_fields r ttl crt cnt sha now :: l2,
     docs_au ix r (set_fields r ttl crt cnt sha now)).
Proof.
  intros H1 H2. induction H1 as [|d l1 Hd _ IH]; simpl.
  - rewrite Z.eqb_refl. rewrite (sql_update_free l2) by assumption. reflexivity.
  - destruct (Z.eqb_spec (doc_id d) (doc_id r)); [contradiction|].
    rewrite IH. reflexivity.
Qed.

Lemma sql_delete_free ds ix rid : free_of rid ds -> sql_delete ds ix rid = (ds, ix).
Proof.
  induction 1 as [|d ds Hd _ IH]; simpl; [reflexivity|].
  destruct (Z.eqb_spec (doc_id d) rid); [contradiction|].
  rewrite IH. reflexivity.
Qed.

Lemma sql_delete_split l1 r l2 ix :
  free_of (doc_id r) l1 -> free_of (doc_id r) l2 ->
  sql_delete (l1 ++ r :: l2) ix (doc_id r) = (l1 ++ l2, docs_ad ix r).
Proof.
  intros H1 H2. induction H1 as [|d l1 Hd _ IH]; simpl.
  - rewrite Z.eqb_refl. apply sql_delete_free; assumption.
  - destruct (Z.eqb_spec (doc_id d) (doc_id r)); [contradiction|].
    rewrite IH. reflexivity.
Qed.

(** A table with distinct ids splits around the row of an id. *)
Lemma split_by_id (ds : list doc) (rid : Z) :
  List.NoDup (List.map doc_id ds) ->
  free_of rid ds \/
  exists l1 r l2, ds = l1 ++ r :: l2 /\ doc_id r = rid /\ free_of rid l1 /\ free_of rid l2.
Proof.
  induction ds as [|d ds IH]; intros Hnd; [left; constructor|].
  simpl in Hnd. apply List.NoDup_cons_iff in Hnd as [Hnotin Hnd].
  destruct (Z.eq_dec (doc_id d) rid) as [Heq|Hne].
  - right. exists [], d, ds. repeat split; [assumption|constructor|].
    apply List.Forall_forall. intros x Hx Hxe. apply Hnotin.
    rewrite Heq, <- Hxe. apply List.in_map. assumption.
  - destruct (IH Hnd) as [Hfree|(l1 & r & l2 & -> & Hr & H1 & H2)].
    + left. constructor; assumption.
    + right. exists (d :: l1), r, l2. repeat split; try assumption.
      constructor; assumption.
Qed.

Lemma find_split (f : doc -> bool) (ds : list doc) (r : doc) :
  List.find f ds = Some r ->
  exists l1 l2, ds = l1 ++ r :: l2 /\ f r = true /\ Forall (fun d => f d = false) l1.
Proof.
  induction ds as [|d ds IH]; simpl; [discriminate|].
  destruct (f d) eqn:Hf.
  - intros [= ->]. exists [], ds. repeat split; [assumption|constructor].
  - intros Hfind. destruct (IH Hfind) as (l1 & l2 & -> & Hr & Hl1).
    exists (d :: l1), l2. repeat split; [assumption|]. constructor; assumption.
Qed.

Lemma find_none_forall (f : doc -> bool) (ds : list doc) :
  List.find f ds = None -> Forall (fun d => f d = false) ds.
Proof.
  induction ds as [|d ds IH]; simpl; [constructor|].
  destruct (f d) eqn:Hf; [discriminate|]. intros Hn. constructor; auto.
Qed.

Lemma nodup_ids_split l1 (r : doc) l2 :
  List.NoDup (List.map doc_id (l1 ++ r :: l2)) ->
  free_of (doc_id r) l1 /\ free_of (doc_id r) l2.
Proof.
  rewrite List.map_app. simpl. intros Hnd.
  apply List.NoDup_remove_2 in Hnd.
  split; apply List.Forall_forall; intros x Hx Hxe; apply Hnd;
    rewrite List.in_app_iff; [left|right]; rewrite <- Hxe; apply List.in_map; assumption.
Qed.

(** ** The index built from a table *)

Lemma fold_ai_postings ds ix :
  ix_postings (fold_left docs_ai ds ix) = ix_postings ix ⊎ postings_of ds.
Proof.
  revert ix. induction ds as [|d ds IH]; intros ix; simpl.
  - multiset_solver.
  - rewrite IH. simpl. multiset_solver.
Qed.

Lemma fold_ai_nrow ds ix :
  ix_nrow (fold_left docs_ai ds ix) = ix_nrow ix + Z.of_nat (length ds).
Proof.
  revert ix. induction ds as [|d ds IH]; intros ix; simpl length.
  - simpl. lia.
  - simpl fold_left. rewrite IH. simpl. lia.
Qed.

Lemma fold_ai_ntoken ds ix :
  ix_ntoken (fold_left docs_ai ds ix) = ix_ntoken ix + tokens_of ds.
Proof.
  revert ix. induction ds as [|d ds IH]; intros ix; simpl.
  - lia.
  - rewrite IH. simpl. lia.
Qed.

Lemma fold_ai_docsize_notin ds ix (k : Z) :
  ~ List.In k (List.map doc_id ds) ->
  ix_docsize (fold_left docs_ai ds ix) !! k = ix_docsize ix !! k.
Proof.
  revert ix. induction ds as [|d ds IH]; intros ix Hk; simpl in *; [reflexivity|].
  rewrite IH by tauto. simpl. apply lookup_insert_ne. tauto.
Qed.

Lemma fold_ai_docsize_in ds ix (r : doc) :
  List.NoDup (List.map doc_id ds) -> List.In r ds ->
  ix_docsize (fold_left docs_ai ds ix) !! doc_id r = Some (doc_sizes r).
Proof.
  revert ix. induction ds as [|d ds IH]; intros ix Hnd Hin; simpl in *; [contradiction|].
  apply List.NoDup_cons_iff in Hnd as [Hnotin Hnd].
  destruct Hin as [->|Hin].
  - rewrite fold_ai_docsize_notin by assumption. simpl. apply lookup_insert_eq.
  - apply IH; assumption.
Qed.

Lemma tokens_of_app l1 l2 : tokens_of (l1 ++ l2) = tokens_of l1 + tokens_of l2.
Proof. induction l1 as [|d l1 IH]; simpl; lia. Qed.

Lemma postings_of_app l1 l2 : postings_of (l1 ++ l2) = postings_of l1 ⊎ postings_of l2.
Proof. induction l1 as [|d l1 IH]; simpl; [|rewrite IH]; multiset_solver. Qed.

Lemma build_insert ds r : docs_ai (build_fts ds) r = build_fts (ds ++ [r]).
Proof. unfold build_fts. rewrite fold_left_app. reflexivity. Qed.

Lemma in_ids_dec (k : Z) (ds : list doc) :
  {r | List.In r ds /\ doc_id r = k} + {~ List.In k (List.map doc_id ds)}.
Proof.
  induction ds as [|d ds [(r & Hr & Hk)|Hn]].
  - right. simpl. tauto.
  - left. exists r. split; [right; assumption|assumption].
  - destruct (Z.eq_dec (doc_id d) k) as [Heq|Hne].
    + left. exists d. split; [left; reflexivity|assumption].
    + right. simpl. tauto.
Qed.

Lemma build_update l1 r r' l2 :
  List.NoDup (List.map doc_id (l1 ++ r :: l2)) -> doc_id r' = doc_id r ->
  docs_au (build_fts (l1 ++ r :: l2)) r r' = build_fts (l1 ++ r' :: l2).
Proof.
  intros Hnd Hid.
  assert (Hnd' : List.NoDup (List.map doc_id (l1 ++ r' :: l2))).
  { rewrite List.map_app in *. simpl in *. rewrite Hid. assumption. }
  unfold docs_au, build_fts. apply fts_index_eq; simpl.
  - rewrite !fold_ai_postings, !postings_of_app. simpl. rewrite Hid. multiset_solver.
  - apply map_eq. intros k. rewrite Hid.
    destruct (Z.eq_dec k (doc_id r)) as [->|Hne].
    + rewrite lookup_insert_eq. rewrite <- Hid.
      symmetry. apply fold_ai_docsize_in; [assumption|].
      apply List.in_app_iff. right. left. reflexivity.
    + rewrite lookup_insert_ne by congruence. rewrite lookup_delete_ne by congruence.
      destruct (in_ids_dec k (l1 ++ l2)) as [(x & Hx & Hk)|Hn].
      * subst k. rewrite !fold_ai_docsize_in; try assumption; try reflexivity.
        all: apply List.in_app_iff; apply List.in_app_iff in Hx; destruct Hx;
          [left; assumption|right; right; assumption].
      * rewrite !fold_ai_docsize_notin; [reflexivity| |].
        all: rewrite List.map_app in *; simpl; rewrite List.in_app_iff in *; simpl;
          intros [?|[?|?]]; try congruence; apply Hn; tauto.
  - rewrite !fold_ai_nrow, !List.length_app. simpl. lia.
  - rewrite !fold_ai_ntoken, !tokens_of_app. simpl. lia.
Qed.

Lemma build_delete l1 r l2 :
  List.NoDup (List.map doc_id (l1 ++ r :: l2)) ->
  docs_ad (build_fts (l1 ++ r :: l2)) r = build_fts (l1 ++ l2).
Proof.
  intros Hnd.
  assert (Hnd' : List.NoDup (List.map doc_id (l1 ++ l2))).
  { rewrite List.map_app in *. simpl in Hnd. apply List.NoDup_remove_1 in Hnd. assumption. }
  assert (Hnotin : ~ List.In (doc_id r) (List.map doc_id (l1 ++ l2))).
  { rewrite List.map_app in *. simpl in Hnd. apply List.NoDup_remove_2 in Hnd. assumption. }
  unfold docs_ad, build_fts. apply fts_index_eq; simpl.
  - rewrite !fold_ai_postings, !postings_of_app. simpl. multiset_solver.
  - apply map_eq. intros k.
    destruct (Z.eq_dec k (doc_id r)) as [->|Hne].
    + rewrite lookup_delete_eq. symmetry.
      rewrite fold_ai_docsize_notin by assumption. reflexivity.
    + rewrite lookup_delete_ne by congruence.
      destruct (in_ids_dec k (l1 ++ l2)) as [(x & Hx & Hk)|Hn].
      * subst k. rewrite !fold_ai_docsize_in; try assumption; try reflexivity.
        apply List.in_app_iff; apply List.in_app_iff in Hx; destruct Hx;
          [left; assumption|right; right; assumption].
      * rewrite !fold_ai_docsize_notin; [reflexivity|assumption|].
        rewrite List.map_app in *; simpl; rewrite List.in_app_iff in *; simpl;
          intros [?|[?|?]]; try congruence; apply Hn; tauto.
  - rewrite !fold_ai_nrow, !List.length_app. simpl. lia.
  - rewrite !fold_ai_ntoken, !tokens_of_app. simpl. lia.
Qed.

End StoreFacts.

Section UpsertFacts.
Context `{Env}.

Lemma next_rowid_gt (ds : list doc) : Forall (fun r => doc_id r < next_rowid ds) ds.
Proof.
  unfold next_rowid. induction ds as [|d ds IH]; simpl; constructor.
  - lia.
  - eapply List.Forall_impl; [|exact IH]. simpl. intros a Ha. lia.
Qed.

Lemma next_rowid_pos (ds : list doc) : 0 < next_rowid ds.
Proof. unfold next_rowid. induction ds as [|d ds IH]; simpl in *; lia. Qed.

Lemma key_matches_iff src pth r :
  key_matches src pth r = true <-> doc_key r = (src, pth).
Proof.
  unfold key_matches, doc_key. rewrite andb_true_iff, !String.eqb_eq.
  split; [intros [-> ->]; reflexivity|intros [= -> ->]; auto].
Qed.

Lemma key_matches_false src pth r :
  key_matches src pth r = false <-> doc_key r <> (src, pth).
Proof.
  rewrite <- key_matches_iff. destruct (key_matches src pth r); split; congruence.
Qed.

Lemma sha_equal_iff (stored : option string) (sha : string) :
  sha_equal stored sha = true <-> stored = Some sha.
Proof.
  destruct stored as [s|]; simpl; [|split; discriminate].
  rewrite String.eqb_eq. split; congruence.
Qed.

(** The three paths of [upsert_db]. *)
Lemma upsert_created d src pth ttl crt cnt now :
  List.find (key_matches src pth) (docs d) = None ->
  upsert_db d src pth ttl crt cnt now
  = (Created, {| docs := docs d ++ [new_doc (docs d) src pth ttl crt cnt now];
                 docs_fts := docs_ai (docs_fts d) (new_doc (docs d) src pth ttl crt cnt now) |}).
Proof. intros Hf. unfold upsert_db, select_id_sha256. rewrite Hf. reflexivity. Qed.

Lemma upsert_unchanged d src pth ttl crt cnt now r :
  List.find (key_matches src pth) (docs d) = Some r ->
  doc_sha256 r = Some (_sha256 cnt) ->
  upsert_db d src pth ttl crt cnt now = (Unchanged, d).
Proof.
  intros Hf Hs. unfold upsert_db, select_id_sha256. rewrite Hf.
  apply sha_equal_iff in Hs. rewrite Hs. reflexivity.
Qed.

Lemma upsert_updated d src pth ttl crt cnt now l1 r l2 :
  docs d = l1 ++ r :: l2 ->
  List.NoDup (List.map doc_id (docs d)) ->
  List.find (key_matches src pth) (docs d) = Some r ->
  doc_sha256 r <> Some (_sha256 cnt) ->
  upsert_db d src pth ttl crt cnt now
  = (Updated, {| docs := l1 ++ set_fields r ttl crt cnt (_sha256 cnt) now :: l2;
                 docs_fts := docs_au (docs_fts d) r
                                     (set_fields r ttl crt cnt (_sha256 cnt) now) |}).
Proof.
  intros Hd Hnd Hf Hs. unfold upsert_db, select_id_sha256. rewrite Hf.
  destruct (sha_equal (doc_sha256 r) (_sha256 cnt)) eqn:He.
  { apply sha_equal_iff in He. contradiction. }
  rewrite Hd in *. destruct (nodup_ids_split _ _ _ Hnd) as [H1 H2].
  rewrite sql_update_split by assumption. reflexivity.
Qed.

Lemma split_unique (l1 k1 : list doc) (r : doc) (l2 k2 : list doc) :
  List.NoDup (List.map doc_id (l1 ++ r :: l2)) ->
  l1 ++ r :: l2 = k1 ++ r :: k2 -> k1 = l1.
Proof.
  revert k1. induction l1 as [|c l1 IH]; intros [|a k1] Hnd Heq; simpl in *.
  - reflexivity.
  - injection Heq as <- Heq. exfalso. apply List.NoDup_cons_iff in Hnd as [Hn _].
    apply Hn. rewrite Heq, List.map_app. apply List.in_app_iff. right. left. reflexivity.
  - injection Heq as -> Heq. exfalso. apply List.NoDup_cons_iff in Hnd as [Hn _].
    apply Hn. rewrite List.map_app. apply List.in_app_iff. right. left. reflexivity.
  - injection Heq as -> Heq. f_equal. apply List.NoDup_cons_iff in Hnd as [_ Hnd].
    apply IH; assumption.
Qed.

Lemma find_in_split (f : doc -> bool) l1 r l2 :
  List.NoDup (List.map doc_id (l1 ++ r :: l2)) ->
  List.find f (l1 ++ r :: l2) = Some r ->
  Forall (fun d => f d = false) l1.
Proof.
  intros Hnd Hf. destruct (find_split _ _ _ Hf) as (k1 & k2 & Heq & Hr & Hk1).
  rewrite <- (split_unique _ _ _ _ _ Hnd Heq). assumption.
Qed.

(** ** Well-formedness is kept *)

Lemma wf_nodup_ids d : wf_db d -> List.NoDup (List.map doc_id (docs d)).
Proof.
  intros [Hs _ _ _ _]. induction Hs as [|a l Hs IH Ha]; constructor; [|assumption].
  intros Hin. rewrite List.Forall_forall in Ha. specialize (Ha _ Hin). lia.
Qed.

Lemma wf_empty : wf_db empty_db.
Proof. split; simpl; constructor. Qed.

Lemma strongly_sorted_snoc (l : list Z) (x : Z) :
  StronglySorted Z.lt l -> Forall (fun y => y < x) l -> StronglySorted Z.lt (l ++ [x]).
Proof.
  induction 1 as [|a l Hs IH Ha]; intros Hx; simpl.
  - repeat constructor.
  - apply List.Forall_cons_iff in Hx as [Hax Hx]. constructor; [auto|].
    apply List.Forall_app. split; [assumption|repeat constructor; assumption].
Qed.

Lemma strongly_sorted_remove (l1 : list Z) (x : Z) l2 :
  StronglySorted Z.lt (l1 ++ x :: l2) -> StronglySorted Z.lt (l1 ++ l2).
Proof.
  induction l1 as [|a l1 IH]; simpl; intros Hs.
  - apply StronglySorted_inv in Hs. tauto.
  - apply StronglySorted_inv in Hs as [Hs Ha]. constructor; [auto|].
    rewrite List.Forall_app in *. destruct Ha as [Ha1 Ha2].
    apply List.Forall_cons_iff in Ha2. tauto.
Qed.

Lemma wf_upsert d src pth ttl crt cnt now :
  wf_db d -> wf_db (snd (upsert_db d src pth ttl crt cnt now)).
Proof.
  intros Hwf. pose proof (wf_nodup_ids _ Hwf) as Hnd.
  destruct Hwf as [Hs Hp Hk Hi Hh].
  destruct (List.find (key_matches src pth) (docs d)) as [r|] eqn:Hf.
  - destruct (find_split _ _ _ Hf) as (l1 & l2 & Hd & Hr & Hl1).
    destruct (option_eq_dec (doc_sha256 r) (Some (_sha256 cnt))) as [He|Hne].
    + rewrite (upsert_unchanged _ _ _ _ _ _ _ _ Hf He). split; assumption.
    + rewrite (upsert_updated _ _ _ _ _ _ _ _ _ _ Hd Hnd Hf Hne). simpl.
      rewrite Hd in *. split; simpl.
      * rewrite List.map_app in *. exact Hs.
      * rewrite List.Forall_app in *. destruct Hp as [Hp1 Hp2].
        apply List.Forall_cons_iff in Hp2 as [Hp2 Hp3].
        split; [assumption|constructor; assumption].
      * rewrite List.map_app in *. exact Hk.
      * rewrite Hi. apply build_update; [assumption|reflexivity].
      * rewrite List.Forall_app in *. destruct Hh as [Hh1 Hh2].
        apply List.Forall_cons_iff in Hh2 as [Hh2 Hh3].
        split; [assumption|constructor; [reflexivity|assumption]].
  - rewrite (upsert_created _ _ _ _ _ _ _ Hf). simpl. split; simpl.
    + rewrite List.map_app. simpl. apply strongly_sorted_snoc; [assumption|].
      apply List.Forall_map. apply next_rowid_gt.
    + apply List.Forall_app. split; [assumption|]. repeat constructor. apply next_rowid_pos.
    + rewrite List.map_app. simpl.
      apply find_none_forall in Hf.
      apply List.NoDup_app; [assumption|repeat constructor; simpl; tauto|].
      intros k Hk1 [<-|[]].
      apply List.in_map_iff in Hk1 as (x & Hx & Hin).
      rewrite List.Forall_forall in Hf. specialize (Hf _ Hin).
      apply key_matches_false in Hf. contradiction.
    + rewrite Hi. apply build_insert.
    + apply List.Forall_app. split; [assumption|]. repeat constructor.
Qed.

Lemma wf_delete d rid :
  wf_db d -> wf_db (apply_mutation d (M_delete rid)).
Proof.
  intros Hwf. pose proof (wf_nodup_ids _ Hwf) as Hnd.
  destruct Hwf as [Hs Hp Hk Hi Hh]. simpl.
  destruct (split_by_id (docs d) rid Hnd) as [Hfree|(l1 & r & l2 & Hd & Hr & H1 & H2)].
  - rewrite sql_delete_free by assumption. destruct d; split; assumption.
  - subst rid. rewrite Hd in *. rewrite sql_delete_split by assumption.
    split; simpl.
    + rewrite List.map_app in *. simpl in Hs. eapply strongly_sorted_remove; eassumption.
    + rewrite List.Forall_app in *. destruct Hp as [Hp1 Hp2].
      apply List.Forall_cons_iff in Hp2. tauto.
    + rewrite List.map_app in *. simpl in Hk. eapply List.NoDup_remove_1; eassumption.
    + rewrite Hi. apply build_delete. assumption.
    + rewrite List.Forall_app in *. destruct Hh as [Hh1 Hh2].
      apply List.Forall_cons_iff in Hh2. tauto.
Qed.

Lemma wf_apply d m : wf_db d -> wf_db (apply_mutation d m).
Proof.
  destruct m; [apply wf_upsert|apply wf_delete].
Qed.

Lemma wf_fold ms d : wf_db d -> wf_db (fold_left apply_mutation ms d).
Proof.
  revert d. induction ms as [|m ms IH]; intros d Hwf; simpl; [assumption|].
  apply IH, wf_apply, Hwf.
Qed.

Lemma wf_run ms : wf_db (run ms).
Proof. apply wf_fold, wf_empty. Qed.

End UpsertFacts.

(** * What the index of a table answers *)

Section IndexFacts.

Lemma in_col_postings rowid col toks (p : posting) :
  List.In p (col_postings rowid col toks) <->
  exists off t, p = (t, rowid, col, off) /\ toks !! off = Some t.
Proof.
  unfold col_postings. rewrite <- list_elem_of_In, elem_of_lookup_imap.
  split; intros (off & t & Hp & Ht); exists off, t; auto.
Qed.

Lemma in_row_postings (r : doc) (p : posting) :
  List.In p (row_postings (doc_id r) (doc_title r) (doc_content r)) <->
  exists col off t, p = (t, doc_id r, col, off) /\ (col < 2)%nat
                    /\ col_tokens r col !! off = Some t.
Proof.
  unfold row_postings. rewrite List.in_app_iff, !in_col_postings. split.
  - intros [(off & t & -> & Ht)|(off & t & -> & Ht)].
    + exists 0%nat, off, t. repeat split; [lia|exact Ht].
    + exists 1%nat, off, t. repeat split; [lia|exact Ht].
  - intros (col & off & t & -> & Hc & Ht).
    destruct col as [|[|col]]; [left|right|lia]; exists off, t; split; auto.
Qed.

Lemma elem_of_postings_of (ds : list doc) (p : posting) :
  p ∈ postings_of ds <->
  exists r, List.In r ds
            /\ List.In p (row_postings (doc_id r) (doc_title r) (doc_content r)).
Proof.
  induction ds as [|d ds IH]; simpl.
  - split; [intros Hp; multiset_solver|intros (r & [] & _)].
  - rewrite gmultiset_elem_of_disj_union, elem_of_list_to_set_disj, IH, list_elem_of_In.
    split.
    + intros [Hp|(r & Hr & Hp)]; [exists d|exists r]; auto.
    + intros (r & [->|Hr] & Hp); [left; assumption|right; exists r; auto].
Qed.

Lemma build_postings ds : ix_postings (build_fts ds) = postings_of ds.
Proof. unfold build_fts. rewrite fold_ai_postings. simpl. multiset_solver. Qed.

(** A term stands at an offset of a column of a row exactly when the token
    of the row there matches it. *)
Lemma term_at_build (ds : list doc) (r : doc) (col off : nat) (tm : string * bool) :
  List.NoDup (List.map doc_id ds) -> List.In r ds ->
  term_at (build_fts ds) (doc_id r) col off tm = true <->
  (col < 2)%nat /\ exists tok, col_tokens r col !! off = Some tok
                               /\ term_matches tm tok = true.
Proof.
  intros Hnd Hr. unfold term_at. rewrite List.existsb_exists. split.
  - intros (p & Hp & Hm).
    apply list_elem_of_In, gmultiset_elem_of_elements in Hp.
    rewrite build_postings in Hp. apply elem_of_postings_of in Hp as (x & Hx & Hp).
    apply in_row_postings in Hp as (c & o & t & -> & Hc & Ht).
    unfold posting_matches in Hm.
    apply andb_true_iff in Hm as [Hm Hterm]. apply andb_true_iff in Hm as [Hm Ho].
    apply andb_true_iff in Hm as [Hid Hcol].
    apply Z.eqb_eq in Hid. apply Nat.eqb_eq in Hcol, Ho. subst c o.
    assert (x = r) as ->.
    { clear -Hnd Hx Hr Hid. induction ds as [|d ds IH]; [contradiction|].
      simpl in Hnd. apply List.NoDup_cons_iff in Hnd as [Hn Hnd].
      destruct Hx as [->|Hx], Hr as [->|Hr]; auto.
      - exfalso. apply Hn. rewrite Hid. apply List.in_map. assumption.
      - exfalso. apply Hn. rewrite <- Hid. apply List.in_map. assumption. }
    split; [assumption|]. exists t. split; [assumption|exact Hterm].
  - intros (Hc & tok & Ht & Hm). exists (tok, doc_id r, col, off). split.
    + apply list_elem_of_In, gmultiset_elem_of_elements.
      rewrite build_postings. apply elem_of_postings_of. exists r. split; [assumption|].
      apply in_row_postings. exists col, off, tok. auto.
    + unfold posting_matches. rewrite Z.eqb_refl, !Nat.eqb_refl. simpl. exact Hm.
Qed.

Lemma build_docsize_in (ds : list doc) (r : doc) :
  List.NoDup (List.map doc_id ds) -> List.In r ds ->
  ix_docsize (build_fts ds) !! doc_id r = Some (doc_sizes r).
Proof. intros. unfold build_fts. apply fold_ai_docsize_in; assumption. Qed.

Lemma build_docsize_notin (ds : list doc) (k : Z) :
  ~ List.In k (List.map doc_id ds) -> ix_docsize (build_fts ds) !! k = None.
Proof.
  intros. unfold build_fts. rewrite fold_ai_docsize_notin by assumption. reflexivity.
Qed.

Lemma col_size_build (ds : list doc) (r : doc) (col : nat) :
  List.NoDup (List.map doc_id ds) -> List.In r ds ->
  col_size (build_fts ds) (doc_id r) col = length (col_tokens r col).
Proof.
  intros Hnd Hr. unfold col_size. rewrite build_docsize_in by assumption.
  destruct col as [|[|col]]; reflexivity.
Qed.

(** ** Sorting *)

Lemma insert_by_perm {A} (le : A -> A -> bool) x l :
  Permutation (insert_by le x l) (x :: l).
Proof.
  induction l as [|y l IH]; simpl; [reflexivity|].
  destruct (le x y); [reflexivity|].
  rewrite IH. apply perm_swap.
Qed.

Lemma sort_by_perm {A} (le : A -> A -> bool) l : Permutation (sort_by le l) l.
Proof.
  induction l as [|x l IH]; simpl; [reflexivity|].
  unfold sort_by in *. simpl. rewrite insert_by_perm. constructor. exact IH.
Qed.

Lemma in_sort_by {A} (le : A -> A -> bool) l x : List.In x (sort_by le l) <-> List.In x l.
Proof.
  split; apply Permutation_in; [|symmetry]; apply sort_by_perm.
Qed.

Lemma in_index_rowids (ds : list doc) (k : Z) :
  List.NoDup (List.map doc_id ds) ->
  List.In k (index_rowids (build_fts ds)) <-> exists r, List.In r ds /\ doc_id r = k.
Proof.
  intros Hnd. unfold index_rowids. rewrite in_sort_by, List.in_map_iff. split.
  - intros ([k' v] & <- & Hin). simpl.
    apply list_elem_of_In, elem_of_map_to_list in Hin.
    destruct (in_ids_dec k' ds) as [(r & Hr & Hk)|Hn].
    + exists r. auto.
    + rewrite build_docsize_notin in Hin by assumption. discriminate.
  - intros (r & Hr & <-). exists (doc_id r, doc_sizes r). split; [reflexivity|].
    apply list_elem_of_In, elem_of_map_to_list. apply build_docsize_in; assumption.
Qed.

End IndexFacts.

(** * Queries for one token *)

Section TermQuery.
Context `{Env}.

Lemma filter_seq_length {A} (l : list A) (f : nat -> bool) (g : A -> bool) (start : nat) :
  (forall i x, l !! i = Some x -> f (start + i)%nat = g x) ->
  length (List.filter f (seq start (length l))) = length (List.filter g l).
Proof.
  revert start. induction l as [|a l IH]; intros start Hfg; simpl; [reflexivity|].
  rewrite <- (Hfg 0%nat a eq_refl), Nat.add_0_r.
  assert (IH' : length (List.filter f (seq (S start) (length l)))
                = length (List.filter g l)).
  { apply IH. intros i x Hi. rewrite <- (Hfg (S i) x Hi). f_equal. lia. }
  destruct (f start); simpl; rewrite IH'; reflexivity.
Qed.

Lemma term_at_exact_bool (ds : list doc) (r : doc) (col off : nat) (t tok : string) :
  List.NoDup (List.map doc_id ds) -> List.In r ds -> (col < 2)%nat ->
  col_tokens r col !! off = Some tok ->
  term_at (build_fts ds) (doc_id r) col off (t, false) = String.eqb t tok.
Proof.
  intros Hnd Hr Hc Ht.
  destruct (String.eqb t tok) eqn:He.
  - apply term_at_build; try assumption. split; [assumption|].
    exists tok. split; [assumption|]. unfold term_matches. simpl.
    apply String.eqb_eq in He. subst. apply String.eqb_refl.
  - destruct (term_at _ _ _ _ _) eqn:Hta; [|reflexivity].
    apply term_at_build in Hta as (_ & tok' & Ht' & Hm); try assumption.
    rewrite Ht in Ht'. injection Ht' as <-. unfold term_matches in Hm. simpl in Hm.
    rewrite String.eqb_sym in Hm. congruence.
Qed.

Lemma col_hits_length (ds : list doc) (r : doc) (col : nat) (t : string) :
  List.NoDup (List.map doc_id ds) -> List.In r ds -> (col < 2)%nat ->
  length (List.filter
            (fun off => term_at (build_fts ds) (doc_id r) col off (t, false) && true)
            (seq 0 (col_size (build_fts ds) (doc_id r) col)))
  = length (List.filter (String.eqb t) (col_tokens r col)).
Proof.
  intros Hnd Hr Hc. rewrite col_size_build by assumption.
  apply filter_seq_length. intros i x Hi. simpl.
  rewrite andb_true_r. apply term_at_exact_bool; assumption.
Qed.

(** The instances of a token in a row are its occurrences in the title
    and in the content. *)
Lemma term_hits_length (ds : list doc) (r : doc) (t : string) :
  List.NoDup (List.map doc_id ds) -> List.In r ds ->
  length (phrase_hits (build_fts ds) (doc_id r) all_cols (term_phrase t)) = term_freq t r.
Proof.
  intros Hnd Hr. unfold phrase_hits, term_phrase, term_freq. simpl.
  rewrite !List.length_app, !List.length_map. simpl.
  rewrite (col_hits_length ds r 0 t), (col_hits_length ds r 1 t) by (assumption || lia).
  simpl. lia.
Qed.

Lemma term_insts (ix : fts_index) (rowid : Z) (t : string) (dist : Z) :
  insts ix rowid true (term_query t dist)
  = [phrase_hits ix rowid all_cols (term_phrase t)].
Proof.
  unfold term_query, term_phrase. simpl. unfold string_insts. simpl.
  destruct (phrase_hits ix rowid all_cols _); reflexivity.
Qed.

Lemma term_matches_hits (ix : fts_index) (rowid : Z) (t : string) (dist : Z) :
  matches ix rowid (term_query t dist)
  = negb (is_nil (phrase_hits ix rowid all_cols (term_phrase t))).
Proof.
  unfold term_query, term_phrase. simpl. unfold string_insts. simpl.
  destruct (phrase_hits ix rowid all_cols _); reflexivity.
Qed.

Lemma term_matches_freq (ds : list doc) (r : doc) (t : string) (dist : Z) :
  List.NoDup (List.map doc_id ds) -> List.In r ds ->
  matches (build_fts ds) (doc_id r) (term_query t dist) = true <-> (0 < term_freq t r)%nat.
Proof.
  intros Hnd Hr. rewrite term_matches_hits, <- (term_hits_length ds r t Hnd Hr).
  destruct (phrase_hits _ _ _ _); simpl; split; (lia || congruence).
Qed.

Lemma row_size_build (ds : list doc) (r : doc) :
  List.NoDup (List.map doc_id ds) -> List.In r ds ->
  row_size (build_fts ds) (doc_id r) = Z.of_nat (doc_length r).
Proof.
  intros Hnd Hr. unfold row_size, doc_length.
  rewrite !col_size_build by assumption. simpl. lia.
Qed.

Section FormulaFacts.
Variable fts5_log : Q -> Q.

(** The score of a row for a one-token query. *)
Lemma bm25_term (ds : list doc) (r : doc) (t : string) (dist : Z) :
  List.NoDup (List.map doc_id ds) -> List.In r ds ->
  bm25_exact fts5_log (build_fts ds) (term_query t dist) (doc_id r)
  = (- (0 + bm25_phrase
             (idf fts5_log (ix_nrow (build_fts ds))
                  (phrase_nhit (build_fts ds) (all_cols, term_phrase t)))
             (inject_Z (Z.of_nat (term_freq t r)))
             (inject_Z (Z.of_nat (doc_length r)))
             (avgdl (build_fts ds))))%Q.
Proof.
  intros Hnd Hr. unfold bm25_exact, row_stats. rewrite term_insts. simpl.
  rewrite term_hits_length, row_size_build by assumption. reflexivity.
Qed.

(** ** Monotonicity of the score in the frequency *)

Lemma idf_pos (nRow nHit : Z) : (0 < idf fts5_log nRow nHit)%Q.
Proof.
  unfold idf. destruct (Qle_bool _ 0) eqn:Hle; [reflexivity|].
  apply Qnot_le_lt. intros Hc. apply Qle_bool_iff in Hc. congruence.
Qed.

Lemma Qdiv_nonneg (x y : Q) : (0 <= x -> 0 <= y -> 0 <= x / y)%Q.
Proof.
  intros Hx Hy. unfold Qdiv. apply Qmult_le_0_compat; [assumption|].
  apply Qinv_le_0_compat. assumption.
Qed.

Lemma length_norm_pos (D avg : Q) :
  (0 <= D -> 0 <= avg -> 0 < bm25_k1 * (1 - bm25_b + bm25_b * D / avg))%Q.
Proof.
  intros HD Havg.
  assert (Hq : (0 <= bm25_b * D / avg)%Q).
  { apply Qdiv_nonneg; [|assumption].
    apply Qmult_le_0_compat; [unfold bm25_b; discriminate|assumption]. }
  apply Qmult_lt_0_compat; [reflexivity|].
  apply Qlt_le_trans with (1 - bm25_b)%Q; [reflexivity|].
  rewrite <- (Qplus_0_r (1 - bm25_b)) at 1. apply Qplus_le_r. exact Hq.
Qed.

Lemma saturation_lt (c K f1 f2 : Q) :
  (0 < c -> 0 < K -> 0 <= f1 -> f1 < f2 ->
   (f1 * c) / (f1 + K) < (f2 * c) / (f2 + K))%Q.
Proof.
  intros Hc HK Hf1 Hlt.
  assert (H1 : (0 < f1 + K)%Q).
  { apply Qlt_le_trans with K; [assumption|].
    rewrite <- (Qplus_0_l K) at 1. apply Qplus_le_l. assumption. }
  assert (H2 : (0 < f2 + K)%Q).
  { apply Qlt_trans with (f1 + K)%Q; [assumption|]. apply Qplus_lt_l. assumption. }
  apply Qlt_shift_div_l; [assumption|].
  assert (Heq : ((f1 * c) / (f1 + K) * (f2 + K) == (f1 * c * (f2 + K)) / (f1 + K))%Q).
  { field. intros Hz. rewrite Hz in H1. discriminate. }
  rewrite Heq. apply Qlt_shift_div_r; [assumption|].
  assert (Hd : (f2 * c * (f1 + K) - f1 * c * (f2 + K) == c * K * (f2 - f1))%Q) by ring.
  assert (Hp : (0 < c * K * (f2 - f1))%Q).
  { apply Qmult_lt_0_compat; [apply Qmult_lt_0_compat; assumption|].
    unfold Qminus. rewrite <- (Qplus_opp_r f1). apply Qplus_lt_l. assumption. }
  rewrite <- Hd in Hp.
  apply Qplus_lt_l with (z := (- (f1 * c * (f2 + K)))%Q).
  rewrite Qplus_opp_r. exact Hp.
Qed.

Lemma bm25_phrase_lt (w f1 f2 D avg : Q) :
  (0 < w -> 0 <= D -> 0 <= avg -> 0 <= f1 -> f1 < f2 ->
   bm25_phrase w f1 D avg < bm25_phrase w f2 D avg)%Q.
Proof.
  intros Hw HD Havg Hf1 Hlt. unfold bm25_phrase.
  apply Qmult_lt_l; [assumption|].
  apply saturation_lt; try assumption; [reflexivity|apply length_norm_pos; assumption].
Qed.

Lemma tokens_of_nonneg (ds : list doc) : 0 <= tokens_of ds.
Proof. induction ds as [|d ds IH]; simpl; unfold row_ntoken; lia. Qed.

Lemma avgdl_nonneg (ds : list doc) : (0 <= avgdl (build_fts ds))%Q.
Proof.
  unfold avgdl, build_fts. rewrite fold_ai_ntoken, fold_ai_nrow. simpl.
  apply Qdiv_nonneg.
  - change 0%Q with (inject_Z 0). rewrite <- Zle_Qle. apply tokens_of_nonneg.
  - change 0%Q with (inject_Z 0). rewrite <- Zle_Qle. lia.
Qed.

(** Of two rows of the same length, the one that holds the token more
    often has the strictly smaller value of the formula. *)
Lemma bm25_term_lt (ds : list doc) (r1 r2 : doc) (t : string) (dist : Z) :
  List.NoDup (List.map doc_id ds) -> List.In r1 ds -> List.In r2 ds ->
  doc_length r1 = doc_length r2 -> (term_freq t r1 < term_freq t r2)%nat ->
  (bm25_exact fts5_log (build_fts ds) (term_query t dist) (doc_id r2)
   < bm25_exact fts5_log (build_fts ds) (term_query t dist) (doc_id r1))%Q.
Proof.
  intros Hnd H1 H2 Hlen Hfreq. rewrite !bm25_term by assumption. rewrite Hlen.
  apply Qopp_lt_compat. apply Qplus_lt_r.
  apply bm25_phrase_lt.
  - apply idf_pos.
  - change 0%Q with (inject_Z 0). rewrite <- Zle_Qle. lia.
  - apply avgdl_nonneg.
  - change 0%Q with (inject_Z 0). rewrite <- Zle_Qle. lia.
  - rewrite <- Zlt_Qlt. lia.
Qed.

End FormulaFacts.

End TermQuery.

(** * The rows [search] returns *)

Section SearchFacts.
Context `{Env}.

Lemma in_join_docs (ds : list doc) (rowid : Z) (r : doc) :
  List.In r (join_docs ds rowid) <-> List.In r ds /\ doc_id r = rowid.
Proof. unfold join_docs. rewrite List.filter_In, Z.eqb_eq. tauto. Qed.

Lemma in_match_rows (d : db) (e : fts5_expr) (h : hit) :
  List.In h (match_rows d e) <->
  exists r, List.In r (docs d)
            /\ List.In (doc_id r) (matching_rowids (docs_fts d) e)
            /\ h = hit_of d e r.
Proof.
  unfold match_rows. rewrite List.in_flat_map. split.
  - intros (rowid & Hrow & Hh). apply List.in_map_iff in Hh as (r & <- & Hr).
    apply in_join_docs in Hr as [Hr <-]. exists r. auto.
  - intros (r & Hr & Hrow & ->). exists (doc_id r). split; [assumption|].
    apply List.in_map_iff. exists r. split; [reflexivity|].
    apply in_join_docs. auto.
Qed.

Lemma in_matching_rowids (ix : fts_index) (e : fts5_expr) (k : Z) :
  List.In k (matching_rowids ix e) <-> List.In k (index_rowids ix) /\ matches ix k e = true.
Proof. unfold matching_rowids. apply List.filter_In. Qed.

(** On a well-formed store the rows of the join are the rows of [docs]
    that match. *)
Lemma in_match_rows_wf (d : db) (e : fts5_expr) (h : hit) :
  wf_db d ->
  List.In h (match_rows d e) <->
  exists r, List.In r (docs d) /\ matches (docs_fts d) (doc_id r) e = true
            /\ h = hit_of d e r.
Proof.
  intros Hwf. pose proof (wf_nodup_ids _ Hwf) as Hnd.
  rewrite in_match_rows. split; intros (r & Hr & Hm & Hh); exists r.
  - apply in_matching_rowids in Hm as [_ Hm]. auto.
  - repeat split; try assumption. apply in_matching_rowids. split; [|assumption].
    rewrite (wf_index _ Hwf). apply in_index_rowids; [assumption|]. exists r. auto.
Qed.

(** ** ORDER BY and LIMIT *)

Lemma score_le_total (x y : hit) :
  Qle_bool (h_score x) (h_score y) = false -> score_le y x.
Proof.
  intros Hf. unfold score_le. apply Qlt_le_weak, Qnot_le_lt.
  intros Hc. apply Qle_bool_iff in Hc. congruence.
Qed.

Lemma insert_sorted (x : hit) (l : list hit) :
  StronglySorted score_le l ->
  StronglySorted score_le
    (insert_by (fun a c => Qle_bool (h_score a) (h_score c)) x l).
Proof.
  induction 1 as [|y l Hs IH Hy]; simpl; [repeat constructor|].
  destruct (Qle_bool (h_score x) (h_score y)) eqn:Hle.
  - apply Qle_bool_iff in Hle. constructor; [constructor; assumption|].
    constructor; [exact Hle|].
    eapply List.Forall_impl; [|exact Hy]. intros a Ha. unfold score_le in *.
    eapply Qle_trans; eassumption.
  - constructor; [exact IH|].
    apply List.Forall_forall. intros a Ha.
    eapply Permutation_in in Ha; [|apply insert_by_perm].
    destruct Ha as [<-|Ha]; [apply score_le_total; assumption|].
    rewrite List.Forall_forall in Hy. auto.
Qed.

Lemma order_by_bm25_sorted (l : list hit) : StronglySorted score_le (order_by_bm25 l).
Proof.
  unfold order_by_bm25, sort_by. induction l as [|x l IH]; simpl; [constructor|].
  apply insert_sorted, IH.
Qed.

Lemma in_order_by_bm25 (l : list hit) (h : hit) :
  List.In h (order_by_bm25 l) <-> List.In h l.
Proof. apply in_sort_by. Qed.

(** *** Rows of one score

    The sort is stable and the rows reach it by ascending rowid, so rows
    of one score stay in the order of their ids. *)

















(** The limit keeps a prefix. *)
Lemma sql_limit_prefix {A} (limit : Z) (l : list A) :
  exists rest, l = sql_limit limit l ++ rest.
Proof.
  unfold sql_limit. destruct (limit <? 0).
  - exists []. rewrite List.app_nil_r. reflexivity.
  - exists (skipn (Z.to_nat limit) l). symmetry. apply List.firstn_skipn.
Qed.

Lemma in_sql_limit {A} (limit : Z) (l : list A) (x : A) :
  List.In x (sql_limit limit l) -> List.In x l.
Proof.
  destruct (sql_limit_prefix limit l) as [rest Hl]. intros Hx.
  rewrite Hl. apply List.in_app_iff. left. assumption.
Qed.

Lemma sorted_after {A} (R : A -> A -> Prop) (pre : list A) (x : A) (post : list A) :
  StronglySorted R (pre ++ x :: post) -> Forall (R x) post.
Proof.
  induction pre as [|a pre IH]; simpl; intros Hs; apply StronglySorted_inv in Hs.
  - tauto.
  - apply IH. tauto.
Qed.

(** In a list sorted by score, a row of strictly smaller score stands before. *)
Lemma better_stands_before (pre : list hit) (x : hit) (post : list hit) (y : hit) :
  StronglySorted score_le (pre ++ x :: post) ->
  List.In y (pre ++ x :: post) -> (h_score y < h_score x)%Q -> List.In y pre.
Proof.
  intros Hs Hy Hlt. apply List.in_app_iff in Hy as [Hy|[->|Hy]]; [assumption| |].
  - exfalso. eapply Qlt_irrefl; eassumption.
  - exfalso. apply sorted_after in Hs. rewrite List.Forall_forall in Hs.
    specialize (Hs _ Hy). unfold score_le in Hs.
    eapply Qlt_irrefl, Qlt_le_trans; eassumption.
Qed.

(** ** The dicts *)

Lemma result_dict_key (h : hit) :
  dict_key (result_dict h) = key_of (doc_source (h_doc h)) (doc_path (h_doc h)).
Proof. reflexivity. Qed.

Lemma key_of_inj src pth src' pth' :
  key_of src pth = key_of src' pth' -> (src, pth) = (src', pth').
Proof. unfold key_of. congruence. Qed.

Lemma doc_of_key (d : db) (r r' : doc) :
  wf_db d -> List.In r (docs d) -> List.In r' (docs d) -> doc_key r = doc_key r' -> r = r'.
Proof.
  intros Hwf. pose proof (wf_keys _ Hwf) as Hk. revert Hk.
  generalize (docs d) as ds. induction ds as [|a ds IH]; simpl; [contradiction|].
  intros Hk Hr Hr' Heq. apply List.NoDup_cons_iff in Hk as [Hn Hk].
  destruct Hr as [->|Hr], Hr' as [->|Hr']; auto.
  - exfalso. apply Hn. rewrite Heq. apply List.in_map. assumption.
  - exfalso. apply Hn. rewrite <- Heq. apply List.in_map. assumption.
Qed.

End SearchFacts.

Section UpsertSpec.
Context `{Env}.

Lemma same_id_same_row (ds : list doc) (x y : doc) :
  List.NoDup (List.map doc_id ds) -> List.In x ds -> List.In y ds ->
  doc_id x = doc_id y -> x = y.
Proof.
  induction ds as [|a ds IH]; simpl; [contradiction|].
  intros Hnd Hx Hy Heq. apply List.NoDup_cons_iff in Hnd as [Hn Hnd].
  destruct Hx as [->|Hx], Hy as [->|Hy]; auto.
  - exfalso. apply Hn. rewrite Heq. apply List.in_map. assumption.
  - exfalso. apply Hn. rewrite <- Heq. apply List.in_map. assumption.
Qed.

(** On a well-formed store the lookup by key finds the row of the key. *)
Lemma find_by_key (d : db) (r : doc) :
  wf_db d -> List.In r (docs d) ->
  List.find (key_matches (doc_source r) (doc_path r)) (docs d) = Some r.
Proof.
  intros Hwf Hr.
  destruct (List.find _ (docs d)) as [x|] eqn:Hf.
  - destruct (find_split _ _ _ Hf) as (l1 & l2 & Hd & Hx & _).
    apply key_matches_iff in Hx.
    f_equal. eapply doc_of_key; try eassumption.
    rewrite Hd. apply List.in_app_iff. right. left. reflexivity.
  - apply find_none_forall in Hf. rewrite List.Forall_forall in Hf.
    specialize (Hf _ Hr). apply key_matches_false in Hf. contradiction.
Qed.

Lemma find_key_app_new (ds : list doc) (src pth : string) (x : doc) :
  List.find (key_matches src pth) ds = None -> doc_key x = (src, pth) ->
  List.find (key_matches src pth) (ds ++ [x]) = Some x.
Proof.
  intros Hf Hx. induction ds as [|a ds IH]; simpl in *.
  - apply key_matches_iff in Hx. rewrite Hx. reflexivity.
  - destruct (key_matches src pth a); [discriminate|]. auto.
Qed.

Lemma find_key_replace (l1 : list doc) (r r' : doc) (l2 : list doc) (src pth : string) :
  Forall (fun x => key_matches src pth x = false) l1 -> doc_key r' = (src, pth) ->
  List.find (key_matches src pth) (l1 ++ r' :: l2) = Some r'.
Proof.
  intros Hl1 Hr'. induction Hl1 as [|a l1 Ha _ IH]; simpl.
  - apply key_matches_iff in Hr'. rewrite Hr'. reflexivity.
  - rewrite Ha. exact IH.
Qed.

Lemma upsert_db_spec (d : db) (src pth : string) (ttl crt : option string)
    (cnt now : string) :
  wf_db d ->
  exists r, upserted d (snd (upsert_db d src pth ttl crt cnt now))
                     (fst (upsert_db d src pth ttl crt cnt now)) src pth ttl crt cnt now r.
Proof.
  intros Hwf. pose proof (wf_nodup_ids _ Hwf) as Hnd.
  destruct (List.find (key_matches src pth) (docs d)) as [r|] eqn:Hf.
  - destruct (find_split _ _ _ Hf) as (l1 & l2 & Hd & Hr & Hl1).
    pose proof Hr as Hrk. apply key_matches_iff in Hrk.
    destruct (option_eq_dec (doc_sha256 r) (Some (_sha256 cnt))) as [He|Hne].
    + rewrite (upsert_unchanged _ _ _ _ _ _ _ _ Hf He). simpl. exists r.
      split; try assumption; try tauto; try lia.
      rewrite Hd. apply List.in_app_iff. right. left. reflexivity.
    + rewrite (upsert_updated _ _ _ _ _ _ _ _ _ _ Hd Hnd Hf Hne). simpl.
      exists (set_fields r ttl crt cnt (_sha256 cnt) now). split; simpl.
      * apply List.in_app_iff. right. left. reflexivity.
      * exact Hrk.
      * reflexivity.
      * apply find_key_replace; assumption.
      * intros _. auto.
      * intros x Hx. rewrite Hd, !List.in_app_iff. simpl.
        split; (intros [?|[<-|?]]; [tauto| |tauto]); exfalso; auto.
      * rewrite Hd, !List.length_app. simpl. lia.
  - rewrite (upsert_created _ _ _ _ _ _ _ Hf). simpl.
    exists (new_doc (docs d) src pth ttl crt cnt now). split; simpl.
    + apply List.in_app_iff. right. left. reflexivity.
    + reflexivity.
    + reflexivity.
    + apply find_key_app_new; [assumption|reflexivity].
    + intros _. auto.
    + intros x Hx. rewrite List.in_app_iff. simpl.
      split; [intros [?|[<-|[]]]; [assumption|exfalso; auto]|tauto].
    + rewrite List.length_app. simpl. lia.
Qed.

(** With the schema in place [upsert_doc] does not raise. *)
Lemma upsert_doc_ok (c : conn) (d : db) src pth ttl crt cnt now :
  live c = Some d ->
  upsert_doc c src pth ttl crt cnt now
  = Ok (fst (upsert_db d src pth ttl crt cnt now),
        {| live := Some (snd (upsert_db d src pth ttl crt cnt now));
           durable := durable c |}).
Proof.
  intros Hl. unfold upsert_doc. rewrite Hl.
  destruct (upsert_db d src pth ttl crt cnt now). reflexivity.
Qed.

End UpsertSpec.

Section SearchSpec.
Context `{Env}.

Lemma search_ok_inv (c : conn) (q : string) (lim : Z) (rs : list pydict) :
  search c q lim = Ok rs ->
  exists hits, search_hits c q lim = Ok hits /\ rs = List.map result_dict hits.
Proof.
  unfold search. destruct (search_hits c q lim) as [hits|e]; [|discriminate].
  intros [= <-]. exists hits. auto.
Qed.

(** Where the rows of a successful call come from. *)
Lemma search_hits_inv (c : conn) (q : string) (lim : Z) (hits : list hit) :
  search_hits c q lim = Ok hits ->
  exists d, live c = Some d /\ is_int64 lim = true
    /\ (hits = []
        \/ (exists e, fts5_parse q = Some (Q_expr e)
                      /\ hits = sql_limit lim (order_by_bm25 (match_rows d e)))
        \/ (fts5_parse q = Some Q_id
            /\ hits = sql_limit lim (order_by_bm25 (special_rows d)))).
Proof.
  unfold search_hits. destruct (live c) as [d|]; [|discriminate].
  destruct (is_int64 lim); simpl; [|discriminate].
  intros Hs. exists d. split; [reflexivity|]. split; [reflexivity|].
  destruct (lim =? 0); [injection Hs as <-; auto|].
  destruct (fts5_parse q) as [[e| |]|]; try discriminate.
  - injection Hs as <-. right. left. exists e. auto.
  - destruct (special_rows d); [|discriminate]. injection Hs as <-. auto.
  - injection Hs as <-. right. right. auto.
Qed.

Lemma search_hits_expr (c : conn) (d : db) (q : string) (lim : Z) (e : fts5_expr)
    (hits : list hit) :
  live c = Some d -> fts5_parse q = Some (Q_expr e) ->
  search_hits c q lim = Ok hits ->
  (lim = 0 /\ hits = []) \/
  (lim <> 0 /\ hits = sql_limit lim (order_by_bm25 (match_rows d e))).
Proof.
  intros Hl Hp. unfold search_hits. rewrite Hl, Hp.
  destruct (is_int64 lim); simpl; [|discriminate].
  destruct (Z.eqb_spec lim 0); intros [= <-]; auto.
Qed.

(** Every row returned is a row of [docs], with the score bm25 gives it. *)
Lemma special_rows_in (d : db) (h : hit) :
  List.In h (special_rows d) -> List.In (h_doc h) (docs d).
Proof.
  unfold special_rows. rewrite List.in_map_iff. intros (r & <- & Hr). simpl.
  apply in_join_docs in Hr. tauto.
Qed.

Lemma search_hits_in_docs (c : conn) (q : string) (lim : Z) (hits : list hit) :
  search_hits c q lim = Ok hits ->
  exists d, live c = Some d /\ Forall (fun h => List.In (h_doc h) (docs d)) hits.
Proof.
  intros Hs. destruct (search_hits_inv _ _ _ _ Hs) as (d & Hl & _ & Hc).
  exists d. split; [assumption|]. apply List.Forall_forall. intros h Hh.
  destruct Hc as [->|[(e & _ & ->)|(_ & ->)]].
  - contradiction.
  - apply in_sql_limit in Hh. apply (proj1 (in_order_by_bm25 _ _)) in Hh.
    apply (proj1 (in_match_rows _ _ _)) in Hh as (r & Hr & _ & ->). exact Hr.
  - apply in_sql_limit in Hh. apply (proj1 (in_order_by_bm25 _ _)) in Hh.
    apply special_rows_in, Hh.
Qed.

(** ** One-token queries on a well-formed store *)


Lemma join_docs_free (ds : list doc) (k : Z) : free_of k ds -> join_docs ds k = [].
Proof.
  unfold join_docs. induction 1 as [|a ds Ha _ IH]; simpl; [reflexivity|].
  destruct (Z.eqb_spec (doc_id a) k); [contradiction|exact IH].
Qed.

Lemma join_docs_length (ds : list doc) (k : Z) :
  List.NoDup (List.map doc_id ds) -> (length (join_docs ds k) <= 1)%nat.
Proof.
  intros Hnd. destruct (split_by_id ds k Hnd) as [Hf|(l1 & r & l2 & -> & Hr & H1 & H2)].
  - rewrite join_docs_free by assumption. simpl. lia.
  - pose proof (join_docs_free _ _ H1) as E1. pose proof (join_docs_free _ _ H2) as E2.
    unfold join_docs in *. rewrite List.filter_app. simpl. rewrite E1, E2.
    destruct (doc_id r =? k); simpl; lia.
Qed.




End SearchSpec.

(** * Plain words are one-token queries *)

Section Words.

Lemma word_char_facts (c : ascii) :
  is_word_char c = true ->
  is_space c = false /\ punct c = None /\ Ascii.eqb c dquote = false
  /\ Ascii.eqb c nul = false /\ is_bareword c = true /\ is_token_char c = true
  /\ fold_case c = c
  /\ Ascii.eqb c "A" = false /\ Ascii.eqb c "O" = false /\ Ascii.eqb c "N" = false.
Proof.
  destruct c as [[] [] [] [] [] [] [] []]; intros Hc; try discriminate Hc;
    repeat split; reflexivity.
Qed.

Lemma append_cons (a : ascii) (s1 s2 : string) :
  String.append (String a s1) s2 = String a (String.append s1 s2).
Proof. reflexivity. Qed.

Lemma append_snoc (acc : string) (c : ascii) (s : string) :
  String.append (snoc_char acc c) s = String.append acc (String c s).
Proof.
  unfold snoc_char. induction acc as [|a acc IH]; [reflexivity|].
  rewrite !append_cons, IH. reflexivity.
Qed.

Lemma append_empty (acc : string) : String.append acc EmptyString = acc.
Proof.
  induction acc as [|a acc IH]; [reflexivity|]. rewrite append_cons, IH. reflexivity.
Qed.

Lemma lex_bare_word (s acc : string) :
  forallb is_word_char (list_ascii_of_string s) = true ->
  lex_from (L_bare acc) s = Some [bare_token (String.append acc s)].
Proof.
  revert acc. induction s as [|c s IH]; intros acc Hs; simpl.
  - rewrite append_empty. reflexivity.
  - simpl in Hs. apply andb_true_iff in Hs as [Hc Hs].
    destruct (word_char_facts c Hc) as (_ & _ & _ & Hn & Hb & _).
    rewrite Hn, Hb. rewrite (IH _ Hs), append_snoc. reflexivity.
Qed.

Lemma bare_token_word (w : string) :
  is_word w = true -> bare_token w = T_STRING false w.
Proof.
  destruct w as [|c w]; [discriminate|]. simpl. intros Hw.
  apply andb_true_iff in Hw as [Hc _].
  destruct (word_char_facts c Hc) as (_ & _ & _ & _ & _ & _ & _ & HA & HO & HN).
  unfold bare_token. simpl. rewrite HA, HO, HN. reflexivity.
Qed.

Lemma lex_word (w : string) : is_word w = true -> fts5_lex w = Some [T_STRING false w].
Proof.
  intros Hw. pose proof (bare_token_word w Hw) as Hb.
  destruct w as [|c w]; [discriminate|]. simpl in Hw.
  apply andb_true_iff in Hw as [Hc Hw].
  destruct (word_char_facts c Hc) as (Hsp & Hp & Hq & Hn & Hbw & _).
  unfold fts5_lex. simpl. rewrite Hn. unfold lex_idle. rewrite Hsp, Hp, Hq, Hbw.
  rewrite (lex_bare_word w _ Hw).
  change (String.append (String c EmptyString) w) with (String c w).
  rewrite Hb. reflexivity.
Qed.

Lemma tokenize_from_word (s cur : string) :
  forallb is_word_char (list_ascii_of_string s) = true ->
  tokenize_from cur s = emit (String.append cur s).
Proof.
  revert cur. induction s as [|c s IH]; intros cur Hs; simpl.
  - rewrite append_empty. reflexivity.
  - simpl in Hs. apply andb_true_iff in Hs as [Hc Hs].
    destruct (word_char_facts c Hc) as (_ & _ & _ & _ & _ & Ht & Hf & _).
    rewrite Ht, Hf, (IH _ Hs). fold (snoc_char cur c). rewrite append_snoc. reflexivity.
Qed.

Lemma tokenize_word (w : string) : is_word w = true -> tokenize w = [w].
Proof.
  intros Hw. destruct w as [|c w]; [discriminate|].
  unfold tokenize. rewrite tokenize_from_word by exact Hw. reflexivity.
Qed.

(** A word is the query for its one token. *)
Lemma word_query (w : string) :
  is_word w = true -> fts5_parse w = Some (Q_expr (term_query w default_neardist)).
Proof.
  intros Hw. pose proof (lex_word w Hw) as Hl. pose proof (tokenize_word w Hw) as Ht.
  unfold fts5_parse. destruct w as [|c w]; [discriminate|].
  assert (Hstar : Ascii.eqb c "*" = false).
  { simpl in Hw. apply andb_true_iff in Hw as [Hc _].
    destruct c as [[] [] [] [] [] [] [] []]; try discriminate Hc; reflexivity. }
  rewrite Hstar, Hl. unfold parse_expr. simpl.
  unfold parse_cnearset, parse_colset, parse_nearset, parse_phrase. simpl.
  unfold phrase_add. rewrite Ht. reflexivity.
Qed.

End Words.

Section Claims.
Context `{Env}.


Lemma run_snoc (ms : list mutation) (m : mutation) :
  run (ms ++ [m]) = apply_mutation (run ms) m.
Proof. unfold run. rewrite fold_left_app. reflexivity. Qed.

(** C7.  Key uniqueness: after every sequence of mutations from the empty
    store no two rows of [docs] share a (source, path) pair; and upserting
    one content under two different paths leaves two rows, with different
    ids, both holding the hash of that content (and the content itself,
    when no other text hashes like it). *)
Theorem one_row_per_key (ms : list mutation) :
  List.NoDup (List.map doc_key (docs (run ms)))
  /\ forall (src p1 p2 : string) (ttl1 ttl2 crt1 crt2 : option string)
            (cnt now1 now2 : string),
       p1 <> p2 ->
       let d2 := run (ms ++ [M_upsert src p1 ttl1 crt1 cnt now1]
                         ++ [M_upsert src p2 ttl2 crt2 cnt now2]) in
       exists r1 r2,
         List.In r1 (docs d2) /\ List.In r2 (docs d2)
         /\ doc_key r1 = (src, p1) /\ doc_key r2 = (src, p2)
         /\ doc_id r1 <> doc_id r2
         /\ doc_sha256 r1 = Some (_sha256 cnt) /\ doc_sha256 r2 = Some (_sha256 cnt)
         /\ ((forall c, _sha256 c = _sha256 cnt -> c = cnt) ->
             doc_content r1 = cnt /\ doc_content r2 = cnt).
Proof.
  split; [apply wf_keys, wf_run|].
  intros src p1 p2 ttl1 ttl2 crt1 crt2 cnt now1 now2 Hne d2.
  subst d2. rewrite List.app_assoc, !run_snoc.
  set (d0 := run ms). assert (Hwf0 : wf_db d0) by apply wf_run.
  simpl apply_mutation.
  set (d1 := snd (upsert_db d0 src p1 ttl1 crt1 cnt now1)).
  assert (Hwf1 : wf_db d1) by (apply wf_upsert; assumption).
  destruct (upsert_db_spec d0 src p1 ttl1 crt1 cnt now1 Hwf0) as [r1 U1]. fold d1 in U1.
  destruct (upsert_db_spec d1 src p2 ttl2 crt2 cnt now2 Hwf1) as [r2 U2].
  set (d2 := snd (upsert_db d1 src p2 ttl2 crt2 cnt now2)) in *.
  assert (Hwf2 : wf_db d2) by (apply wf_upsert; assumption).
  assert (Hk12 : doc_key r1 <> (src, p2)).
  { rewrite (up_key _ _ _ _ _ _ _ _ _ _ U1). congruence. }
  assert (Hr1 : List.In r1 (docs d2)).
  { apply (up_others _ _ _ _ _ _ _ _ _ _ U2); [assumption|].
    exact (up_in _ _ _ _ _ _ _ _ _ _ U1). }
  pose proof (up_in _ _ _ _ _ _ _ _ _ _ U2) as Hr2.
  pose proof (wf_hash _ Hwf2) as Hh. rewrite List.Forall_forall in Hh.
  exists r1, r2.
  split; [assumption|]. split; [assumption|].
  split; [exact (up_key _ _ _ _ _ _ _ _ _ _ U1)|].
  split; [exact (up_key _ _ _ _ _ _ _ _ _ _ U2)|].
  split.
  { intros Hid. apply Hk12.
    rewrite (same_id_same_row _ _ _ (wf_nodup_ids _ Hwf2) Hr1 Hr2 Hid).
    exact (up_key _ _ _ _ _ _ _ _ _ _ U2). }
  split; [exact (up_hash _ _ _ _ _ _ _ _ _ _ U1)|].
  split; [exact (up_hash _ _ _ _ _ _ _ _ _ _ U2)|].
  intros Hinj. split; apply Hinj.
  - specialize (Hh _ Hr1). rewrite (up_hash _ _ _ _ _ _ _ _ _ _ U1) in Hh. congruence.
  - specialize (Hh _ Hr2). rewrite (up_hash _ _ _ _ _ _ _ _ _ _ U2) in Hh. congruence.
Qed.

(** C2.  Idempotence: on a store the code can reach, a call of
    [upsert_doc] takes the insert path when the key is new, and a second
    call with the same source, path and content takes the return-early
    path and leaves the connection as the first call left it: no row, no
    [ingested_at] and no posting changes, whatever the title, creation
    time and clock of the second call. *)
Theorem upsert_twice_unchanged (ms : list mutation) (c : conn) (src pth : string)
    (ttl crt : option string) (cnt now : string) :
  live c = Some (run ms) ->
  exists o c1,
    upsert_doc c src pth ttl crt cnt now = Ok (o, c1)
    /\ (List.find (key_matches src pth) (docs (run ms)) = None -> o = Created)
    /\ forall (ttl' crt' : option string) (now' : string),
         upsert_doc c1 src pth ttl' crt' cnt now' = Ok (Unchanged, c1).
Proof.
  intros Hl. assert (Hwf : wf_db (run ms)) by apply wf_run.
  set (d := run ms) in *.
  exists (fst (upsert_db d src pth ttl crt cnt now)),
         {| live := Some (snd (upsert_db d src pth ttl crt cnt now)); durable := durable c |}.
  split; [apply upsert_doc_ok; assumption|]. split.
  - intros Hf. rewrite (upsert_created _ _ _ _ _ _ _ Hf). reflexivity.
  - intros ttl' crt' now'.
    destruct (upsert_db_spec d src pth ttl crt cnt now Hwf) as [r U].
    set (d1 := snd (upsert_db d src pth ttl crt cnt now)) in *.
    rewrite (upsert_doc_ok _ d1) by reflexivity. simpl.
    rewrite (upsert_unchanged d1 src pth ttl' crt' cnt now' r).
    + reflexivity.
    + exact (up_find _ _ _ _ _ _ _ _ _ _ U).
    + exact (up_hash _ _ _ _ _ _ _ _ _ _ U).
Qed.

End Claims.

Section Claims2.
Context `{Env}.

Lemma encode_ignore_utf8 (s : string) : encode_ignore (of_utf8 s) = s.
Proof.
  unfold encode_ignore, of_utf8. rewrite <- (string_of_list_ascii_of_string s) at 2.
  f_equal. induction (list_ascii_of_string s) as [|a l IH]; simpl; [reflexivity|].
  rewrite IH. reflexivity.
Qed.

Lemma encode_strict_utf8 (s : string) : encode_strict (of_utf8 s) = Some s.
Proof.
  unfold encode_strict. rewrite encode_ignore_utf8.
  replace (forallb _ (of_utf8 s)) with true; [reflexivity|].
  unfold of_utf8. induction (list_ascii_of_string s) as [|a l IH]; simpl; [reflexivity|exact IH].
Qed.


(** On a text without lone surrogates [upsert_doc_str] is [upsert_doc]. *)
Lemma upsert_doc_str_utf8 (c : conn) (src pth : string) (ttl crt : option string)
    (cnt now : string) :
  upsert_doc_str c src pth ttl crt (of_utf8 cnt) now = upsert_doc c src pth ttl crt cnt now.
Proof.
  unfold upsert_doc_str. rewrite encode_ignore_utf8, encode_strict_utf8.
  destruct (live c) as [d|] eqn:Hl; [|unfold upsert_doc; rewrite Hl; reflexivity].
  destruct (select_id_sha256 (docs d) src pth) as [[rid stored]|] eqn:Hsel; [|reflexivity].
  destruct (sha_equal stored (_sha256 cnt)) eqn:He; [|reflexivity].
  unfold upsert_doc, upsert_db. rewrite Hl, Hsel, He. reflexivity.
Qed.







End Claims2.

Section Ranking.
Context `{Env}.
Variable fts5_log : Q -> Q.

Lemma map_eq_split {A B} (f : A -> B) (l : list A) (pre : list B) (x : B) (post : list B) :
  List.map f l = pre ++ x :: post ->
  exists l1 a l2, l = l1 ++ a :: l2 /\ List.map f l1 = pre /\ f a = x
                  /\ List.map f l2 = post.
Proof.
  revert l. induction pre as [|p pre IH]; intros [|a l] Heq; simpl in *; try discriminate.
  - injection Heq as Ha Hl. exists [], a, l. auto.
  - injection Heq as Ha Hl. destruct (IH _ Hl) as (l1 & a' & l2 & -> & H1 & H2 & H3).
    exists (a :: l1), a', l2. simpl. rewrite H1, Ha. auto.
Qed.

(** Under an environment that scores with the formula evaluated exactly:
    of two rows of a well-formed store with the same number of tokens, the
    one that holds the token of a one-token query strictly more often has
    the strictly smaller score, so whenever the record of the other is
    among the results, its own stands before it.  SQLite evaluates the
    formula in doubles, where two scores that close can round to one value
    or to two in the other order; nothing is said here of its results. *)
Lemma ranking_exact (d : db) (r1 r2 : doc) (c : conn) (q t : string) (dist lim : Z)
    (rs : list pydict) :
  (forall ix e rowid, fts5_bm25 ix e rowid = bm25_exact fts5_log ix e rowid) ->
  wf_db d -> live c = Some d ->
  List.In r1 (docs d) -> List.In r2 (docs d) ->
  doc_length r1 = doc_length r2 -> (term_freq t r1 < term_freq t r2)%nat ->
  fts5_parse q = Some (Q_expr (term_query t dist)) ->
  search c q lim = Ok rs ->
  forall pre x post,
    rs = pre ++ x :: post ->
    dict_key x = key_of (doc_source r1) (doc_path r1) ->
    exists y, List.In y pre /\ dict_key y = key_of (doc_source r2) (doc_path r2).
Proof.
  intros Hexact Hwf Hl H1 H2 Hlen Hfreq Hp Hs pre x post Hrs Hx.
  pose proof (wf_nodup_ids _ Hwf) as Hnd.
  apply search_ok_inv in Hs as (hits & Hs & Heq). rewrite Heq in Hrs.
  apply map_eq_split in Hrs as (k1 & h & k2 & Hhits & Hpre & Hh & Hpost).
  destruct (search_hits_expr _ _ _ _ _ _ Hl Hp Hs) as [[_ Hnil]|[_ Hsorted]].
  { rewrite Hnil in Hhits. destruct k1; discriminate. }
  set (e := term_query t dist) in *.
  destruct (sql_limit_prefix lim (order_by_bm25 (match_rows d e))) as [rest Hall].
  rewrite <- Hsorted, Hhits, <- List.app_assoc in Hall. simpl in Hall.
  (* the row of [x] is the one of [r1] *)
  assert (Hin : List.In h (match_rows d e)).
  { apply in_order_by_bm25. rewrite Hall. apply List.in_app_iff. right. left. reflexivity. }
  apply (in_match_rows_wf _ _ _ Hwf) in Hin as (r & Hr & _ & ->).
  assert (r = r1) as ->.
  { eapply doc_of_key; try eassumption. rewrite <- Hh in Hx.
    rewrite result_dict_key in Hx. apply key_of_inj in Hx. exact Hx. }
  (* the row of [r2] is among the rows, with a smaller score *)
  assert (Hin2 : List.In (hit_of d e r2) (order_by_bm25 (match_rows d e))).
  { apply in_order_by_bm25. apply (in_match_rows_wf _ _ _ Hwf).
    exists r2. repeat split; [assumption|]. rewrite (wf_index _ Hwf).
    apply term_matches_freq; [assumption|assumption|lia]. }
  pose proof (order_by_bm25_sorted (match_rows d e)) as Hs'.
  rewrite Hall in Hs', Hin2.
  assert (Hbefore : List.In (hit_of d e r2) k1).
  { eapply better_stands_before; try eassumption. simpl. unfold bm25.
    rewrite !Hexact, (wf_index _ Hwf). apply bm25_term_lt; assumption. }
  exists (result_dict (hit_of d e r2)). split; [|reflexivity].
  rewrite <- Hpre. apply List.in_map. exact Hbefore.
Qed.

End Ranking.

Section Contract.
Context `{Env}.



(** C10.  A row whose title is NULL comes back with the empty string as
    title: in every record of every result the title is a string, the
    stored title or, when there is none, the empty string; and every
    record is the one of a row of [docs]. *)
Theorem null_title_is_empty_string (c : conn) (q : string) (lim : Z) :
  match search_hits c q lim with
  | Raise x => search c q lim = Raise x
  | Ok hits =>
      search c q lim = Ok (List.map result_dict hits)
      /\ (exists d, live c = Some d /\ Forall (fun h => List.In (h_doc h) (docs d)) hits)
      /\ Forall (fun h =>
                   dict_get (result_dict h) "title"
                   = Some (PyStr (match doc_title (h_doc h) with
                                  | Some s => s
                                  | None => EmptyString
                                  end))) hits
  end.
Proof.
  destruct (search_hits c q lim) as [hits|x] eqn:Hs.
  2: { unfold search. rewrite Hs. reflexivity. }
  split; [unfold search; rewrite Hs; reflexivity|].
  split; [exact (search_hits_in_docs _ _ _ _ Hs)|].
  apply List.Forall_forall. intros h _. reflexivity.
Qed.

End Contract.

(** * Queries FTS5 rejects *)

Section Lexer.









End Lexer.

Section Rejected.
Context `{Env}.

Lemma match_rows_no_docs (d : db) (e : fts5_expr) : docs d = [] -> match_rows d e = [].
Proof.
  intros Hd. unfold match_rows, join_docs. rewrite Hd. simpl.
  induction (matching_rowids (docs_fts d) e) as [|k l IH]; simpl; [reflexivity|exact IH].
Qed.


End Rejected.

(** * The ingestion driver *)

Section DriverFacts.
Context `{Env}.
Variable clock : nat -> string.

Lemma drain_schema (g : gen) (c : conn) (d : db) (pth : string) (n : nat) :
  live c = Some d ->
  drain clock c pth g n
  = ({| live := Some (upsert_all clock d pth (yielded g) n); durable := durable c |},
     (n + length (yielded g))%nat,
     if raises g then Some ProducerError else None).
Proof.
  revert c d n. induction g as [doc g IH| |]; intros c d n Hl; simpl.
  - rewrite (upsert_doc_ok _ _ _ _ _ _ _ _ Hl).
    erewrite IH by reflexivity. simpl. f_equal. f_equal. lia.
  - rewrite Nat.add_0_r. destruct c. simpl in *. subst. reflexivity.
  - rewrite Nat.add_0_r. destruct c. simpl in *. subst. reflexivity.
Qed.

(** An entry leaves the schema and the committed state as they are. *)
Lemma ingest_entry_schema (c : conn) (d : db) (e : entry) (n : nat) :
  live c = Some d ->
  exists d' n' x,
    ingest_entry clock c e n = ({| live := Some d'; durable := durable c |}, n', x)
    /\ (x = None \/ x = Some ProducerError)
    /\ (entry_raises e = true <-> x = Some ProducerError).
Proof.
  intros Hl. unfold ingest_entry, entry_raises.
  destruct (e_is_file e); simpl.
  2: { exists d, n, None. destruct c; simpl in *; subst.
       split; [reflexivity|]. split; [auto|]. split; discriminate. }
  destruct (is_html e); simpl.
  - rewrite (drain_schema _ _ _ _ _ Hl).
    destruct (raises (e_html e)); simpl.
    + eexists _, _, _. split; [reflexivity|]. split; [auto|]. tauto.
    + destruct (is_conversations_json e); simpl.
      * erewrite drain_schema by reflexivity. simpl.
        eexists _, _, _. split; [reflexivity|].
        destruct (raises (e_json e)); split; auto; split; congruence.
      * eexists _, _, _. split; [reflexivity|]. split; [auto|]. split; discriminate.
  - destruct (is_conversations_json e); simpl.
    + rewrite (drain_schema _ _ _ _ _ Hl).
      eexists _, _, _. split; [reflexivity|].
      destruct (raises (e_json e)); split; auto; split; congruence.
    + exists d, n, None. destruct c; simpl in *; subst.
      split; [reflexivity|]. split; [auto|]. split; discriminate.
Qed.

Lemma ingest_loop_schema (es : list entry) (c : conn) (d : db) (n : nat) :
  live c = Some d ->
  exists d' n' x,
    ingest_loop clock c es n = ({| live := Some d'; durable := durable c |}, n', x)
    /\ (Forall (fun e => entry_raises e = false) es -> x = None).
Proof.
  revert c d n. induction es as [|e es IH]; intros c d n Hl; simpl.
  - exists d, n, None. destruct c; simpl in *; subst. auto.
  - destruct (ingest_entry_schema c d e n Hl) as (d1 & n1 & x1 & He & Hx & Hr).
    rewrite He. destruct x1 as [x|].
    + exists d1, n1, (Some x). split; [reflexivity|].
      intros Hall. apply List.Forall_cons_iff in Hall as [He' _].
      destruct Hx as [Hx|Hx]; [discriminate|]. apply Hr in Hx. congruence.
    + destruct (IH {| live := Some d1; durable := durable c |} d1 n1 eq_refl)
        as (d2 & n2 & x2 & Hloop & Hnone).
      simpl in Hloop. exists d2, n2, x2. split; [exact Hloop|].
      intros Hall. apply List.Forall_cons_iff in Hall as [_ Hall]. auto.
Qed.

Lemma ingest_loop_app (es1 es2 : list entry) (c c1 : conn) (n n1 : nat) :
  ingest_loop clock c es1 n = (c1, n1, None) ->
  ingest_loop clock c (es1 ++ es2) n = ingest_loop clock c1 es2 n1.
Proof.
  revert c n. induction es1 as [|e es1 IH]; intros c n; simpl.
  - intros [= <- <-]. reflexivity.
  - destruct (ingest_entry clock c e n) as [[c' n'] [x|]]; [discriminate|].
    apply IH.
Qed.

(** C8, as the code has it.  The driver has no handler around an adapter:
    when the adapter of a file raises, [ingest_chatgpt] raises; the
    documents of the files before it, and those the file yielded before
    the error, have been upserted on the connection, nothing is committed,
    and the files after it are not read.  When no adapter raises the call
    commits and returns the count. *)
Theorem producer_error_aborts_batch (c : conn) (d : db) (es1 : list entry) (e : entry) :
  live c = Some d ->
  (Forall (fun e' => entry_raises e' = false) es1 ->
   exists c1 n1,
     ingest_loop clock c es1 0 = (c1, n1, None)
     /\ ingest_chatgpt clock c (Some es1) = (commit c1, Ok n1)
     /\ (entry_raises e = true ->
         exists c2 n2,
           ingest_entry clock c1 e n1 = (c2, n2, Some ProducerError)
           /\ durable c2 = durable c
           /\ forall es2, ingest_chatgpt clock c (Some (es1 ++ e :: es2))
                          = (c2, Raise ProducerError))).
Proof.
  intros Hl Hall.
  destruct (ingest_loop_schema es1 c d 0 Hl) as (d1 & n1 & x1 & Hloop & Hnone).
  rewrite (Hnone Hall) in Hloop.
  exists {| live := Some d1; durable := durable c |}, n1.
  split; [exact Hloop|]. split.
  { unfold ingest_chatgpt. rewrite Hloop. reflexivity. }
  intros Hraise.
  destruct (ingest_entry_schema {| live := Some d1; durable := durable c |} d1 e n1 eq_refl)
    as (d2 & n2 & x2 & He & _ & Hr).
  apply Hr in Hraise. subst x2. simpl in He.
  exists {| live := Some d2; durable := durable c |}, n2.
  split; [exact He|]. split; [reflexivity|].
  intros es2. unfold ingest_chatgpt.
  rewrite (ingest_loop_app _ _ _ _ _ _ Hloop). simpl. rewrite He. reflexivity.
Qed.

End DriverFacts.

Section OneKey.
Context `{Env}.
Variable clock : nat -> string.

Lemma upsert_all_app (d : db) (pth : string) (l1 l2 : list docdict) (n : nat) :
  upsert_all clock d pth (l1 ++ l2) n
  = upsert_all clock (upsert_all clock d pth l1 n) pth l2 (n + length l1).
Proof.
  revert d n. induction l1 as [|a l1 IH]; intros d n; simpl.
  - rewrite Nat.add_0_r. reflexivity.
  - rewrite IH. f_equal. lia.
Qed.

Lemma wf_upsert_all (d : db) (pth : string) (ds : list docdict) (n : nat) :
  wf_db d -> wf_db (upsert_all clock d pth ds n).
Proof.
  revert d n. induction ds as [|a ds IH]; intros d n Hwf; simpl; [assumption|].
  apply IH, wf_upsert, Hwf.
Qed.

(** An upsert of a key that has a row adds none. *)
Lemma upsert_length_present (d : db) (src pth : string) (ttl crt : option string)
    (cnt now : string) (r : doc) :
  wf_db d -> List.find (key_matches src pth) (docs d) = Some r ->
  length (docs (snd (upsert_db d src pth ttl crt cnt now))) = length (docs d).
Proof.
  intros Hwf Hf. pose proof (wf_nodup_ids _ Hwf) as Hnd.
  destruct (find_split _ _ _ Hf) as (l1 & l2 & Hd & _ & _).
  destruct (option_eq_dec (doc_sha256 r) (Some (_sha256 cnt))) as [He|Hne].
  - rewrite (upsert_unchanged _ _ _ _ _ _ _ _ Hf He). reflexivity.
  - rewrite (upsert_updated _ _ _ _ _ _ _ _ _ _ Hd Hnd Hf Hne). simpl.
    rewrite Hd, !List.length_app. reflexivity.
Qed.

(** The early return is taken only on an equal stored hash. *)
Lemma upsert_unchanged_inv (d : db) (src pth : string) (ttl crt : option string)
    (cnt now : string) :
  fst (upsert_db d src pth ttl crt cnt now) = Unchanged ->
  exists r, List.find (key_matches src pth) (docs d) = Some r
            /\ doc_sha256 r = Some (_sha256 cnt).
Proof.
  unfold upsert_db, select_id_sha256.
  destruct (List.find (key_matches src pth) (docs d)) as [r|].
  - destruct (sha_equal (doc_sha256 r) (_sha256 cnt)) eqn:He.
    + intros _. exists r. split; [reflexivity|]. apply sha_equal_iff, He.
    + destruct (sql_update _ _ _ _ _ _ _ _). discriminate.
  - destruct (sql_insert _ _ _ _ _ _ _ _ _). discriminate.
Qed.

(** The rows of a key on a well-formed store. *)
Lemma rows_of_key (d : db) (r : doc) (src pth : string) :
  wf_db d -> List.In r (docs d) -> doc_key r = (src, pth) ->
  List.filter (key_matches src pth) (docs d) = [r].
Proof.
  intros Hwf Hr Hk. pose proof (wf_keys _ Hwf) as Hnd.
  destruct (List.in_split _ _ Hr) as (l1 & l2 & Hd). rewrite Hd in *.
  rewrite List.map_app in Hnd. simpl in Hnd. apply List.NoDup_remove_2 in Hnd.
  assert (Hnil : forall l,
             (forall x, List.In x l ->
                        List.In (doc_key x) (List.map doc_key l1 ++ List.map doc_key l2)) ->
             List.filter (key_matches src pth) l = []).
  { induction l as [|a l IH]; intros Hl; simpl; [reflexivity|].
    destruct (key_matches src pth a) eqn:Ha.
    - exfalso. apply key_matches_iff in Ha. apply Hnd. rewrite Hk, <- Ha.
      apply Hl. left. reflexivity.
    - apply IH. intros x Hx. apply Hl. right. assumption. }
  rewrite List.filter_app. simpl.
  apply key_matches_iff in Hk. rewrite Hk.
  rewrite (Hnil l1), (Hnil l2); [reflexivity| |].
  - intros x Hx. apply List.in_app_iff. right. apply List.in_map. assumption.
  - intros x Hx. apply List.in_app_iff. left. apply List.in_map. assumption.
Qed.

(** Once the key has a row, a run of upserts under it adds none. *)
Lemma upsert_all_length_present (l : list docdict) (d : db) (pth : string) (m : nat)
    (r : doc) :
  wf_db d -> List.find (key_matches "chatgpt" pth) (docs d) = Some r ->
  length (docs (upsert_all clock d pth l m)) = length (docs d).
Proof.
  revert d m r. induction l as [|a l IH]; intros d m r Hwf Hf; simpl; [reflexivity|].
  destruct (upsert_db_spec d "chatgpt" pth (dd_title a) (dd_created_at a)
              (or_empty (dd_content a)) (clock m) Hwf) as [r2 U2].
  rewrite (IH _ _ r2).
  - eapply upsert_length_present; eassumption.
  - apply wf_upsert, Hwf.
  - exact (up_find _ _ _ _ _ _ _ _ _ _ U2).
Qed.

(** What a run of upserts under one key leaves. *)
Lemma upsert_all_spec (ds : list docdict) (d : db) (pth : string) (n : nat)
    (last : docdict) :
  wf_db d ->
  exists r,
    List.find (key_matches "chatgpt" pth) (docs (upsert_all clock d pth (ds ++ [last]) n))
    = Some r
    /\ doc_sha256 r = Some (_sha256 (or_empty (dd_content last)))
    /\ (forall x, doc_key x <> ("chatgpt"%string, pth) ->
          (List.In x (docs (upsert_all clock d pth (ds ++ [last]) n)) <-> List.In x (docs d)))
    /\ (length (docs (upsert_all clock d pth (ds ++ [last]) n)) <= S (length (docs d)))%nat.
Proof.
  revert d n. induction ds as [|a ds IH]; intros d n Hwf.
  - simpl. destruct (upsert_db_spec d "chatgpt" pth (dd_title last) (dd_created_at last)
                       (or_empty (dd_content last)) (clock n) Hwf) as [r U].
    exists r. split; [exact (up_find _ _ _ _ _ _ _ _ _ _ U)|].
    split; [exact (up_hash _ _ _ _ _ _ _ _ _ _ U)|].
    split; [exact (up_others _ _ _ _ _ _ _ _ _ _ U)|].
    exact (up_length _ _ _ _ _ _ _ _ _ _ U).
  - simpl.
    destruct (upsert_db_spec d "chatgpt" pth (dd_title a) (dd_created_at a)
                (or_empty (dd_content a)) (clock n) Hwf) as [r1 U1].
    set (d1 := snd (upsert_db d "chatgpt" pth (dd_title a) (dd_created_at a)
                              (or_empty (dd_content a)) (clock n))) in *.
    assert (Hwf1 : wf_db d1) by (apply wf_upsert; assumption).
    destruct (IH d1 (S n) Hwf1) as (r & Hf & Hh & Ho & Hlen).
    exists r. split; [exact Hf|]. split; [exact Hh|]. split.
    + intros x Hx. rewrite (Ho x Hx). exact (up_others _ _ _ _ _ _ _ _ _ _ U1 x Hx).
    + pose proof (up_length _ _ _ _ _ _ _ _ _ _ U1) as Hl1.
      rewrite (upsert_all_length_present _ _ _ _ r1 Hwf1 (up_find _ _ _ _ _ _ _ _ _ _ U1)).
      exact Hl1.
Qed.

(** A run of upserts of the digest the row holds writes nothing. *)
Lemma upsert_all_unchanged (ds : list docdict) (d : db) (pth : string) (n : nat) (r : doc)
    (sha : string) :
  List.find (key_matches "chatgpt" pth) (docs d) = Some r ->
  doc_sha256 r = Some sha ->
  Forall (fun x => _sha256 (or_empty (dd_content x)) = sha) ds ->
  upsert_all clock d pth ds n = d.
Proof.
  intros Hf Hs Hall. revert n. induction Hall as [|x ds Hx _ IH]; intros n; [reflexivity|].
  cbn [upsert_all]. rewrite (upsert_unchanged d "chatgpt" pth _ _ _ _ r Hf); [apply IH|].
  rewrite Hx. exact Hs.
Qed.

(** C9, as the code has it.  The conversations of one file are upserted
    under one key, the path of the file, so one row stands for the file:
    after the run the table has exactly one row of that key, at most one
    row more than before, the other rows as they were.  A conversation
    that brings the digest the row holds writes nothing.  So when the
    conversations after [w] all have the digest of [w], the row holds the
    digest of [w], which is that of the last conversation, and it holds
    the title, creation time and content of [w], written at the tick of
    [w], when the digest of [w] differs from that of the conversation
    before it, or, [w] being the first, from that of the row the key had,
    if it had one; when [w] is the first and the key had a row of its
    digest, the store is as it was. *)
Theorem conversations_share_one_row (ms : list mutation) (c : conn) (pth : string)
    (g : gen) (n : nat) (front : list docdict) (w : docdict) (tail : list docdict) :
  live c = Some (run ms) -> raises g = false -> yielded g = front ++ w :: tail ->
  Forall (fun x => _sha256 (or_empty (dd_content x)) = _sha256 (or_empty (dd_content w)))
         tail ->
  exists d' r,
    drain clock c pth g n
    = ({| live := Some d'; durable := durable c |},
       (n + length front + 1 + length tail)%nat, None)
    /\ List.filter (key_matches "chatgpt" pth) (docs d') = [r]
    /\ doc_sha256 r = Some (_sha256 (or_empty (dd_content w)))
    /\ (forall x, doc_key x <> ("chatgpt"%string, pth) ->
          (List.In x (docs d') <-> List.In x (docs (run ms))))
    /\ (length (docs d') <= S (length (docs (run ms))))%nat
    /\ (forall front' prev,
          front = front' ++ [prev] ->
          _sha256 (or_empty (dd_content w)) <> _sha256 (or_empty (dd_content prev)) ->
          doc_title r = dd_title w /\ doc_created_at r = dd_created_at w
          /\ doc_content r = or_empty (dd_content w)
          /\ doc_ingested_at r = clock (n + length front)%nat)
    /\ (front = [] ->
        (forall r0, List.find (key_matches "chatgpt" pth) (docs (run ms)) = Some r0 ->
                    doc_sha256 r0 <> Some (_sha256 (or_empty (dd_content w)))) ->
        doc_title r = dd_title w /\ doc_created_at r = dd_created_at w
        /\ doc_content r = or_empty (dd_content w)
        /\ doc_ingested_at r = clock n)
    /\ (front = [] ->
        forall r0, List.find (key_matches "chatgpt" pth) (docs (run ms)) = Some r0 ->
                   doc_sha256 r0 = Some (_sha256 (or_empty (dd_content w))) ->
                   d' = run ms).
Proof.
  intros Hl Hraise Hy Htail. assert (Hwf : wf_db (run ms)) by apply wf_run.
  set (d := run ms) in *.
  rewrite (drain_schema clock g c d pth n Hl), Hraise, Hy.
  change (w :: tail) with ([w] ++ tail). rewrite List.app_assoc, upsert_all_app.
  set (d' := upsert_all clock d pth (front ++ [w]) n).
  assert (Hwf' : wf_db d') by (apply wf_upsert_all; assumption).
  destruct (upsert_all_spec front d pth n w Hwf) as (r & Hf & Hh & Ho & Hlen).
  fold d' in Hf, Ho, Hlen.
  rewrite (upsert_all_unchanged tail d' pth _ r _ Hf Hh Htail).
  destruct (find_split _ _ _ Hf) as (k1 & k2 & Hd' & Hrk & _).
  apply key_matches_iff in Hrk.
  assert (Hr : List.In r (docs d')).
  { rewrite Hd'. apply List.in_app_iff. right. left. reflexivity. }
  exists d', r.
  split; [rewrite !List.length_app; simpl; f_equal; f_equal; lia|].
  split; [apply rows_of_key; assumption|].
  split; [exact Hh|]. split; [exact Ho|]. split; [exact Hlen|].
  split; [|split].
  - intros front' prev Hfront Hdiff.
    (* the store before the upsert of [w] holds the hash of [prev] *)
    unfold d' in *. rewrite upsert_all_app in Hf. simpl in Hf.
    set (dp := upsert_all clock d pth front n) in *.
    assert (Hwfp : wf_db dp) by (apply wf_upsert_all; assumption).
    destruct (upsert_all_spec front' d pth n prev Hwf) as (rp & Hfp & Hhp & _ & _).
    rewrite <- Hfront in Hfp. fold dp in Hfp.
    destruct (upsert_db_spec dp "chatgpt" pth (dd_title w) (dd_created_at w)
                (or_empty (dd_content w)) (clock (n + length front)) Hwfp) as [r' U].
    rewrite (up_find _ _ _ _ _ _ _ _ _ _ U) in Hf. injection Hf as ->.
    apply (up_written _ _ _ _ _ _ _ _ _ _ U).
    intros Hun. apply upsert_unchanged_inv in Hun as (r0 & Hf0 & Hh0).
    rewrite Hfp in Hf0. injection Hf0 as <-. rewrite Hhp in Hh0. congruence.
  - intros -> Hno. unfold d' in *. simpl in Hf.
    destruct (upsert_db_spec d "chatgpt" pth (dd_title w) (dd_created_at w)
                (or_empty (dd_content w)) (clock n) Hwf) as [r' U].
    rewrite (up_find _ _ _ _ _ _ _ _ _ _ U) in Hf. injection Hf as ->.
    apply (up_written _ _ _ _ _ _ _ _ _ _ U).
    intros Hun. apply upsert_unchanged_inv in Hun as (r0 & Hf0 & Hh0).
    exact (Hno r0 Hf0 Hh0).
  - intros -> r0 Hf0 Hh0. unfold d'. simpl.
    rewrite (upsert_unchanged d "chatgpt" pth _ _ _ _ r0 Hf0 Hh0). reflexivity.
Qed.

End OneKey.

(** * Concrete runs *)

Example fox_db_docs : docs fox_db = [fox_a; fox_b].
Proof. reflexivity. Qed.

Example fox_search :
  search (H := test_env) (connect (Some fox_db)) "quick" 8
  = Ok [ [ ("source"%string, PyStr "chatgpt"); ("path"%string, PyStr "b.json");
           ("title"%string, PyStr ""); ("snippet"%string, PyStr "the quick quick fox") ];
         [ ("source"%string, PyStr "chatgpt"); ("path"%string, PyStr "a.json");
           ("title"%string, PyStr ""); ("snippet"%string, PyStr "the quick brown fox") ] ].
Proof. vm_compute. reflexivity. Qed.

Example phrase_search :
  option_map (List.map (fun r => dict_get r "path"))
    (match search (H := test_env) (connect (Some fox_db))
                  (String dquote ("brown fox" ++ String dquote "")) 8 with
     | Ok rs => Some rs | Raise _ => None end)
  = Some [Some (PyStr "a.json")].
Proof. vm_compute. reflexivity. Qed.



(** C8, counterexample.  The second of three files is malformed: the call
    raises, the third file is not ingested and nothing is committed. *)
Lemma producer_error_counterexample :
  exists c',
    ingest_chatgpt (H := test_env) test_clock fresh_conn (Some batch)
    = (c', Raise ProducerError)
    /\ option_map (fun d => List.map doc_path (docs d)) (live c')
       = Some ["vault/chatgpt/a/conversations.json"%string]
    /\ durable c' = Some empty_db.
Proof. eexists. split; [vm_compute; reflexivity|]. split; reflexivity. Qed.

(** C9, counterexample.  Two conversations with the same (empty) content
    in one file: the row that remains is the one of the first. *)
Lemma conversations_counterexample :
  exists c',
    ingest_chatgpt (H := test_env) test_clock fresh_conn (Some [twin_file]) = (c', Ok 2%nat)
    /\ option_map (fun d => List.map (fun r => (doc_title r, doc_ingested_at r)) (docs d))
                  (live c')
       = Some [(Some "A"%string, t1)].
Proof. eexists. split; [vm_compute; reflexivity|reflexivity]. Qed.



(** * The theorems at concrete inputs *)


Lemma upsert_twice_witness :
  live (connect (Some (run (H := test_env) []))) = Some (run (H := test_env) [])
  /\ exists o c1,
       upsert_doc (H := test_env) (connect (Some (run (H := test_env) [])))
                  "chatgpt" "a.json" None None "the quick brown fox" t1 = Ok (o, c1)
       /\ (List.find (key_matches "chatgpt" "a.json") (docs (run (H := test_env) [])) = None
           -> o = Created)
       /\ forall (ttl' crt' : option string) (now' : string),
            upsert_doc (H := test_env) c1 "chatgpt" "a.json" ttl' crt'
                       "the quick brown fox" now' = Ok (Unchanged, c1).
Proof.
  split; [reflexivity|].
  apply (@upsert_twice_unchanged test_env []). reflexivity.
Defined.




Lemma one_row_per_key_witness :
  "a.json"%string <> "b.json"%string
  /\ exists r1 r2,
       let d2 := run (H := test_env)
                     ([] ++ [M_upsert "chatgpt" "a.json" None None "same text" t1]
                         ++ [M_upsert "chatgpt" "b.json" None None "same text" t2]) in
       List.In r1 (docs d2) /\ List.In r2 (docs d2)
       /\ doc_key r1 = ("chatgpt"%string, "a.json"%string)
       /\ doc_key r2 = ("chatgpt"%string, "b.json"%string)
       /\ doc_id r1 <> doc_id r2.
Proof.
  assert (Hne : "a.json"%string <> "b.json"%string) by (intros Heq; discriminate Heq).
  split; [exact Hne|].
  destruct (@one_row_per_key test_env []) as [_ Htwo].
  destruct (Htwo "chatgpt"%string "a.json"%string "b.json"%string None None None None
                 "same text"%string t1 t2 Hne)
    as (r1 & r2 & H1 & H2 & K1 & K2 & Hid & _).
  exists r1, r2. repeat split; assumption.
Defined.

Lemma producer_error_witness :
  live fresh_conn = Some empty_db
  /\ Forall (fun e' => entry_raises e' = false) (firstn 1 batch)
  /\ entry_raises (List.nth 1 batch twin_file) = true
  /\ exists c2,
       durable c2 = durable fresh_conn
       /\ forall es2,
            ingest_chatgpt (H := test_env) test_clock fresh_conn
                           (Some (firstn 1 batch ++ List.nth 1 batch twin_file :: es2))
            = (c2, Raise ProducerError).
Proof.
  assert (Hall : Forall (fun e' => entry_raises e' = false) (firstn 1 batch)).
  { repeat constructor. }
  split; [reflexivity|]. split; [exact Hall|]. split; [reflexivity|].
  destruct (@producer_error_aborts_batch test_env test_clock fresh_conn empty_db
              (firstn 1 batch) (List.nth 1 batch twin_file) eq_refl Hall)
    as (c1 & n1 & _ & _ & Hraise).
  destruct (Hraise eq_refl) as (c2 & n2 & _ & Hdur & Hbatch).
  exists c2. split; [exact Hdur|exact Hbatch].
Defined.

Lemma conversations_witness :
  live (connect (Some (run (H := test_env) []))) = Some (run (H := test_env) [])
  /\ raises three_convs = false
  /\ yielded three_convs = [conv "A" "hello"] ++ conv "B" "world" :: [conv "C" "world"]
  /\ Forall (fun x => _sha256 (H := test_env) (or_empty (dd_content x))
                      = _sha256 (H := test_env) (or_empty (dd_content (conv "B" "world"))))
            [conv "C" "world"]
  /\ _sha256 (H := test_env) (or_empty (dd_content (conv "B" "world")))
     <> _sha256 (H := test_env) (or_empty (dd_content (conv "A" "hello")))
  /\ exists d' r,
       drain (H := test_env) test_clock (connect (Some (run (H := test_env) [])))
             "vault/chatgpt/conversations.json" three_convs 0
       = ({| live := Some d';
             durable := durable (connect (Some (run (H := test_env) []))) |},
          3%nat, None)
       /\ List.filter (key_matches "chatgpt" "vault/chatgpt/conversations.json") (docs d')
          = [r]
       /\ doc_title r = Some "B"%string /\ doc_content r = "world"%string
       /\ doc_ingested_at r = test_clock 1.
Proof.
  assert (Hne : _sha256 (H := test_env) (or_empty (dd_content (conv "B" "world")))
                <> _sha256 (H := test_env) (or_empty (dd_content (conv "A" "hello")))).
  { vm_compute. intros Heq. discriminate Heq. }
  assert (Htail : Forall (fun x => _sha256 (H := test_env) (or_empty (dd_content x))
                                   = _sha256 (H := test_env)
                                             (or_empty (dd_content (conv "B" "world"))))
                         [conv "C" "world"]).
  { constructor; [reflexivity|constructor]. }
  split; [reflexivity|]. split; [reflexivity|]. split; [reflexivity|].
  split; [exact Htail|]. split; [exact Hne|].
  destruct (@conversations_share_one_row test_env test_clock []
              (connect (Some (run (H := test_env) [])))
              "vault/chatgpt/conversations.json"%string three_convs 0%nat
              [conv "A" "hello"] (conv "B" "world") [conv "C" "world"]
              eq_refl eq_refl eq_refl Htail)
    as (d' & r & Hdrain & Hrows & _ & _ & _ & Hprev & _).
  exists d', r. split; [exact Hdrain|]. split; [exact Hrows|].
  destruct (Hprev [] (conv "A" "hello") eq_refl Hne) as (Ht & _ & Hc & Hi).
  split; [exact Ht|]. split; [exact Hc|exact Hi].
Defined.

(** * Part III: the adapters, the batches and the two programs *)

(** ** Keys of the table *)

Section TableKeys.
Context `{Env}.

Lemma sql_delete_incl (ds : list doc) (ix : fts_index) (rid : Z) (r : doc) :
  List.In r (fst (sql_delete ds ix rid)) -> List.In r ds.
Proof.
  revert ix. induction ds as [|d ds IH]; intros ix; simpl; [auto|].
  destruct (doc_id d =? rid).
  - intros Hr. right. exact (IH _ Hr).
  - destruct (sql_delete ds ix rid) as [l ix'] eqn:E. simpl.
    intros [->|Hr]; [left; reflexivity|right].
    apply (IH ix). rewrite E. exact Hr.
Qed.

Lemma upserted_keys_snoc (ms : list mutation) (m : mutation) :
  upserted_keys (ms ++ [m]) = upserted_keys ms ++ upserted_keys [m].
Proof. unfold upserted_keys. rewrite flat_map_app. reflexivity. Qed.

(** X1.  The keys of the table are keys that were upserted; when nothing was
    deleted, every upserted key has its row. *)
Theorem table_keys_are_upserted_keys (ms : list mutation) :
  (forall r, List.In r (docs (run ms)) -> List.In (doc_key r) (upserted_keys ms))
  /\ (only_upserts ms = true ->
      forall k, List.In k (upserted_keys ms) ->
                exists r, List.In r (docs (run ms)) /\ doc_key r = k).
Proof.
  induction ms as [|m ms [IH1 IH2]] using rev_ind.
  - split; [intros r []|intros _ k []].
  - rewrite run_snoc, upserted_keys_snoc.
    assert (Hwf : wf_db (run ms)) by apply wf_run.
    destruct m as [src pth ttl crt cnt now|rid].
    + simpl apply_mutation.
      destruct (upsert_db_spec (run ms) src pth ttl crt cnt now Hwf) as [r0 U].
      split.
      * intros r Hr. apply List.in_app_iff.
        destruct (decide (doc_key r = (src, pth))) as [Hk|Hk].
        -- right. simpl. left. symmetry. exact Hk.
        -- left. apply IH1. apply (up_others _ _ _ _ _ _ _ _ _ _ U); assumption.
      * intros Hall k Hk. unfold only_upserts in Hall.
        rewrite forallb_app in Hall. apply andb_true_iff in Hall as [Hall _].
        destruct (decide (k = (src, pth))) as [->|Hne].
        -- exists r0. split; [exact (up_in _ _ _ _ _ _ _ _ _ _ U)|].
           exact (up_key _ _ _ _ _ _ _ _ _ _ U).
        -- apply List.in_app_iff in Hk as [Hk|Hk].
           ++ destruct (IH2 Hall k Hk) as (r & Hr & Hrk). exists r. split; [|exact Hrk].
              apply (up_others _ _ _ _ _ _ _ _ _ _ U); [congruence|assumption].
           ++ simpl in Hk. destruct Hk as [Hk|[]]. congruence.
    + split.
      * intros r Hr. apply List.in_app_iff. left. apply IH1.
        simpl in Hr. destruct (sql_delete (docs (run ms)) (docs_fts (run ms)) rid) as [l ix] eqn:E.
        simpl in Hr. apply (sql_delete_incl _ (docs_fts (run ms)) rid). rewrite E. exact Hr.
      * intros Hall. unfold only_upserts in Hall. rewrite forallb_app in Hall.
        apply andb_true_iff in Hall as [_ Hall]. discriminate Hall.
Qed.

End TableKeys.

(** ** The outcome of an upsert, and the choice of the adapter *)

Section OutcomeFacts.
Context `{Env}.

(** X2.  On a store that upserts and deletions built, the outcome of an upsert
    is read off the stored content: [Created] when no row has the key,
    [Unchanged] when the row of the key holds a content of the same digest
    (the store is then left as it is, whatever the title and the date given),
    [Updated] when the digests differ. *)
Theorem upsert_outcome_by_content (ms : list mutation) (src pth : string)
    (ttl crt : option string) (cnt now : string) :
  let o := fst (upsert_db (run ms) src pth ttl crt cnt now) in
  let d' := snd (upsert_db (run ms) src pth ttl crt cnt now) in
  (o = Created <-> forall r, List.In r (docs (run ms)) -> doc_key r <> (src, pth))
  /\ (o = Unchanged <->
      exists r, List.In r (docs (run ms)) /\ doc_key r = (src, pth)
                /\ _sha256 (doc_content r) = _sha256 cnt)
  /\ (o = Updated <->
      exists r, List.In r (docs (run ms)) /\ doc_key r = (src, pth)
                /\ _sha256 (doc_content r) <> _sha256 cnt)
  /\ (o = Unchanged -> d' = run ms).
Proof.
  cbv zeta. pose proof (wf_run ms) as Hwf.
  pose proof (wf_hash _ Hwf) as Hh. rewrite List.Forall_forall in Hh.
  pose proof (wf_nodup_ids _ Hwf) as Hnd.
  assert (Hone : forall r x, List.find (key_matches src pth) (docs (run ms)) = Some r ->
                             List.In x (docs (run ms)) -> doc_key x = (src, pth) -> x = r).
  { intros r x Hf Hx Hk. pose proof (find_by_key _ x Hwf Hx) as Hfx.
    injection Hk as Hs Hp. rewrite Hs, Hp in Hfx. congruence. }
  destruct (List.find (key_matches src pth) (docs (run ms))) as [r|] eqn:Hf.
  - destruct (find_split _ _ _ Hf) as (l1 & l2 & Hd & Hr & _).
    apply key_matches_iff in Hr.
    assert (Hin : List.In r (docs (run ms))).
    { rewrite Hd. apply List.in_or_app. right. left. reflexivity. }
    pose proof (Hh _ Hin) as Hsha.
    destruct (string_dec (_sha256 (doc_content r)) (_sha256 cnt)) as [He|He].
    + rewrite (upsert_unchanged _ src pth ttl crt cnt now r Hf)
        by (rewrite Hsha, He; reflexivity).
      cbn [fst snd]. split; [|split; [|split]].
      * split; [discriminate|]. intros Hno. exfalso. exact (Hno r Hin Hr).
      * split; [|reflexivity]. intros _. exists r. auto.
      * split; [discriminate|]. intros (x & Hx & Hk & Hne). exfalso.
        rewrite (Hone r x eq_refl Hx Hk) in Hne. contradiction.
      * reflexivity.
    + rewrite (upsert_updated _ src pth ttl crt cnt now l1 r l2 Hd Hnd Hf)
        by (rewrite Hsha; congruence).
      cbn [fst snd]. split; [|split; [|split]].
      * split; [discriminate|]. intros Hno. exfalso. exact (Hno r Hin Hr).
      * split; [discriminate|]. intros (x & Hx & Hk & Heq). exfalso.
        rewrite (Hone r x eq_refl Hx Hk) in Heq. contradiction.
      * split; [|reflexivity]. intros _. exists r. auto.
      * discriminate.
  - rewrite (upsert_created _ src pth ttl crt cnt now Hf). cbn [fst snd].
    assert (Hno : forall x, List.In x (docs (run ms)) -> doc_key x <> (src, pth)).
    { intros x Hx Hk. pose proof (find_by_key _ x Hwf Hx) as Hfx.
      injection Hk as Hs Hp. rewrite Hs, Hp in Hfx. congruence. }
    split; [|split; [|split]].
    + split; auto.
    + split; [discriminate|]. intros (x & Hx & Hk & _). exfalso. exact (Hno x Hx Hk).
    + split; [discriminate|]. intros (x & Hx & Hk & _). exfalso. exact (Hno x Hx Hk).
    + discriminate.
Qed.

Lemma html_not_json (s : string) : ends_with s ".html" = true -> ends_with s ".json" = false.
Proof.
  unfold ends_with.
  change (List.rev (list_ascii_of_string ".html")) with ["l"; "m"; "t"; "h"; "."]%char.
  change (List.rev (list_ascii_of_string ".json")) with ["n"; "o"; "s"; "j"; "."]%char.
  destruct (List.rev (list_ascii_of_string s)) as [|c r]; [discriminate|].
  cbn [ends_with_aux]. destruct (Ascii.eqb_spec "l"%char c) as [<-|]; [|discriminate].
  intros _. reflexivity.
Qed.

(** X3.  No file is read by both adapters: a name that ends in [.html] does
    not end in [.json]. So the dicts upserted for a path are those of one
    adapter, or none. *)
Theorem one_adapter_per_file (e : entry) :
  is_html e && is_conversations_json e = false
  /\ entry_docs e = (if e_is_file e then
                       if is_html e then yielded (e_html e)
                       else if is_conversations_json e then yielded (e_json e) else []
                     else []).
Proof.
  unfold entry_docs, is_html, is_conversations_json.
  destruct (ends_with (lower_string (e_name e)) ".html") eqn:Hh.
  - rewrite (html_not_json _ Hh). cbn [andb]. split; [reflexivity|].
    destruct (e_is_file e); [apply List.app_nil_r|reflexivity].
  - split; [reflexivity|]. destruct (e_is_file e); reflexivity.
Qed.

End OutcomeFacts.

(** ** Results of a search *)

Section SearchResults.
Context `{Env}.

Lemma nodup_index_rowids (ix : fts_index) : List.NoDup (index_rowids ix).
Proof.
  unfold index_rowids.
  eapply Permutation_NoDup; [symmetry; apply sort_by_perm|].
  apply NoDup_ListNoDup. exact (NoDup_fst_map_to_list (ix_docsize ix)).
Qed.

Lemma nodup_flat_map {A B} (key : B -> A) (g : A -> list B) (ks : list A) :
  (forall k, length (g k) <= 1)%nat -> (forall k x, List.In x (g k) -> key x = k) ->
  List.NoDup ks -> List.NoDup (List.map key (flat_map g ks)).
Proof.
  intros Hlen Hkey. induction 1 as [|k ks Hk Hnd IH]; simpl; [constructor|].
  rewrite List.map_app. specialize (Hlen k).
  destruct (g k) as [|x [|y l]] eqn:E; simpl in *; [exact IH| |lia].
  constructor; [|exact IH].
  rewrite (Hkey k x) by (rewrite E; left; reflexivity).
  intros Hin. apply List.in_map_iff in Hin as (z & Hz & Hin).
  apply List.in_flat_map in Hin as (k' & Hk' & Hin).
  apply Hkey in Hin. congruence.
Qed.

Lemma nodup_map_transfer {A B C} (f : A -> B) (g : A -> C) (l : list A) :
  (forall x y, List.In x l -> List.In y l -> g x = g y -> f x = f y) ->
  List.NoDup (List.map f l) -> List.NoDup (List.map g l).
Proof.
  induction l as [|a l IH]; simpl; intros Hfg Hnd; [constructor|].
  apply List.NoDup_cons_iff in Hnd as [Ha Hnd]. constructor.
  - intros Hin. apply List.in_map_iff in Hin as (z & Hz & Hin).
    apply Ha. rewrite <- (Hfg z a); auto. apply List.in_map. exact Hin.
  - apply IH; auto.
Qed.

Lemma match_rows_ids_nodup (d : db) (e : fts5_expr) :
  wf_db d -> List.NoDup (List.map (fun h => doc_id (h_doc h)) (match_rows d e)).
Proof.
  intros Hwf. unfold match_rows. apply nodup_flat_map.
  - intros k. rewrite List.length_map. apply join_docs_length, wf_nodup_ids, Hwf.
  - intros k x Hx. apply List.in_map_iff in Hx as (r & <- & Hr). simpl.
    apply in_join_docs in Hr. tauto.
  - unfold matching_rowids. apply List.NoDup_filter, nodup_index_rowids.
Qed.

Lemma special_rows_wf (d : db) : wf_db d -> special_rows d = [].
Proof.
  intros Hwf. unfold special_rows. rewrite join_docs_free; [reflexivity|].
  unfold free_of. eapply List.Forall_impl; [|exact (wf_ids_positive _ Hwf)].
  simpl. intros r Hr. lia.
Qed.

Lemma search_hits_keys_nodup (d : db) (c : conn) (q : string) (lim : Z) (hits : list hit) :
  wf_db d -> live c = Some d -> search_hits c q lim = Ok hits ->
  List.NoDup (List.map (fun h => doc_key (h_doc h)) hits).
Proof.
  intros Hwf Hl Hs.
  destruct (search_hits_inv _ _ _ _ Hs) as (d' & Hl' & _ & Hc).
  rewrite Hl in Hl'. injection Hl' as <-.
  destruct Hc as [->|[(e & _ & ->)|(_ & ->)]]; [constructor| |].
  - destruct (sql_limit_prefix lim (order_by_bm25 (match_rows d e))) as [rest Hp].
    assert (Hall : List.NoDup (List.map (fun h => doc_key (h_doc h))
                                        (order_by_bm25 (match_rows d e)))).
    { eapply Permutation_NoDup.
      { apply Permutation_map. symmetry. apply sort_by_perm. }
      apply (nodup_map_transfer (fun h => doc_id (h_doc h))); [|apply match_rows_ids_nodup, Hwf].
      intros x y Hx Hy Hk.
      apply (proj1 (in_match_rows _ _ _)) in Hx as (rx & Hrx & _ & ->).
      apply (proj1 (in_match_rows _ _ _)) in Hy as (ry & Hry & _ & ->).
      simpl in *. rewrite (doc_of_key d rx ry Hwf Hrx Hry Hk). reflexivity. }
    rewrite Hp, List.map_app in Hall. exact (List.NoDup_app_remove_r _ _ Hall).
  - rewrite (special_rows_wf _ Hwf). unfold sql_limit. simpl.
    destruct (lim <? 0); [constructor|]. rewrite List.firstn_nil. constructor.
Qed.

(** X4.  No document is returned twice: the records of a result have pairwise
    different (source, path). *)
Theorem search_results_distinct (ms : list mutation) (c : conn) (q : string) (lim : Z)
    (rs : list pydict) :
  live c = Some (run ms) -> search c q lim = Ok rs ->
  List.NoDup (List.map dict_key rs).
Proof.
  intros Hl Hs. apply search_ok_inv in Hs as (hits & Hs & ->).
  pose proof (search_hits_keys_nodup _ _ _ _ _ (wf_run ms) Hl Hs) as Hnd.
  rewrite List.map_map.
  apply (nodup_map_transfer (fun h => doc_key (h_doc h))); [|exact Hnd].
  intros x y _ _. rewrite !result_dict_key. intros Hk. apply key_of_inj in Hk. exact Hk.
Qed.

(** X5.  A smaller limit returns a prefix of what a larger limit, or no limit,
    returns. *)
Theorem search_limit_prefix (c : conn) (q : string) (lim lim' : Z) (rs' : list pydict) :
  0 <= lim -> is_int64 lim = true -> lim <= lim' \/ lim' < 0 ->
  search c q lim' = Ok rs' ->
  search c q lim = Ok (firstn (Z.to_nat lim) rs').
Proof.
  intros H0 Hint Hle Hs. apply search_ok_inv in Hs as (hits & Hs & ->).
  rewrite List.firstn_map.
  unfold search. 
  assert (Hh : search_hits c q lim = Ok (firstn (Z.to_nat lim) hits)); [|rewrite Hh; reflexivity].
  revert Hs. unfold search_hits. destruct (live c) as [d|]; [|discriminate].
  rewrite Hint. simpl. destruct (is_int64 lim'); simpl; [|discriminate].
  destruct (Z.eqb_spec lim 0) as [->|Hz]; [intros _; reflexivity|].
  destruct (Z.eqb_spec lim' 0) as [->|Hz']; [lia|].
  assert (Hlim : forall l : list hit,
             sql_limit lim l = firstn (Z.to_nat lim) (sql_limit lim' l)).
  { intros l. unfold sql_limit. destruct (Z.ltb_spec lim 0); [lia|].
    destruct (Z.ltb_spec lim' 0); [reflexivity|].
    rewrite List.firstn_firstn. f_equal. lia. }
  destruct (fts5_parse q) as [[e| |]|]; try discriminate.
  - intros [= <-]. rewrite Hlim. reflexivity.
  - destruct (special_rows d); [|discriminate]. intros [= <-].
    rewrite List.firstn_nil. reflexivity.
  - intros [= <-]. rewrite Hlim. reflexivity.
Qed.









End SearchResults.

(** ** Letter case and blank queries *)

Section QueryWords.
Context `{Env}.

Lemma alnum_char_facts (c : ascii) :
  is_alnum c = true ->
  is_space c = false /\ punct c = None /\ Ascii.eqb c dquote = false
  /\ Ascii.eqb c nul = false /\ is_bareword c = true /\ is_token_char c = true
  /\ Ascii.eqb c "*" = false /\ is_word_char (fold_case c) = true.
Proof.
  destruct c as [[] [] [] [] [] [] [] []]; intros Hc; try discriminate Hc;
    repeat split; reflexivity.
Qed.

Lemma lex_bare_alnum (s acc : string) :
  forallb is_alnum (list_ascii_of_string s) = true ->
  lex_from (L_bare acc) s = Some [bare_token (String.append acc s)].
Proof.
  revert acc. induction s as [|c s IH]; intros acc Hs; simpl.
  - rewrite append_empty. reflexivity.
  - simpl in Hs. apply andb_true_iff in Hs as [Hc Hs].
    destruct (alnum_char_facts c Hc) as (_ & _ & _ & Hn & Hb & _).
    rewrite Hn, Hb. rewrite (IH _ Hs), append_snoc. reflexivity.
Qed.

Lemma bare_token_plain (w : string) :
  is_keyword w = false -> bare_token w = T_STRING false w.
Proof.
  unfold is_keyword, bare_token. intros Hk.
  apply orb_false_iff in Hk as [Hk H3]. apply orb_false_iff in Hk as [H1 H2].
  rewrite H1, H2, H3. reflexivity.
Qed.

Lemma lex_alnum_word (w : string) :
  is_alnum_word w = true -> fts5_lex w = Some [bare_token w].
Proof.
  intros Hw. destruct w as [|c w]; [discriminate|]. simpl in Hw.
  apply andb_true_iff in Hw as [Hc Hw].
  destruct (alnum_char_facts c Hc) as (Hsp & Hp & Hq & Hn & Hbw & _).
  unfold fts5_lex. simpl. rewrite Hn. unfold lex_idle. rewrite Hsp, Hp, Hq, Hbw.
  rewrite (lex_bare_alnum w _ Hw). reflexivity.
Qed.

Lemma lower_string_cons (c : ascii) (s : string) :
  lower_string (String c s) = String (fold_case c) (lower_string s).
Proof. reflexivity. Qed.

Lemma tokenize_from_alnum (s cur : string) :
  forallb is_alnum (list_ascii_of_string s) = true ->
  tokenize_from cur s = emit (String.append cur (lower_string s)).
Proof.
  revert cur. induction s as [|c s IH]; intros cur Hs; simpl.
  - rewrite append_empty. reflexivity.
  - simpl in Hs. apply andb_true_iff in Hs as [Hc Hs].
    destruct (alnum_char_facts c Hc) as (_ & _ & _ & _ & _ & Ht & _).
    rewrite Ht, (IH _ Hs). fold (snoc_char cur (fold_case c)).
    rewrite append_snoc, lower_string_cons. reflexivity.
Qed.

Lemma tokenize_alnum_word (w : string) :
  is_alnum_word w = true -> tokenize w = [lower_string w].
Proof.
  intros Hw. destruct w as [|c w]; [discriminate|].
  unfold tokenize. rewrite tokenize_from_alnum by exact Hw. reflexivity.
Qed.

(** A word that is not a keyword is the query for its token in lower case. *)
Lemma alnum_word_query (w : string) :
  is_alnum_word w = true -> is_keyword w = false ->
  fts5_parse w = Some (Q_expr (term_query (lower_string w) default_neardist)).
Proof.
  intros Hw Hk. pose proof (lex_alnum_word w Hw) as Hl.
  rewrite (bare_token_plain w Hk) in Hl.
  pose proof (tokenize_alnum_word w Hw) as Ht.
  unfold fts5_parse. destruct w as [|c w]; [discriminate|].
  assert (Hstar : Ascii.eqb c "*" = false).
  { simpl in Hw. apply andb_true_iff in Hw as [Hc _].
    apply alnum_char_facts in Hc. tauto. }
  rewrite Hstar, Hl. unfold parse_expr. simpl.
  unfold parse_cnearset, parse_colset, parse_nearset, parse_phrase. simpl.
  unfold phrase_add. rewrite Ht. reflexivity.
Qed.

Lemma lower_word_chars (s : string) :
  forallb is_alnum (list_ascii_of_string s) = true ->
  forallb is_word_char (list_ascii_of_string (lower_string s)) = true.
Proof.
  induction s as [|c s IH]; [reflexivity|]. rewrite lower_string_cons. simpl.
  intros Hs. apply andb_true_iff in Hs as [Hc Hs].
  apply alnum_char_facts in Hc. destruct Hc as (_ & _ & _ & _ & _ & _ & _ & Hc).
  rewrite Hc. simpl. apply IH, Hs.
Qed.

Lemma lower_is_word (w : string) : is_alnum_word w = true -> is_word (lower_string w) = true.
Proof.
  destruct w as [|c w]; [discriminate|]. intros Hw.
  pose proof (lower_word_chars (String c w) Hw) as Hl.
  rewrite lower_string_cons in *. exact Hl.
Qed.

Lemma keyword_parse (w : string) : is_keyword w = true -> fts5_parse w = None.
Proof.
  unfold is_keyword. intros Hk.
  apply orb_true_iff in Hk as [Hk|Hk]; [apply orb_true_iff in Hk as [Hk|Hk]|];
    apply String.eqb_eq in Hk; subst w; vm_compute; reflexivity.
Qed.

(** X7.  Words are matched without regard to case: a query of one word of
    letters and digits returns what its lower-case form returns. The three
    operators are the exception: alone, and in upper case, they are a syntax
    error. *)
Theorem word_query_ignores_case (c : conn) (w : string) (lim : Z) :
  is_alnum_word w = true ->
  (is_keyword w = false -> search c w lim = search c (lower_string w) lim)
  /\ (is_keyword w = true -> lim <> 0 -> is_int64 lim = true -> live c <> None ->
      search c w lim = Raise OperationalError).
Proof.
  intros Hw. split.
  - intros Hk. unfold search, search_hits.
    rewrite (alnum_word_query w Hw Hk), (word_query _ (lower_is_word w Hw)). reflexivity.
  - intros Hk Hz Hint Hl. unfold search, search_hits.
    destruct (live c) as [d|]; [|congruence]. rewrite Hint. simpl.
    apply Z.eqb_neq in Hz. rewrite Hz, (keyword_parse w Hk). reflexivity.
Qed.

Lemma lex_blank (q : string) : is_blank q = true -> lex_from L_idle q = Some [].
Proof.
  unfold is_blank. induction q as [|c q IH]; simpl; [reflexivity|].
  intros Hq. apply andb_true_iff in Hq as [Hc Hq].
  assert (Hn : Ascii.eqb c nul = false).
  { destruct c as [[] [] [] [] [] [] [] []]; try discriminate Hc; reflexivity. }
  rewrite Hn. unfold lex_idle. rewrite Hc, (IH Hq). reflexivity.
Qed.

Lemma blank_parse (q : string) : is_blank q = true -> fts5_parse q = None.
Proof.
  intros Hq. pose proof (lex_blank q Hq) as Hl.
  destruct q as [|c q]; [reflexivity|]. unfold fts5_parse.
  assert (Hs : Ascii.eqb c "*" = false).
  { unfold is_blank in Hq. simpl in Hq. apply andb_true_iff in Hq as [Hc _].
    destruct c as [[] [] [] [] [] [] [] []]; try discriminate Hc; reflexivity. }
  rewrite Hs. unfold fts5_lex. rewrite Hl. reflexivity.
Qed.

(** X8.  The empty query, and a query of blanks only, is an error, not an
    empty result. *)
Theorem blank_query_raises (c : conn) (d : db) (q : string) (lim : Z) :
  is_blank q = true -> live c = Some d -> is_int64 lim = true -> lim <> 0 ->
  search c q lim = Raise OperationalError.
Proof.
  intros Hq Hl Hint Hz. unfold search, search_hits. rewrite Hl, Hint. simpl.
  apply Z.eqb_neq in Hz. rewrite Hz, (blank_parse q Hq). reflexivity.
Qed.

End QueryWords.

(** ** The ChatGPT batch *)

Section BatchFacts.
Context `{Env}.

Lemma upsert_batch_app (clock : nat -> string) (src : string) (d : db)
    (l1 l2 : list (string * docdict)) (n : nat) :
  upsert_batch clock src d (l1 ++ l2) n
  = upsert_batch clock src (upsert_batch clock src d l1 n) l2 (n + length l1).
Proof.
  revert d n. induction l1 as [|[p a] l1 IH]; intros d n; simpl.
  - rewrite Nat.add_0_r. reflexivity.
  - rewrite IH. f_equal. lia.
Qed.

Lemma upsert_all_batch (clock : nat -> string) (d : db) (pth : string)
    (ds : list docdict) (n : nat) :
  upsert_all clock d pth ds n = upsert_batch clock "chatgpt" d (List.map (pair pth) ds) n.
Proof.
  revert d n. induction ds as [|a ds IH]; intros d n; simpl; [reflexivity|]. apply IH.
Qed.




Variable clock : nat -> string.

Lemma ingest_entry_ok (c : conn) (d : db) (e : entry) (n : nat) :
  live c = Some d -> entry_raises e = false ->
  ingest_entry clock c e n
  = ({| live := Some (upsert_batch clock "chatgpt" d
                        (List.map (pair (e_path e)) (entry_docs e)) n);
        durable := durable c |},
     (n + length (entry_docs e))%nat, None).
Proof.
  intros Hl Hr. unfold ingest_entry, entry_raises, entry_docs in *.
  destruct (e_is_file e); simpl in *.
  2: { rewrite Nat.add_0_r. destruct c; simpl in *; subst. reflexivity. }
  destruct (is_html e); simpl in *.
  - rewrite (drain_schema _ _ _ _ _ _ Hl).
    destruct (raises (e_html e)); [discriminate|]. simpl in Hr.
    destruct (is_conversations_json e); simpl in *.
    + erewrite drain_schema by reflexivity. rewrite Hr. simpl.
      rewrite List.map_app, upsert_batch_app, List.length_map, List.length_app.
      rewrite !upsert_all_batch. f_equal. f_equal. lia.
    + rewrite List.app_nil_r, upsert_all_batch. reflexivity.
  - destruct (is_conversations_json e); simpl in *.
    + rewrite (drain_schema _ _ _ _ _ _ Hl), Hr, upsert_all_batch. reflexivity.
    + rewrite Nat.add_0_r. destruct c; simpl in *; subst. reflexivity.
Qed.

Lemma ingest_loop_ok (es : list entry) (c : conn) (d : db) (n : nat) :
  live c = Some d -> Forall (fun e => entry_raises e = false) es ->
  ingest_loop clock c es n
  = ({| live := Some (upsert_batch clock "chatgpt" d (batch_docs es) n);
        durable := durable c |},
     (n + length (batch_docs es))%nat, None).
Proof.
  revert c d n. induction es as [|e es IH]; intros c d n Hl Hall; simpl.
  - rewrite Nat.add_0_r. destruct c; simpl in *; subst. reflexivity.
  - apply List.Forall_cons_iff in Hall as [He Hall].
    rewrite (ingest_entry_ok c d e n Hl He).
    erewrite IH by (reflexivity || assumption). simpl.
    unfold batch_docs. simpl. fold (batch_docs es).
    rewrite upsert_batch_app, List.length_app, !List.length_map.
    f_equal. f_equal. lia.
Qed.

(** X9.  When no adapter raises and every path and text to store is the
    encoding of a [str], which sqlite3 can bind, [ingest_chatgpt] is the
    sequence of the upserts of the dicts yielded, in listing order, followed
    by a commit; the count it returns is the number of dicts yielded, whether
    they were written or found unchanged. *)
Theorem ingest_chatgpt_upserts_all (c : conn) (d : db) (es : list entry) :
  live c = Some d -> Forall (fun e => entry_raises e = false) es ->
  Forall (fun pd => storable pd = true) (batch_docs es) ->
  let d' := upsert_batch clock "chatgpt" d (batch_docs es) 0 in
  ingest_chatgpt clock c (Some es)
  = ({| live := Some d'; durable := Some d' |}, Ok (length (batch_docs es))).
Proof.
  intros Hl Hall _ d'. unfold ingest_chatgpt.
  rewrite (ingest_loop_ok es c d 0 Hl Hall). reflexivity.
Qed.

End BatchFacts.

Section Rerun.
Context `{Env}.


End Rerun.

(** ** Stripping *)

(** ** Python text *)

Section TextFacts.

Lemma list_of_string_of_list (l : list ascii) :
  list_ascii_of_string (string_of_list_ascii l) = l.
Proof. apply list_ascii_of_string_of_list_ascii. Qed.

Lemma py_space_nil : py_space [] = false.
Proof. reflexivity. Qed.

Lemma blank_len_nil (rd : list ascii -> list ascii) : rd [] = [] -> blank_len rd [] = O.
Proof. intros Hrd. unfold blank_len. simpl. rewrite Hrd. reflexivity. Qed.

Lemma blank_len_le (rd : list ascii -> list ascii) (s : list ascii) :
  (blank_len rd s <= 3)%nat.
Proof.
  unfold blank_len.
  destruct (py_space (rd (firstn 1 s))); [lia|].
  destruct (py_space (rd (firstn 2 s))); [lia|].
  destruct (py_space (rd (firstn 3 s))); lia.
Qed.

Lemma drop_blanks_fix (rd : list ascii -> list ascii) (fuel : nat) (s : list ascii) :
  blank_len rd s = O -> drop_blanks rd fuel s = s.
Proof. intros Hb. destruct fuel; simpl; [reflexivity|]. rewrite Hb. reflexivity. Qed.

Lemma drop_blanks_stops (rd : list ascii -> list ascii) (fuel : nat) (s : list ascii) :
  rd [] = [] -> (length s <= fuel)%nat -> blank_len rd (drop_blanks rd fuel s) = O.
Proof.
  intros Hrd. revert s. induction fuel as [|fuel IH]; intros s Hlen; simpl.
  - destruct s; [apply blank_len_nil, Hrd|simpl in Hlen; lia].
  - destruct (blank_len rd s) as [|k] eqn:Hb; [exact Hb|].
    apply IH. destruct s as [|a s]; [rewrite blank_len_nil in Hb by exact Hrd; discriminate|].
    rewrite List.length_skipn. simpl in *. lia.
Qed.

Lemma drop_blanks_fuel (rd : list ascii -> list ascii) (f1 f2 : nat) (s : list ascii) :
  rd [] = [] -> (length s <= f1)%nat -> (length s <= f2)%nat ->
  drop_blanks rd f1 s = drop_blanks rd f2 s.
Proof.
  intros Hrd. revert f2 s. induction f1 as [|f1 IH]; intros f2 s H1 H2.
  - destruct s; [|simpl in H1; lia]. destruct f2; simpl; [reflexivity|].
    rewrite blank_len_nil by exact Hrd. reflexivity.
  - destruct f2 as [|f2].
    + destruct s; [|simpl in H2; lia]. simpl. rewrite blank_len_nil by exact Hrd. reflexivity.
    + simpl. destruct (blank_len rd s) as [|k] eqn:Hb; [reflexivity|].
      destruct s as [|a s]; [rewrite blank_len_nil in Hb by exact Hrd; discriminate|].
      apply IH; rewrite List.length_skipn; simpl in *; lia.
Qed.

Lemma drop_blanks_suffix (rd : list ascii -> list ascii) (fuel : nat) (s : list ascii) :
  exists m, drop_blanks rd fuel s = skipn m s.
Proof.
  revert s. induction fuel as [|fuel IH]; intros s; simpl; [exists O; reflexivity|].
  destruct (blank_len rd s) as [|k]; [exists O; reflexivity|].
  destruct (IH (skipn (S k) s)) as [m Hm]. exists (m + S k)%nat.
  rewrite Hm, List.skipn_skipn. reflexivity.
Qed.

(** A prefix of a text that starts with no blank starts with none. *)
Lemma blank_len_prefix (u : list ascii) (n : nat) :
  blank_len (fun w => w) u = O -> blank_len (fun w => w) (firstn n u) = O.
Proof.
  unfold blank_len. intros Hu.
  destruct (py_space (firstn 1 u)) eqn:E1; [discriminate|].
  destruct (py_space (firstn 2 u)) eqn:E2; [discriminate|].
  destruct (py_space (firstn 3 u)) eqn:E3; [discriminate|].
  rewrite !List.firstn_firstn.
  destruct n as [|[|[|n]]]; simpl Nat.min.
  - reflexivity.
  - rewrite E1. reflexivity.
  - rewrite E1, E2. reflexivity.
  - replace (Nat.min 3 (S (S (S n)))) with 3%nat by lia. rewrite E1, E2, E3. reflexivity.
Qed.

Lemma rstrip_prefix (u : list ascii) : exists n, rstrip_bytes u = firstn n u.
Proof.
  unfold rstrip_bytes. destruct (drop_blanks_suffix (@List.rev ascii) (length u) (List.rev u)) as [m Hm].
  rewrite Hm. exists (length u - m)%nat.
  rewrite List.skipn_rev, List.rev_involutive. reflexivity.
Qed.

Lemma lstrip_no_blank (s : list ascii) : blank_len (fun w => w) (lstrip_bytes s) = O.
Proof. unfold lstrip_bytes. apply drop_blanks_stops; [reflexivity|lia]. Qed.

Lemma rstrip_no_blank (s : list ascii) :
  blank_len (@List.rev ascii) (List.rev (rstrip_bytes s)) = O.
Proof.
  unfold rstrip_bytes. rewrite List.rev_involutive.
  apply drop_blanks_stops; [reflexivity|rewrite List.length_rev; lia].
Qed.

Lemma lstrip_fix (s : list ascii) : blank_len (fun w => w) s = O -> lstrip_bytes s = s.
Proof. apply drop_blanks_fix. Qed.

Lemma rstrip_fix (s : list ascii) :
  blank_len (@List.rev ascii) (List.rev s) = O -> rstrip_bytes s = s.
Proof.
  intros Hb. unfold rstrip_bytes. rewrite drop_blanks_fix by exact Hb.
  apply List.rev_involutive.
Qed.

(** A stripped text has no blank at either end: stripping it again changes
    nothing. *)
Lemma strip_strip (s : string) : strip (strip s) = strip s.
Proof.
  unfold strip. rewrite list_of_string_of_list.
  set (u := lstrip_bytes (list_ascii_of_string s)).
  assert (Hl : lstrip_bytes (rstrip_bytes u) = rstrip_bytes u).
  { apply lstrip_fix. destruct (rstrip_prefix u) as [n ->].
    apply blank_len_prefix, lstrip_no_blank. }
  rewrite Hl. f_equal. apply rstrip_fix, rstrip_no_blank.
Qed.

End TextFacts.

(** ** The heading pattern *)

(** ** The two regular expressions *)

Section RegexFacts.

Lemma byte_newline : byte newline = 10.
Proof. reflexivity. Qed.

Lemma py_space_1 (a : ascii) :
  py_space [a] = true -> (9 <= byte a <= 13) \/ (28 <= byte a <= 32).
Proof.
  unfold py_space. simpl. intros Hs. apply orb_true_iff in Hs as [Hs|Hs];
    apply andb_true_iff in Hs as [H1 H2]; apply Z.leb_le in H1, H2; lia.
Qed.

Lemma py_space_2 (a b : ascii) :
  py_space [a; b] = true -> byte a = 194 /\ (byte b = 133 \/ byte b = 160).
Proof.
  unfold py_space. simpl. intros Hs. apply andb_true_iff in Hs as [H1 H2].
  apply Z.eqb_eq in H1. apply orb_true_iff in H2 as [H2|H2]; apply Z.eqb_eq in H2; lia.
Qed.

Lemma py_space_3 (a b c : ascii) :
  py_space [a; b; c] = true -> 225 <= byte a <= 227 /\ 128 <= byte b /\ 128 <= byte c.
Proof.
  unfold py_space. simpl. intros Hs.
  repeat match type of Hs with
         | (_ || _)%bool = true => apply orb_true_iff in Hs as [Hs|Hs]
         end;
    repeat match goal with
           | H : (_ && _)%bool = true |- _ => apply andb_true_iff in H as [? ?]
           | H : (_ || _)%bool = true |- _ => apply orb_true_iff in H as [H|H]
           | H : (_ =? _) = true |- _ => apply Z.eqb_eq in H
           | H : (_ <=? _) = true |- _ => apply Z.leb_le in H
           end; lia.
Qed.

Lemma py_space_len (w : list ascii) : py_space w = true -> (1 <= length w <= 3)%nat.
Proof.
  destruct w as [|a [|b [|c [|d w]]]]; simpl; intros Hs; try lia; discriminate Hs.
Qed.

Lemma blank_len_spec (rd : list ascii -> list ascii) (s : list ascii) (k : nat) :
  blank_len rd s = S k -> py_space (rd (firstn (S k) s)) = true.
Proof.
  unfold blank_len.
  destruct (py_space (rd (firstn 1 s))) eqn:E1; [intros [= <-]; exact E1|].
  destruct (py_space (rd (firstn 2 s))) eqn:E2; [intros [= <-]; exact E2|].
  destruct (py_space (rd (firstn 3 s))) eqn:E3; [intros [= <-]; exact E3|discriminate].
Qed.

(** A text that starts with a blank encoding starts with a blank. *)
Lemma blank_len_pos (u : list ascii) (j : nat) :
  py_space (firstn j u) = true -> blank_len (fun w => w) u <> O.
Proof.
  intros Hs. pose proof (py_space_len _ Hs) as Hlen.
  assert (Hj : firstn j u = firstn (length (firstn j u)) u).
  { rewrite List.length_firstn. destruct (Nat.le_ge_cases j (length u)).
    - rewrite Nat.min_l by lia. reflexivity.
    - rewrite Nat.min_r by lia. rewrite !List.firstn_all2 by lia. reflexivity. }
  rewrite Hj in Hs. unfold blank_len.
  destruct (length (firstn j u)) as [|[|[|[|n]]]]; try lia.
  - rewrite Hs. discriminate.
  - destruct (py_space (firstn 1 u)); [discriminate|]. rewrite Hs. discriminate.
  - destruct (py_space (firstn 1 u)); [discriminate|].
    destruct (py_space (firstn 2 u)); [discriminate|]. rewrite Hs. discriminate.
Qed.

Lemma blank_len_app (bl u : list ascii) (k : nat) :
  blank_len (fun w => w) bl = S k -> blank_len (fun w => w) (bl ++ u) = S k.
Proof.
  unfold blank_len.
  destruct bl as [|a [|b [|c bl]]]; cbn [firstn app]; rewrite ?List.firstn_O.
  - discriminate.
  - destruct (py_space [a]); [auto|discriminate].
  - destruct (py_space [a]); [auto|]. destruct (py_space [a; b]); [auto|discriminate].
  - auto.
Qed.

(** A line that starts with no blank starts with none when a newline follows. *)
Lemma blank_len_line (t tail : list ascii) :
  t <> [] -> blank_len (fun w => w) t = O ->
  tail = [] \/ (exists x, tail = newline :: x) ->
  blank_len (fun w => w) (t ++ tail) = O.
Proof.
  intros Ht Hb [->|[x ->]]; [rewrite List.app_nil_r; exact Hb|].
  revert Hb. unfold blank_len.
  destruct t as [|a [|b [|c t]]]; cbn [firstn app]; rewrite ?List.firstn_O;
    [contradiction| | |auto].
  - destruct (py_space [a]); [discriminate|]. intros _.
    destruct (py_space [a; newline]) eqn:E2.
    { apply py_space_2 in E2. rewrite byte_newline in E2. lia. }
    destruct x as [|y x]; cbn [firstn]; rewrite ?List.firstn_O; [rewrite E2; reflexivity|].
    destruct (py_space [a; newline; y]) eqn:E3; [|reflexivity].
    apply py_space_3 in E3. rewrite byte_newline in E3. lia.
  - destruct (py_space [a]); [discriminate|].
    destruct (py_space [a; b]); [discriminate|]. intros _.
    destruct (py_space [a; b; newline]) eqn:E3; [|reflexivity].
    apply py_space_3 in E3. rewrite byte_newline in E3. lia.
Qed.

(** ** Characters *)

Lemma is_cont_newline : is_cont newline = false.
Proof. reflexivity. Qed.

Lemma take_cont_le (k : nat) (s : list ascii) : (take_cont k s <= length s)%nat.
Proof.
  revert s. induction k as [|k IH]; intros [|c s]; simpl; try lia.
  destruct (is_cont c); [specialize (IH s)|]; lia.
Qed.

Lemma take_cont_app (k : nat) (l tail : list ascii) :
  tail = [] \/ (exists x, tail = newline :: x) ->
  take_cont k (l ++ tail) = take_cont k l.
Proof.
  intros Ht. revert l. induction k as [|k IH]; intros l; [destruct (l ++ tail), l; reflexivity|].
  destruct l as [|c l]; simpl.
  - destruct Ht as [->|[x ->]]; [reflexivity|]. rewrite is_cont_newline. reflexivity.
  - destruct (is_cont c); [rewrite IH|]; reflexivity.
Qed.

Lemma take_cont_firstn (k : nat) (s : list ascii) :
  Forall (fun c => is_cont c = true) (firstn (take_cont k s) s).
Proof.
  revert s. induction k as [|k IH]; intros [|c s]; simpl; try constructor.
  destruct (is_cont c) eqn:E; simpl; constructor; auto.
Qed.

Lemma char_len_app (a : ascii) (l tail : list ascii) :
  tail = [] \/ (exists x, tail = newline :: x) ->
  char_len ((a :: l) ++ tail) = char_len (a :: l)
  /\ (1 <= char_len (a :: l) <= length (a :: l))%nat.
Proof.
  intros Ht. simpl. rewrite (take_cont_app _ _ _ Ht).
  pose proof (take_cont_le (lead_extra a) l). split; [reflexivity|lia].
Qed.

Lemma skipn_app_le {A} (n : nat) (l1 l2 : list A) :
  (n <= length l1)%nat -> skipn n (l1 ++ l2) = skipn n l1 ++ l2.
Proof.
  intros Hn. rewrite List.skipn_app. replace (n - length l1)%nat with O by lia. reflexivity.
Qed.

Lemma firstn_app_le {A} (n : nat) (l1 l2 : list A) :
  (n <= length l1)%nat -> firstn n (l1 ++ l2) = firstn n l1.
Proof.
  intros Hn. rewrite List.firstn_app. replace (n - length l1)%nat with O by lia.
  simpl. apply List.app_nil_r.
Qed.

(** ** The equations of the matcher *)

Lemma re_alts_seq (r1 r2 : regex) (s : cursor) :
  re_alts (R_seq r1 r2) s = flat_map (re_alts r2) (re_alts r1 s).
Proof. reflexivity. Qed.

Lemma re_alts_many (min : nat) (r : regex) (s : cursor) :
  re_alts (R_many min r) s = rounds (re_alts r) (S (length (cur_rest s))) min s.
Proof. reflexivity. Qed.

Lemma re_alts_group (r : regex) (s : cursor) :
  re_alts (R_group r) s
  = List.map
      (fun s' =>
         {| cur_bol := cur_bol s'; cur_rest := cur_rest s';
            cur_group := Some (firstn (length (cur_rest s) - length (cur_rest s'))
                                      (cur_rest s)) |})
      (re_alts r s).
Proof. reflexivity. Qed.

Lemma rounds_step (alts : cursor -> list cursor) (fuel min : nat) (s : cursor) :
  rounds alts (S fuel) min s
  = flat_map (rounds alts fuel (Nat.pred min)) (alts s)
    ++ match min with O => [s] | S _ => [] end.
Proof. reflexivity. Qed.

(** ** [.+$] takes the rest of the line *)

Lemma eol_at (b : bool) (tail : list ascii) (g : option (list ascii)) :
  tail = [] \/ (exists x, tail = newline :: x) ->
  re_alts R_eol {| cur_bol := b; cur_rest := tail; cur_group := g |}
  = [{| cur_bol := b; cur_rest := tail; cur_group := g |}].
Proof.
  intros [->|[x ->]]; reflexivity.
Qed.

Lemma any_rounds_eol (fuel : nat) :
  forall (line tail : list ascii) (b : bool) (g : option (list ascii)) (min : nat),
    (length line < fuel)%nat -> ~ List.In newline line ->
    tail = [] \/ (exists x, tail = newline :: x) ->
    min = O \/ (min = 1%nat /\ line <> []) ->
    exists b',
      flat_map (re_alts R_eol)
               (rounds (re_alts R_any) fuel min
                       {| cur_bol := b; cur_rest := line ++ tail; cur_group := g |})
      = [{| cur_bol := b'; cur_rest := tail; cur_group := g |}].
Proof.
  induction fuel as [|fuel IH]; intros line tail b g min Hlen Hnl Ht Hmin; [lia|].
  destruct line as [|a line].
  - destruct Hmin as [->|[_ Hne]]; [|contradiction]. exists b. simpl.
    assert (Hany : re_alts R_any {| cur_bol := b; cur_rest := tail; cur_group := g |} = []).
    { destruct Ht as [->|[x ->]]; reflexivity. }
    simpl in Hany. rewrite Hany. simpl. rewrite List.app_nil_r.
    apply (eol_at b tail g Ht).
  - assert (Ha : Ascii.eqb a newline = false).
    { apply Ascii.eqb_neq. intros ->. apply Hnl. left. reflexivity. }
    destruct (char_len_app a line tail Ht) as [Hk [Hk1 Hk2]].
    set (k := char_len (a :: line)) in *.
    cbn [rounds]. 
    assert (Hany : re_alts R_any {| cur_bol := b; cur_rest := (a :: line) ++ tail;
                                    cur_group := g |}
                   = [{| cur_bol := Ascii.eqb (List.last (firstn k ((a :: line) ++ tail))
                                                         "000"%char) newline;
                         cur_rest := skipn k (a :: line) ++ tail;
                         cur_group := g |}]).
    { cbn [re_alts cur_rest app]. rewrite Ha. unfold advance. cbn [cur_rest cur_group].
      change (a :: line ++ tail) with ((a :: line) ++ tail). rewrite Hk.
      rewrite skipn_app_le by exact Hk2. reflexivity. }
    rewrite Hany. cbn [flat_map]. rewrite List.app_nil_r, List.flat_map_app.
    destruct (IH (skipn k (a :: line)) tail
                 (Ascii.eqb (List.last (firstn k ((a :: line) ++ tail)) "000"%char) newline)
                 g (Nat.pred min)) as [b' Hb'].
    + rewrite List.length_skipn. simpl in *. lia.
    + intros Hin. apply Hnl. rewrite <- (List.firstn_skipn k (a :: line)).
      apply List.in_app_iff. right. exact Hin.
    + exact Ht.
    + left. destruct Hmin as [->|[-> _]]; reflexivity.
    + exists b'. rewrite Hb'.
      assert (Hs : flat_map (re_alts R_eol)
                     (match min with
                      | O => [{| cur_bol := b; cur_rest := (a :: line) ++ tail;
                                 cur_group := g |}]
                      | S _ => []
                      end) = []).
      { destruct min; [|reflexivity]. simpl. rewrite Ha. reflexivity. }
      rewrite Hs. reflexivity.
Qed.

Lemma eol_map_group (f : cursor -> cursor) (l : list cursor) :
  (forall s, cur_rest (f s) = cur_rest s) ->
  flat_map (re_alts R_eol) (List.map f l) = List.map f (flat_map (re_alts R_eol) l).
Proof.
  intros Hf. induction l as [|s l IH]; [reflexivity|].
  cbn [List.map flat_map]. rewrite List.map_app, IH. f_equal.
  simpl. rewrite Hf. destruct (cur_rest s) as [|a r]; [reflexivity|].
  destruct (Ascii.eqb a newline); reflexivity.
Qed.

(** [(.+)$] on a line: the group is the line. *)
Lemma group_line (line tail : list ascii) (b : bool) (g : option (list ascii)) :
  line <> [] -> ~ List.In newline line ->
  tail = [] \/ (exists x, tail = newline :: x) ->
  exists b',
    re_alts (R_seq (R_group (R_many 1 R_any)) R_eol)
            {| cur_bol := b; cur_rest := line ++ tail; cur_group := g |}
    = [{| cur_bol := b'; cur_rest := tail; cur_group := Some line |}].
Proof.
  intros Hne Hnl Ht. rewrite re_alts_seq, re_alts_group, re_alts_many. cbn [cur_rest].
  rewrite eol_map_group by reflexivity.
  destruct (any_rounds_eol (S (length (line ++ tail))) line tail b g 1) as [b' Hb'];
    [rewrite List.length_app; lia|assumption|assumption|right; auto|].
  rewrite Hb'. exists b'. cbn [List.map cur_bol cur_rest]. f_equal. f_equal. f_equal.
  rewrite List.length_app.
  replace (length line + length tail - length tail)%nat with (length line) by lia.
  rewrite firstn_app_le by lia. apply List.firstn_all.
Qed.

(** ** [\s+] takes every blank *)

Lemma re_alts_space (s : cursor) (k : nat) :
  blank_len (fun w => w) (cur_rest s) = S k -> re_alts R_space s = [advance (S k) s].
Proof. intros Hb. cbn [re_alts]. rewrite Hb. reflexivity. Qed.

Lemma re_alts_space_none (s : cursor) :
  blank_len (fun w => w) (cur_rest s) = O -> re_alts R_space s = [].
Proof. intros Hb. cbn [re_alts]. rewrite Hb. reflexivity. Qed.

Lemma lstrip_skip (bl : list ascii) (k : nat) :
  lstrip_bytes bl = [] -> blank_len (fun w => w) bl = S k ->
  lstrip_bytes (skipn (S k) bl) = [].
Proof.
  unfold lstrip_bytes. intros Hl Hb.
  destruct bl as [|a bl]; [reflexivity|].
  cbn [length drop_blanks] in Hl. rewrite Hb in Hl.
  rewrite <- Hl. apply drop_blanks_fuel; [reflexivity|lia|].
  rewrite List.length_skipn. simpl. lia.
Qed.

Lemma blank_len_bound (bl : list ascii) (k : nat) :
  blank_len (fun w => w) bl = S k -> (S k <= length bl)%nat.
Proof.
  pose proof (blank_len_le (fun w => w) bl) as H3. revert H3. unfold blank_len.
  destruct bl as [|a [|b [|c bl]]]; cbn [firstn length]; rewrite ?List.firstn_O.
  - intros _. discriminate.
  - intros _. destruct (py_space [a]); [intros [= <-]; lia|discriminate].
  - intros _. destruct (py_space [a]); [intros [= <-]; lia|].
    destruct (py_space [a; b]); [intros [= <-]; lia|discriminate].
  - intros H3 Hk. rewrite Hk in H3. lia.
Qed.

Lemma space_rounds_head (fuel : nat) :
  forall (bl u : list ascii) (b : bool) (g : option (list ascii)) (min : nat),
    (length bl < fuel)%nat -> lstrip_bytes bl = [] -> blank_len (fun w => w) u = O ->
    min = O \/ (min = 1%nat /\ bl <> []) ->
    exists b' others,
      rounds (re_alts R_space) fuel min
             {| cur_bol := b; cur_rest := bl ++ u; cur_group := g |}
      = {| cur_bol := b'; cur_rest := u; cur_group := g |} :: others.
Proof.
  induction fuel as [|fuel IH]; intros bl u b g min Hlen Hbl Hu Hmin; [lia|].
  destruct bl as [|a bl].
  - destruct Hmin as [->|[_ Hne]]; [|contradiction]. exists b, [].
    rewrite rounds_step, re_alts_space_none by exact Hu. reflexivity.
  - destruct (blank_len (fun w => w) (a :: bl)) as [|k] eqn:Hb.
    { rewrite (lstrip_fix _ Hb) in Hbl. discriminate. }
    pose proof (blank_len_bound _ _ Hb) as Hk.
    pose proof (blank_len_app _ u _ Hb) as Hbu.
    destruct (IH (skipn (S k) (a :: bl)) u
                 (Ascii.eqb (List.last (firstn (S k) ((a :: bl) ++ u)) "000"%char) newline)
                 g O) as (b' & others & Hr).
    + rewrite List.length_skipn. simpl in *. lia.
    + apply lstrip_skip; assumption.
    + exact Hu.
    + left. reflexivity.
    + assert (Hadv : re_alts R_space {| cur_bol := b; cur_rest := (a :: bl) ++ u;
                                        cur_group := g |}
                     = [{| cur_bol := Ascii.eqb (List.last (firstn (S k) ((a :: bl) ++ u))
                                                           "000"%char) newline;
                           cur_rest := skipn (S k) (a :: bl) ++ u;
                           cur_group := g |}]).
      { rewrite (re_alts_space _ k) by exact Hbu. unfold advance. cbn [cur_rest cur_group].
        rewrite skipn_app_le by exact Hk. reflexivity. }
      exists b'. eexists. rewrite rounds_step, Hadv. cbn [flat_map].
      replace (Nat.pred min) with O by (destruct Hmin as [->|[-> _]]; reflexivity).
      rewrite Hr, List.app_nil_r. cbn [app]. reflexivity.
Qed.

(** ** The heading pattern *)

(** On [#], blanks, and a line that starts with no blank, the match is the
    whole up to the end of the line and the group is the line. *)
Lemma heading_match (bl t tail before : list ascii) :
  bl <> [] -> lstrip_bytes bl = [] ->
  t <> [] -> blank_len (fun w => w) t = O -> ~ List.In newline t ->
  tail = [] \/ (exists x, tail = newline :: x) ->
  exists m,
    match_at heading_re before (start_cursor ("#"%char :: bl ++ t ++ tail)) = Some m
    /\ m_group m = Some t.
Proof.
  intros Hbl Hall Ht Hb Hnl Htail.
  unfold match_at, heading_re.
  rewrite re_alts_seq.
  replace (re_alts R_bol (start_cursor ("#"%char :: bl ++ t ++ tail)))
    with [start_cursor ("#"%char :: bl ++ t ++ tail)] by reflexivity.
  cbn [flat_map]. rewrite List.app_nil_r, re_alts_seq.
  replace (re_alts (R_char "#") (start_cursor ("#"%char :: bl ++ t ++ tail)))
    with [{| cur_bol := false; cur_rest := bl ++ t ++ tail; cur_group := None |}]
    by reflexivity.
  cbn [flat_map]. rewrite List.app_nil_r, re_alts_seq, re_alts_many. cbn [cur_rest].
  destruct (space_rounds_head (S (length (bl ++ t ++ tail))) bl (t ++ tail)
              false None 1) as (b' & others & Hr).
  - rewrite List.length_app. lia.
  - exact Hall.
  - apply blank_len_line; assumption.
  - right. auto.
  - rewrite Hr. cbn [flat_map].
    destruct (group_line t tail b' None Ht Hnl Htail) as [b2 Hg].
    rewrite Hg. cbn [app]. eexists. split; [reflexivity|]. reflexivity.
Qed.

(** Without a mark, no match. *)
Lemma heading_needs_mark (s : cursor) :
  re_alts heading_re s <> [] ->
  cur_bol s = true
  /\ exists t, cur_rest s = "#"%char :: t /\ blank_len (fun w => w) t <> O.
Proof.
  unfold heading_re. rewrite re_alts_seq.
  assert (Hbol : re_alts R_bol s = if cur_bol s then [s] else []) by reflexivity.
  rewrite Hbol. destruct (cur_bol s); [|intros Hc; contradiction Hc; reflexivity].
  cbn [flat_map]. rewrite List.app_nil_r, re_alts_seq.
  assert (Hch : re_alts (R_char "#") s
                = match cur_rest s with
                  | a :: _ => if Ascii.eqb a "#"%char then [advance 1 s] else []
                  | [] => []
                  end) by reflexivity.
  rewrite Hch.
  destruct (cur_rest s) as [|a t] eqn:Hrest; [intros Hc; contradiction Hc; reflexivity|].
  destruct (Ascii.eqb_spec a "#"%char) as [->|Hne];
    [|intros Hc; contradiction Hc; reflexivity].
  intros Hm. split; [reflexivity|]. exists t. split; [reflexivity|].
  intros Hb. apply Hm. cbn [flat_map]. rewrite List.app_nil_r, re_alts_seq, re_alts_many.
  rewrite rounds_step, re_alts_space_none; [reflexivity|].
  unfold advance. cbn [cur_rest]. rewrite Hrest. exact Hb.
Qed.

Lemma heading_mark_skip (k : nat) :
  forall (b : bool) (s : list ascii),
    heading_mark b s = false -> (1 <= k <= length s)%nat ->
    heading_mark (Ascii.eqb (List.last (firstn k s) "000"%char) newline) (skipn k s) = false.
Proof.
  induction k as [|k IH]; intros b s Hm Hk; [lia|].
  destruct s as [|c s]; [simpl in Hk; lia|].
  cbn [heading_mark] in Hm. apply orb_false_iff in Hm as [_ Hm].
  destruct k as [|k].
  - simpl. exact Hm.
  - specialize (IH _ _ Hm). cbn [skipn firstn].
    destruct s as [|c' s]; [simpl in Hk; lia|].
    cbn [firstn] in *. cbn [List.last]. cbn [List.last] in IH.
    apply IH. simpl in *. lia.
Qed.

Lemma search_no_mark (fuel : nat) :
  forall (before : list ascii) (s : cursor),
    heading_mark (cur_bol s) (cur_rest s) = false ->
    search_from heading_re fuel before s = None.
Proof.
  induction fuel as [|fuel IH]; intros before s Hm.
  - cbn [search_from]. unfold match_at.
    destruct (re_alts heading_re s) as [|s' l] eqn:E; [reflexivity|exfalso].
    destruct (heading_needs_mark s) as (Hb & t & Hr & Hbl); [rewrite E; discriminate|].
    rewrite Hb, Hr in Hm. cbn [heading_mark] in Hm.
    rewrite Ascii.eqb_refl in Hm. destruct (blank_len (fun w => w) t); [contradiction|].
    discriminate Hm.
  - cbn [search_from]. unfold match_at.
    destruct (re_alts heading_re s) as [|s' l] eqn:E.
    + destruct (char_len (cur_rest s)) as [|k] eqn:Hk; [reflexivity|].
      apply IH. unfold advance. cbn [cur_bol cur_rest].
      apply (heading_mark_skip (S k) (cur_bol s)); [exact Hm|].
      split; [lia|]. rewrite <- Hk. destruct (cur_rest s) as [|a r]; [discriminate|].
      simpl. pose proof (take_cont_le (lead_extra a) r). lia.
    + exfalso.
      destruct (heading_needs_mark s) as (Hb & t & Hr & Hbl); [rewrite E; discriminate|].
      rewrite Hb, Hr in Hm. cbn [heading_mark] in Hm.
      rewrite Ascii.eqb_refl in Hm. destruct (blank_len (fun w => w) t); [contradiction|].
      discriminate Hm.
Qed.

End RegexFacts.

(** ** The Markdown and the HTML adapter *)

(** ** The adapters *)

Section AdapterFacts.

Lemma list_of_append (s1 s2 : string) :
  list_ascii_of_string (String.append s1 s2)
  = list_ascii_of_string s1 ++ list_ascii_of_string s2.
Proof. induction s1 as [|a s1 IH]; simpl; [reflexivity|]. rewrite IH. reflexivity. Qed.

Lemma string_of_list_inj (l1 l2 : list ascii) :
  string_of_list_ascii l1 = string_of_list_ascii l2 -> l1 = l2.
Proof.
  intros Heq. rewrite <- (list_of_string_of_list l1), <- (list_of_string_of_list l2), Heq.
  reflexivity.
Qed.

Lemma list_of_string_nil (s : string) : list_ascii_of_string s = [] -> s = EmptyString.
Proof. destruct s; [reflexivity|discriminate]. Qed.

(** ** A text that strips to nothing consists of blanks *)

Lemma drop_all_last (rd : list ascii -> list ascii) (fuel : nat) :
  forall r, r <> [] -> drop_blanks rd fuel r = [] ->
            exists m k, blank_len rd (skipn m r) = S k /\ skipn (S k) (skipn m r) = []
                        /\ skipn m r <> [].
Proof.
  induction fuel as [|fuel IH]; intros r Hr Hd; simpl in Hd; [contradiction|].
  destruct (blank_len rd r) as [|k] eqn:Hb; [contradiction|].
  destruct (skipn (S k) r) as [|a x] eqn:Hs.
  - exists O, k. simpl skipn at 1. change (skipn 0 r) with r. auto.
  - destruct (IH (a :: x)) as (m & k' & H1 & H2 & H3); [discriminate|exact Hd|].
    exists (m + S k)%nat, k'. rewrite <- List.skipn_skipn, Hs. auto.
Qed.

Lemma rstrip_nonempty (t : list ascii) :
  t <> [] -> blank_len (fun w => w) t = O -> rstrip_bytes t <> [].
Proof.
  intros Ht Hb Hr. unfold rstrip_bytes in Hr.
  assert (Hd : drop_blanks (@List.rev ascii) (length t) (List.rev t) = []).
  { rewrite <- (List.rev_involutive (drop_blanks _ _ _)), Hr. reflexivity. }
  destruct (drop_all_last (@List.rev ascii) (length t) (List.rev t)) as (m & k & Hk & Hall & Hne);
    [|exact Hd|].
  { intros Hn. apply Ht. rewrite <- (List.rev_involutive t), Hn. reflexivity. }
  apply blank_len_spec in Hk.
  assert (Hf : firstn (S k) (skipn m (List.rev t)) = skipn m (List.rev t)).
  { rewrite <- (List.firstn_skipn (S k) (skipn m (List.rev t))) at 2.
    rewrite Hall, List.app_nil_r. reflexivity. }
  rewrite Hf, List.skipn_rev, List.rev_involutive in Hk.
  exact (blank_len_pos _ _ Hk Hb).
Qed.

Lemma strip_line (t : string) :
  t <> EmptyString -> starts_blank t = false -> strip t <> EmptyString.
Proof.
  intros Ht Hs. unfold starts_blank in Hs. apply negb_false_iff, Nat.eqb_eq in Hs.
  unfold strip. rewrite (lstrip_fix _ Hs). intros Hn.
  apply (rstrip_nonempty (list_ascii_of_string t)).
  - intros Hl. apply Ht, list_of_string_nil, Hl.
  - exact Hs.
  - apply string_of_list_inj. exact Hn.
Qed.

Lemma str_or_some (s dflt : string) : s <> EmptyString -> str_or (Some s) dflt = s.
Proof. destruct s; [contradiction|reflexivity]. Qed.

Lemma str_or_nonempty (v : option string) (dflt : string) :
  dflt <> EmptyString -> str_or v dflt <> EmptyString.
Proof. destruct v as [[|a s]|]; simpl; auto; discriminate. Qed.

Lemma one_line_spec (t : string) :
  one_line t = true -> ~ List.In newline (list_ascii_of_string t).
Proof.
  unfold one_line. intros Hl Hin. rewrite forallb_forall in Hl.
  specialize (Hl _ Hin). rewrite Ascii.eqb_refl in Hl. discriminate.
Qed.

Lemma line_end_spec (tail : string) :
  line_end tail = true ->
  list_ascii_of_string tail = [] \/ exists x, list_ascii_of_string tail = newline :: x.
Proof.
  destruct tail as [|c tail]; simpl; [auto|]. intros Hc. apply Ascii.eqb_eq in Hc.
  subst c. right. eauto.
Qed.

Lemma search_at_start (r : regex) (l : list ascii) (m : re_match) :
  match_at r [] (start_cursor l) = Some m -> 
  search_from r (length l) [] (start_cursor l) = Some m.
Proof. intros Hm. destruct (length l); simpl; rewrite Hm; reflexivity. Qed.

(** X11.  The title of a Markdown file is the text of a heading that opens it:
    after [#] and blanks (a newline is one), the rest of the line, stripped. *)
Theorem perplexity_title_heading (name b t tail : string) :
  b <> EmptyString -> all_blanks b = true ->
  t <> EmptyString -> starts_blank t = false -> one_line t = true ->
  line_end tail = true ->
  dd_title (ingest_perplexity_markdown name
              (String "#" (String.append b (String.append t tail))))
  = Some (strip t).
Proof.
  intros Hb Hall Ht Hs Hl Hend.
  unfold ingest_perplexity_markdown, re_search. cbn [dd_title list_ascii_of_string].
  rewrite !list_of_append.
  destruct (heading_match (list_ascii_of_string b) (list_ascii_of_string t)
              (list_ascii_of_string tail) []) as (m & Hm & Hg).
  - intros Hn. apply Hb, list_of_string_nil, Hn.
  - unfold all_blanks in Hall. destruct (lstrip_bytes (list_ascii_of_string b));
      [reflexivity|discriminate].
  - intros Hn. apply Ht, list_of_string_nil, Hn.
  - unfold starts_blank in Hs. apply negb_false_iff, Nat.eqb_eq in Hs. exact Hs.
  - apply one_line_spec, Hl.
  - apply line_end_spec, Hend.
  - rewrite (search_at_start _ _ _ Hm). unfold group1. rewrite Hg.
    rewrite string_of_list_ascii_of_string.
    rewrite str_or_some by (apply strip_line; assumption). reflexivity.
Qed.

(** X12.  Without a line that starts with [#] and a blank the title is the
    default, made from the name of the file: a line such as [##] or a [#tag]
    is no heading. *)
Theorem perplexity_title_default (name text : string) :
  heading_mark true (list_ascii_of_string text) = false ->
  dd_title (ingest_perplexity_markdown name text)
  = Some (String.append "Perplexity export: " name).
Proof.
  intros Hm. unfold ingest_perplexity_markdown, re_search. cbn [dd_title].
  rewrite search_no_mark by exact Hm. reflexivity.
Qed.

(** X13.  Every dict of the Markdown adapter has a title that is not empty, no
    creation time, and a content without blanks at either end. *)
Theorem perplexity_doc_shape (name text : string) :
  (exists ttl, dd_title (ingest_perplexity_markdown name text) = Some ttl
               /\ ttl <> EmptyString)
  /\ dd_created_at (ingest_perplexity_markdown name text) = None
  /\ (exists cnt, dd_content (ingest_perplexity_markdown name text) = Some cnt
                  /\ cnt = strip text /\ strip cnt = cnt).
Proof.
  split; [|split; [reflexivity|]].
  - eexists. split; [reflexivity|]. apply str_or_nonempty. discriminate.
  - eexists. split; [reflexivity|]. split; [reflexivity|]. apply strip_strip.
Qed.

(** ** Runs of newlines *)

Lemma re_alts_nl (s : cursor) :
  re_alts (R_char newline) s
  = match cur_rest s with
    | a :: _ => if Ascii.eqb a newline then [advance 1 s] else []
    | [] => []
    end.
Proof. reflexivity. Qed.

Lemma nl_rounds_none (fuel : nat) :
  forall (s : cursor) (min : nat),
    (nl_run (cur_rest s) < min)%nat ->
    rounds (re_alts (R_char newline)) fuel min s = [].
Proof.
  induction fuel as [|fuel IH]; intros s min Hk; [reflexivity|].
  rewrite rounds_step, re_alts_nl.
  destruct min as [|min]; [lia|]. rewrite List.app_nil_r.
  destruct (cur_rest s) as [|a r] eqn:Hr; [reflexivity|].
  revert Hk. simpl. destruct (Ascii.eqb a newline); intros Hk; [|reflexivity].
  cbn [flat_map]. rewrite IH; [reflexivity|].
  unfold advance. cbn [cur_rest]. rewrite Hr. simpl. rewrite ?List.skipn_O. lia.
Qed.

Lemma nl_rounds_head (fuel : nat) :
  forall (s : cursor) (min : nat),
    (nl_run (cur_rest s) < fuel)%nat -> (min <= nl_run (cur_rest s))%nat ->
    exists b' others,
      rounds (re_alts (R_char newline)) fuel min s
      = {| cur_bol := b'; cur_rest := skipn (nl_run (cur_rest s)) (cur_rest s);
           cur_group := cur_group s |} :: others.
Proof.
  induction fuel as [|fuel IH]; intros s min Hf Hmin; [lia|].
  rewrite rounds_step, re_alts_nl.
  destruct (cur_rest s) as [|a r] eqn:Hr.
  - simpl in Hmin. replace min with O by lia. exists (cur_bol s), [].
    destruct s; simpl in *; subst; reflexivity.
  - revert Hf Hmin. simpl nl_run. destruct (Ascii.eqb a newline) eqn:Ha; intros Hf Hmin.
    + destruct (IH (advance 1 s) (Nat.pred min)) as (b' & others & Hh).
      * unfold advance. cbn [cur_rest]. rewrite Hr. simpl. rewrite ?List.skipn_O. lia.
      * unfold advance. cbn [cur_rest]. rewrite Hr. simpl. rewrite ?List.skipn_O. lia.
      * exists b'. eexists. cbn [flat_map]. rewrite Hh.
        unfold advance. cbn [cur_rest cur_group]. rewrite Hr. cbn [skipn app]. reflexivity.
    + replace min with O by lia. exists (cur_bol s), [].
      destruct s; simpl in *; subst; reflexivity.
Qed.

Lemma nl_run_le (l : list ascii) : (nl_run l <= length l)%nat.
Proof.
  induction l as [|a l IH]; simpl; [lia|]. destruct (Ascii.eqb a newline); lia.
Qed.

(** [\n{3,}] at a cursor: the whole run, when it has three newlines. *)
Lemma blank_lines_at (s : cursor) :
  match match_at blank_lines_re [] s with
  | Some m => (3 <= nl_run (cur_rest s))%nat /\ length (m_text m) = nl_run (cur_rest s)
  | None => (nl_run (cur_rest s) < 3)%nat
  end.
Proof.
  unfold match_at, blank_lines_re. rewrite re_alts_many.
  pose proof (nl_run_le (cur_rest s)) as Hle.
  destruct (Nat.le_gt_cases 3 (nl_run (cur_rest s))) as [H3|H3].
  - destruct (nl_rounds_head (S (length (cur_rest s))) s 3) as (b' & others & Hh);
      [lia|exact H3|].
    rewrite Hh. cbn [m_text cur_rest]. split; [exact H3|].
    rewrite List.length_firstn, List.length_skipn. lia.
  - rewrite nl_rounds_none by exact H3. exact H3.
Qed.

Lemma max_nl_run_ge (l : list ascii) : (nl_run l <= max_nl_run l)%nat.
Proof. destruct l; simpl; lia. Qed.

Lemma max_nl_run_plain (w l : list ascii) :
  ~ List.In newline w -> max_nl_run (w ++ l) = max_nl_run l.
Proof.
  induction w as [|a w IH]; intros Hw; [reflexivity|].
  cbn [app max_nl_run nl_run].
  destruct (Ascii.eqb_spec a newline) as [->|Hne]; [exfalso; apply Hw; left; reflexivity|].
  rewrite IH; [reflexivity|]. intros Hin. apply Hw. right. exact Hin.
Qed.

Lemma cont_not_newline (w : list ascii) :
  Forall (fun c => is_cont c = true) w -> ~ List.In newline w.
Proof.
  intros Hw Hin. rewrite List.Forall_forall in Hw. specialize (Hw _ Hin).
  rewrite is_cont_newline in Hw. discriminate.
Qed.

Lemma nl_run_skip (l : list ascii) : nl_run (skipn (nl_run l) l) = O.
Proof.
  induction l as [|a l IH]; [reflexivity|]. simpl.
  destruct (Ascii.eqb a newline) eqn:Ha; simpl; [exact IH|]. rewrite Ha. reflexivity.
Qed.

Lemma nl_run_cons_nl (l : list ascii) : nl_run (newline :: l) = S (nl_run l).
Proof. reflexivity. Qed.

Lemma max_nl_run_cons_nl (l : list ascii) :
  max_nl_run (newline :: l) = Nat.max (S (nl_run l)) (max_nl_run l).
Proof. reflexivity. Qed.

Lemma nl_run_cons_other (a : ascii) (l : list ascii) :
  a <> newline -> nl_run (a :: l) = O.
Proof.
  intros Hne. simpl. destruct (Ascii.eqb_spec a newline); [contradiction|reflexivity].
Qed.

Lemma sub_from_runs (fuel : nat) :
  forall s : cursor,
    (length (cur_rest s) <= fuel)%nat ->
    (max_nl_run (sub_from blank_lines_re [newline; newline] fuel s) <= 2)%nat
    /\ (nl_run (sub_from blank_lines_re [newline; newline] fuel s)
        <= nl_run (cur_rest s))%nat.
Proof.
  induction fuel as [|fuel IH]; intros s Hlen.
  - cbn [sub_from]. destruct (cur_rest s); [simpl; lia|simpl in Hlen; lia].
  - cbn [sub_from]. pose proof (blank_lines_at s) as Hat.
    destruct (match_at blank_lines_re [] s) as [m|].
    + destruct Hat as [H3 Hm]. rewrite Hm.
      pose proof (nl_run_le (cur_rest s)) as Hle.
      destruct (IH (advance (nl_run (cur_rest s)) s)) as [I1 I2].
      { unfold advance. cbn [cur_rest]. rewrite List.length_skipn. lia. }
      assert (Hrest : nl_run (cur_rest (advance (nl_run (cur_rest s)) s)) = O)
        by (unfold advance; cbn [cur_rest]; apply nl_run_skip).
      rewrite Hrest in I2.
      set (out := sub_from blank_lines_re [newline; newline] fuel
                           (advance (nl_run (cur_rest s)) s)) in *.
      cbn [app]. rewrite !max_nl_run_cons_nl, !nl_run_cons_nl. lia.
    + destruct (cur_rest s) as [|a r] eqn:Hr; [simpl; lia|].
      cbn [char_len].
      destruct (IH (advance (S (take_cont (lead_extra a) r)) s)) as [I1 I2].
      { unfold advance. cbn [cur_rest]. rewrite Hr, List.length_skipn. simpl in *. lia. }
      assert (Hrest : cur_rest (advance (S (take_cont (lead_extra a) r)) s)
                      = skipn (take_cont (lead_extra a) r) r)
        by (unfold advance; cbn [cur_rest]; rewrite Hr; reflexivity).
      rewrite Hrest in I2.
      set (out := sub_from blank_lines_re [newline; newline] fuel
                           (advance (S (take_cont (lead_extra a) r)) s)) in *.
      cbn [firstn app].
      destruct (Ascii.eqb_spec a newline) as [->|Hne].
      * assert (Ht : take_cont (lead_extra newline) r = O) by reflexivity.
        rewrite Ht in *. rewrite List.skipn_O in I2.
        rewrite List.firstn_O. cbn [app].
        rewrite max_nl_run_cons_nl, !nl_run_cons_nl.
        rewrite nl_run_cons_nl in Hat. lia.
      * change (a :: firstn (take_cont (lead_extra a) r) r ++ out)
          with ((a :: firstn (take_cont (lead_extra a) r) r) ++ out).
        assert (Hw : ~ List.In newline (a :: firstn (take_cont (lead_extra a) r) r)).
        { intros [Hin|Hin]; [congruence|].
          exact (cont_not_newline _ (take_cont_firstn _ _) Hin). }
        rewrite (max_nl_run_plain _ _ Hw). cbn [app].
        rewrite (nl_run_cons_other _ _ Hne). lia.
Qed.

Lemma nl_run_firstn (n : nat) (l : list ascii) : (nl_run (firstn n l) <= nl_run l)%nat.
Proof.
  revert l. induction n as [|n IH]; intros [|a l]; simpl; try lia.
  destruct (Ascii.eqb a newline); [specialize (IH l)|]; lia.
Qed.

Lemma max_nl_run_firstn (n : nat) (l : list ascii) :
  (max_nl_run (firstn n l) <= max_nl_run l)%nat.
Proof.
  revert l. induction n as [|n IH]; intros [|a l]; try (simpl; lia).
  pose proof (nl_run_firstn (S n) (a :: l)) as H1. specialize (IH l).
  cbn [firstn max_nl_run] in *. lia.
Qed.

Lemma max_nl_run_skipn (n : nat) (l : list ascii) :
  (max_nl_run (skipn n l) <= max_nl_run l)%nat.
Proof.
  revert l. induction n as [|n IH]; intros [|a l]; try (simpl; lia).
  specialize (IH l). cbn [skipn max_nl_run]. lia.
Qed.

Lemma max_nl_run_strip (s : string) :
  (max_nl_run (list_ascii_of_string (strip s)) <= max_nl_run (list_ascii_of_string s))%nat.
Proof.
  unfold strip. rewrite list_of_string_of_list.
  destruct (rstrip_prefix (lstrip_bytes (list_ascii_of_string s))) as [n ->].
  unfold lstrip_bytes.
  destruct (drop_blanks_suffix (fun w => w) (length (list_ascii_of_string s))
                               (list_ascii_of_string s)) as [m ->].
  etransitivity; [apply max_nl_run_firstn|apply max_nl_run_skipn].
Qed.

(** X14.  The HTML adapter yields one dict for a file it can read: the title
    names the file, there is no creation time, and the content has no blank at
    either end and no more than two newlines in a row. *)
Theorem html_doc_shape (name text : string) :
  exists cnt,
    ingest_chatgpt_html name (Some text)
    = G_yield {| dd_title := Some (String.append "ChatGPT export: " name);
                 dd_created_at := None;
                 dd_content := Some cnt |} G_return
    /\ strip cnt = cnt
    /\ (max_nl_run (list_ascii_of_string cnt) <= 2)%nat.
Proof.
  eexists. split; [reflexivity|]. split; [apply strip_strip|].
  etransitivity; [apply max_nl_run_strip|].
  unfold re_sub. rewrite list_of_string_of_list.
  apply (sub_from_runs _ (start_cursor (list_ascii_of_string text))).
  reflexivity.
Qed.

End AdapterFacts.

(** ** The Perplexity batch *)

(** ** [ingest_perplexity] and [main] *)

Section SuffixFacts.

Lemma rfind_dot_app (l1 l2 : list ascii) (i : nat) (found : option nat) :
  rfind_dot (l1 ++ l2) i found = rfind_dot l2 (i + length l1) (rfind_dot l1 i found).
Proof.
  revert i found. induction l1 as [|c l1 IH]; intros i found; simpl.
  - rewrite Nat.add_0_r. reflexivity.
  - rewrite IH. f_equal. lia.
Qed.

Lemma rfind_dot_none (l : list ascii) (i : nat) (found : option nat) :
  Forall (fun c => Ascii.eqb c "."%char = false) l -> rfind_dot l i found = found.
Proof.
  intros Hl. revert i. induction Hl as [|c l Hc _ IH]; intros i; simpl; [reflexivity|].
  rewrite Hc. apply IH.
Qed.

Lemma rfind_dot_bound (l : list ascii) (i : nat) (found : option nat) (k : nat) :
  rfind_dot l i found = Some k -> found = Some k \/ (i <= k < i + length l)%nat.
Proof.
  revert i found. induction l as [|c l IH]; intros i found; simpl; [auto|].
  intros Hr. apply IH in Hr as [Hr|Hr]; [|right; lia].
  destruct (Ascii.eqb c "."%char); [injection Hr as <-; right; lia|auto].
Qed.

Lemma fold_case_dot (c : ascii) : fold_case c = "."%char -> c = "."%char.
Proof. destruct c as [[] [] [] [] [] [] [] []]; vm_compute; congruence. Qed.

Lemma fold_case_letter (c x : ascii) :
  fold_case c = x -> is_lower x = true -> Ascii.eqb c "."%char = false.
Proof.
  intros <-. destruct c as [[] [] [] [] [] [] [] []]; vm_compute; congruence.
Qed.

Lemma lower_string_list (s : string) :
  list_ascii_of_string (lower_string s) = List.map fold_case (list_ascii_of_string s).
Proof. unfold lower_string. apply list_ascii_of_string_of_list_ascii. Qed.

(** An extension that reads [.md] or [.txt] in lower case: a dot, then
    letters. *)
Lemma ext_shape (ext : string) :
  lower_string ext = ".md"%string \/ lower_string ext = ".txt"%string ->
  exists w, list_ascii_of_string ext = "."%char :: w /\ w <> []
            /\ Forall (fun c => Ascii.eqb c "."%char = false) w.
Proof.
  intros He.
  assert (Hl : List.map fold_case (list_ascii_of_string ext) = list_ascii_of_string ".md"
               \/ List.map fold_case (list_ascii_of_string ext) = list_ascii_of_string ".txt").
  { rewrite <- lower_string_list. destruct He as [->| ->]; auto. }
  destruct (list_ascii_of_string ext) as [|c0 [|c1 [|c2 [|c3 [|c4 l]]]]];
    destruct Hl as [Hl|Hl]; simpl in Hl; try discriminate Hl.
  - injection Hl as H0 H1 H2. apply fold_case_dot in H0. subst c0.
    exists [c1; c2]. split; [reflexivity|]. split; [discriminate|].
    repeat constructor; eapply fold_case_letter; try eassumption; reflexivity.
  - injection Hl as H0 H1 H2 H3. apply fold_case_dot in H0. subst c0.
    exists [c1; c2; c3]. split; [reflexivity|]. split; [discriminate|].
    repeat constructor; eapply fold_case_letter; try eassumption; reflexivity.
Qed.

Lemma path_suffix_ext (stem ext : string) (w : list ascii) :
  stem <> EmptyString -> list_ascii_of_string ext = "."%char :: w -> w <> [] ->
  Forall (fun c => Ascii.eqb c "."%char = false) w ->
  path_suffix (String.append stem ext) = ext.
Proof.
  intros Hs He Hw Hnd. unfold path_suffix. rewrite list_of_append, He.
  rewrite rfind_dot_app. cbn [rfind_dot]. rewrite Ascii.eqb_refl.
  rewrite rfind_dot_none by exact Hnd. cbn [Nat.add].
  assert (Hlen : (0 < length (list_ascii_of_string stem))%nat).
  { destruct stem; [contradiction|simpl; lia]. }
  assert (Hw' : (0 < length w)%nat) by (destruct w; [contradiction|simpl; lia]).
  replace ((0 <? length (list_ascii_of_string stem))%nat) with true
    by (symmetry; apply Nat.ltb_lt; lia).
  replace ((length (list_ascii_of_string stem)
            <? length (list_ascii_of_string stem ++ "."%char :: w) - 1)%nat) with true
    by (symmetry; apply Nat.ltb_lt; rewrite List.length_app; simpl; lia).
  cbn [andb]. rewrite List.skipn_app, List.skipn_all, Nat.sub_diag. cbn [skipn app].
  rewrite <- He. apply string_of_list_ascii_of_string.
Qed.

Lemma string_of_list_app (l1 l2 : list ascii) :
  string_of_list_ascii (l1 ++ l2)
  = String.append (string_of_list_ascii l1) (string_of_list_ascii l2).
Proof. induction l1 as [|a l1 IH]; simpl; [reflexivity|]. rewrite IH. reflexivity. Qed.

(** X15.  Which files [ingest_perplexity] reads: those whose name ends in
    [.md] or [.txt], in any letter case, with something before the dot. A file
    named [.md] alone is passed over. *)
Theorem markdown_selection (f : pfile) :
  is_markdown f = true <->
  exists stem ext,
    pf_name f = String.append stem ext /\ stem <> EmptyString
    /\ (lower_string ext = ".md"%string \/ lower_string ext = ".txt"%string).
Proof.
  unfold is_markdown. split.
  - intros Hm.
    assert (He : lower_string (path_suffix (pf_name f)) = ".md"%string
                 \/ lower_string (path_suffix (pf_name f)) = ".txt"%string).
    { apply orb_true_iff in Hm as [Hm|Hm]; apply String.eqb_eq in Hm; auto. }
    unfold path_suffix in *.
    destruct (rfind_dot (list_ascii_of_string (pf_name f)) 0 None) as [i|] eqn:Hr;
      [|destruct He as [He|He]; discriminate He].
    destruct ((0 <? i)%nat && (i <? length (list_ascii_of_string (pf_name f)) - 1)%nat)
      eqn:Hi; [|destruct He as [He|He]; discriminate He].
    apply andb_true_iff in Hi as [H0 H1]. apply Nat.ltb_lt in H0, H1.
    exists (string_of_list_ascii (firstn i (list_ascii_of_string (pf_name f)))),
           (string_of_list_ascii (skipn i (list_ascii_of_string (pf_name f)))).
    split; [|split; [|exact He]].
    + rewrite <- string_of_list_app, List.firstn_skipn.
      symmetry. apply string_of_list_ascii_of_string.
    + intros Hn. apply (f_equal list_ascii_of_string) in Hn.
      rewrite list_of_string_of_list in Hn. apply (f_equal (@length ascii)) in Hn.
      rewrite List.length_firstn in Hn. simpl in Hn. lia.
  - intros (stem & ext & Hn & Hs & He).
    destruct (ext_shape ext He) as (w & Hw & Hne & Hnd).
    rewrite Hn, (path_suffix_ext stem ext w Hs Hw Hne Hnd).
    destruct He as [-> | ->]; reflexivity.
Qed.

End SuffixFacts.

Section PerplexityFacts.
Context `{Env}.
Variable clock : nat -> string.


Lemma perplexity_loop_abort (fs1 : list pfile) (f : pfile) (fs2 : list pfile)
    (c : conn) (d : db) (n : nat) :
  live c = Some d -> Forall (fun f => unreadable f = false) fs1 -> unreadable f = true ->
  perplexity_loop clock c (fs1 ++ f :: fs2) n
  = ({| live := Some (upsert_batch clock "perplexity" d (perplexity_docs fs1) n);
        durable := durable c |},
     (n + length (perplexity_docs fs1))%nat, Some ProducerError).
Proof.
  revert c d n. induction fs1 as [|g fs1 IH]; intros c d n Hl Hall Hf.
  - cbn [app perplexity_loop]. unfold unreadable in Hf.
    apply andb_true_iff in Hf as [Hf Ht]. apply andb_true_iff in Hf as [-> ->].
    destruct (pf_text f); [discriminate|]. simpl. rewrite Nat.add_0_r.
    destruct c; simpl in *; subst. reflexivity.
  - apply List.Forall_cons_iff in Hall as [Hg Hall].
    cbn [app perplexity_loop]. unfold perplexity_docs. cbn [flat_map].
    fold (perplexity_docs fs1). unfold unreadable in Hg.
    destruct (pf_is_file g); cbn [negb andb] in *.
    2: { cbn [app]. apply IH; assumption. }
    destruct (is_markdown g); cbn [andb] in *.
    2: { cbn [app]. apply IH; assumption. }
    destruct (pf_text g) as [text|]; [|discriminate].
    rewrite (upsert_doc_ok _ _ _ _ _ _ _ _ Hl).
    erewrite IH by (reflexivity || assumption).
    cbn [app upsert_batch length durable]. f_equal. f_equal. lia.
Qed.

(** X16.  A file that cannot be read ends [ingest_perplexity] with its error:
    the files listed before it have been upserted on the connection, nothing
    is committed, the files after it are not read. *)
Theorem perplexity_unreadable_aborts (c : conn) (d : db) (fs1 : list pfile) (f : pfile)
    (fs2 : list pfile) :
  live c = Some d -> Forall (fun f => unreadable f = false) fs1 -> unreadable f = true ->
  ingest_perplexity clock c (Some (fs1 ++ f :: fs2))
  = ({| live := Some (upsert_batch clock "perplexity" d (perplexity_docs fs1) 0);
        durable := durable c |},
     Raise ProducerError).
Proof.
  intros Hl Hall Hf. unfold ingest_perplexity.
  rewrite (perplexity_loop_abort fs1 f fs2 c d 0 Hl Hall Hf). reflexivity.
Qed.

End PerplexityFacts.

Section PerplexityRerun.
Context `{Env}.


End PerplexityRerun.

(** ** The two programs *)

Section MainFacts.
Context `{Env}.

Lemma init_schema_db (file : option db) :
  init_schema (_db file)
  = {| live := Some (match file with Some d => d | None => empty_db end);
       durable := Some (match file with Some d => d | None => empty_db end) |}.
Proof. reflexivity. Qed.

Lemma ingest_chatgpt_abort (clock : nat -> string) (c : conn) (d : db)
    (es1 : list entry) (e : entry) (es2 : list entry) :
  live c = Some d -> Forall (fun e' => entry_raises e' = false) es1 ->
  entry_raises e = true ->
  exists c', ingest_chatgpt clock c (Some (es1 ++ e :: es2)) = (c', Raise ProducerError)
             /\ durable c' = durable c.
Proof.
  intros Hl Hall He. unfold ingest_chatgpt.
  pose proof (ingest_loop_ok clock es1 c d 0 Hl Hall) as Hloop.
  rewrite (ingest_loop_app clock _ _ _ _ _ _ Hloop). cbn [ingest_loop].
  destruct (ingest_entry_schema clock
              {| live := Some (upsert_batch clock "chatgpt" d (batch_docs es1) 0);
                 durable := durable c |} _ e (0 + length (batch_docs es1)) eq_refl)
    as (d2 & n2 & x2 & Hent & _ & Hr).
  apply Hr in He. subst x2. rewrite Hent. eexists. split; reflexivity.
Qed.

(** X18.  The two batches of [main] are committed one after the other. When an
    adapter of the ChatGPT batch raises, the Perplexity batch does not run and
    nothing of the ChatGPT batch is in the file: a file that had the schema
    keeps what it held (the search program finds what it found before); a
    file without it now has the schema and no document (the search program
    raised for every word before and finds nothing for it now). When a
    Perplexity file cannot be read, the ChatGPT documents are in the file and
    those of the Perplexity batch are not. *)
Theorem main_partial_failure (clock1 clock2 : nat -> string) (file : option db) :
  (forall es1 e es2 perplexity,
      Forall (fun e' => entry_raises e' = false) es1 -> entry_raises e = true ->
      exists c',
        main clock1 clock2 file false (Some (es1 ++ e :: es2)) perplexity
        = (c', Raise ProducerError)
        /\ (forall d, file = Some d ->
              durable c' = Some d
              /\ forall q lim, run_main (durable c') q lim = run_main file q lim)
        /\ (file = None ->
            durable c' = Some empty_db
            /\ forall w lim, is_word w = true -> is_int64 lim = true ->
                 run_main file w lim = Raise OperationalError
                 /\ run_main (durable c') w lim = Ok []))
  /\ (forall es fs1 f fs2,
         Forall (fun e' => entry_raises e' = false) es ->
         Forall (fun f' => unreadable f' = false) fs1 -> unreadable f = true ->
         exists c',
           main clock1 clock2 file false (Some es) (Some (fs1 ++ f :: fs2))
           = (c', Raise ProducerError)
           /\ durable c'
              = Some (upsert_batch clock1 "chatgpt"
                        (match file with Some d => d | None => empty_db end)
                        (batch_docs es) 0)).
Proof.
  set (d0 := match file with Some d => d | None => empty_db end). split.
  - intros es1 e es2 perplexity Hall He. unfold main. rewrite init_schema_db.
    destruct (ingest_chatgpt_abort clock1 {| live := Some d0; durable := Some d0 |} d0
                es1 e es2 eq_refl Hall He) as (c' & Hc & Hd).
    fold d0. rewrite Hc. exists c'. split; [reflexivity|]. cbn [durable] in Hd. split.
    + intros d ->. split; [exact Hd|]. intros q lim. rewrite Hd. reflexivity.
    + intros ->. split; [exact Hd|]. intros w lim Hw Hint. split; [reflexivity|].
      rewrite Hd. unfold run_main, search, search_hits, d0. cbn [connect live].
      rewrite Hint, (word_query w Hw). cbn [negb].
      destruct (lim =? 0); [reflexivity|].
      rewrite match_rows_no_docs by reflexivity. unfold sql_limit.
      destruct (lim <? 0); [reflexivity|]. cbn [order_by_bm25 sort_by foldr].
      rewrite List.firstn_nil. reflexivity.
  - intros es fs1 f fs2 Hall Hfs Hf. unfold main. rewrite init_schema_db. fold d0.
    unfold ingest_chatgpt.
    rewrite (ingest_loop_ok clock1 es {| live := Some d0; durable := Some d0 |} d0 0
               eq_refl Hall).
    unfold commit. cbn [live durable].
    unfold ingest_perplexity.
    rewrite (perplexity_loop_abort clock2 fs1 f fs2
               {| live := Some (upsert_batch clock1 "chatgpt" d0 (batch_docs es) 0);
                  durable := Some (upsert_batch clock1 "chatgpt" d0 (batch_docs es) 0) |}
               _ 0 eq_refl Hfs Hf).
    eexists. split; reflexivity.
Qed.



End MainFacts.

(** ** The adapter for conversations JSON *)

Section JsonFacts.
Context `{PyLib}.

(** The top level of the file: a dict with a list under [conversations]
    is read as that list; a file whose top level is anything else than a
    list or such a dict yields nothing, without an error. *)
Lemma top_level_run (data : json) :
  ingest_chatgpt_conversations_json (Some data)
  = match conversations_of data with
    | Some l => conversations_run l
    | None => CG_return
    end.
Proof.
  unfold ingest_chatgpt_conversations_json, conversations_of.
  destruct data as [| | | | |l|kv]; try reflexivity.
  destruct (assoc kv "conversations") as [[| | | | |l|kv']|]; reflexivity.
Qed.

Lemma not_dict_raises (c : json) : is_dict c = false -> conversation_doc c = None.
Proof. destruct c; try reflexivity. discriminate. Qed.

Lemma omap_cons {A B} (f : A -> option B) (x : A) (l : list A) :
  omap f (x :: l) = match f x with Some y => y :: omap f l | None => omap f l end.
Proof. reflexivity. Qed.

Lemma run_app_good (good rest : list json) :
  Forall (fun c => is_Some (conversation_doc c)) good ->
  conv_yielded (conversations_run (good ++ rest))
  = omap conversation_doc good ++ conv_yielded (conversations_run rest)
  /\ conv_raises (conversations_run (good ++ rest)) = conv_raises (conversations_run rest).
Proof.
  induction 1 as [|c good [d Hd] _ [IH1 IH2]]; [split; reflexivity|].
  cbn [app conversations_run]. rewrite omap_cons, Hd. cbn [conv_yielded conv_raises].
  rewrite IH1, IH2. split; reflexivity.
Qed.

(** X20.  An element of the list that is not a dict raises: the conversations
    before it have been yielded, one dict each, those after it are not looked
    at. With dicts of the expected shape throughout, the adapter yields one
    dict for each conversation and returns. *)
Theorem conversations_stop_at_bad (good : list json) :
  Forall (fun c => is_Some (conversation_doc c)) good ->
  (conv_raises (conversations_run good) = false
   /\ length (conv_yielded (conversations_run good)) = length good)
  /\ forall bad rest,
       is_dict bad = false ->
       conv_raises (conversations_run (good ++ bad :: rest)) = true
       /\ conv_yielded (conversations_run (good ++ bad :: rest))
          = conv_yielded (conversations_run good).
Proof.
  intros Hgood.
  assert (Hlen : length (omap conversation_doc good) = length good).
  { induction Hgood as [|c good [d Hd] _ IH]; [reflexivity|].
    rewrite omap_cons, Hd. simpl. rewrite IH. reflexivity. }
  destruct (run_app_good good [] Hgood) as [Y0 R0].
  rewrite List.app_nil_r in Y0, R0. cbn [conversations_run conv_yielded conv_raises] in Y0, R0.
  rewrite List.app_nil_r in Y0.
  split.
  - rewrite R0, Y0. auto.
  - intros bad rest Hbad. destruct (run_app_good good (bad :: rest) Hgood) as [Y R].
    rewrite Y, R, Y0. cbn [conversations_run]. rewrite (not_dict_raises bad Hbad).
    cbn [conv_yielded conv_raises]. rewrite List.app_nil_r. auto.
Qed.

Lemma py_or_truthy (a b : json) : truthy b = true -> truthy (py_or a b) = true.
Proof. intros Hb. unfold py_or. destruct (truthy a) eqn:Ha; assumption. Qed.

(** X21.  Every dict the adapter yields has a title that is neither [None] nor
    empty, and a content without blanks at either end. *)
Theorem conversation_doc_shape (c : json) (d : convdoc) :
  conversation_doc c = Some d ->
  truthy (cd_title d) = true /\ strip (cd_content d) = cd_content d.
Proof.
  unfold conversation_doc. intros Hd. simplify_option_eq. cbn [cd_title cd_content].
  split; [apply py_or_truthy; reflexivity|apply strip_strip].
Qed.

Lemma no_messages_doc (c : json) :
  no_messages c = true ->
  exists d, conversation_doc c = Some d /\ cd_content d = EmptyString
            /\ forall s, title_text c = Some s -> cd_title d = J_str s.
Proof.
  unfold no_messages. destruct c as [| | | | | |kv]; try discriminate.
  intros Hm. apply negb_true_iff in Hm.
  set (mp := match assoc kv "mapping" with Some v => v | None => J_null end) in *.
  assert (Hor : py_or mp empty_dict = empty_dict) by (unfold py_or; rewrite Hm; reflexivity).
  unfold conversation_doc, title_text, py_get. fold mp.
  cbn [mbind option_bind].
  set (ct := match assoc kv "create_time" with Some v => v | None => J_null end).
  destruct (truthy ct); cbn [mbind option_bind]; rewrite Hor;
    (eexists; split; [reflexivity|]; split; [reflexivity|]);
    intros s; cbn [cd_title];
    destruct (py_or _ (J_str "ChatGPT conversation")); congruence.
Qed.

End JsonFacts.

Section TopLevel.
Context `{Env} `{PyLib}.
Variable clock : nat -> string.

(** X22.  A conversations file whose top level is neither a list nor a dict
    with a list under [conversations] (a single conversation object, say) is
    ingested as nothing: no document, no error, a count of zero. *)
Theorem unexpected_top_level_ingests_nothing (c : conn) (d : db) (e : entry)
    (data : json) :
  live c = Some d -> e_is_file e = true -> is_conversations_json e = true ->
  gen_of (ingest_chatgpt_conversations_json (Some data)) = Some (e_json e) ->
  conversations_of data = None ->
  ingest_chatgpt clock c (Some [e]) = ({| live := Some d; durable := Some d |}, Ok 0%nat).
Proof.
  intros Hl Hfile Hjson Hgen Hnone.
  rewrite top_level_run, Hnone in Hgen. cbn [gen_of] in Hgen. injection Hgen as Hgen.
  assert (Hhtml : is_html e = false).
  { unfold is_conversations_json in Hjson. apply andb_true_iff in Hjson as [Hj _].
    unfold is_html. destruct (ends_with (lower_string (e_name e)) ".html") eqn:Hh;
      [|reflexivity].
    rewrite (html_not_json _ Hh) in Hj. discriminate. }
  unfold ingest_chatgpt. cbn [ingest_loop]. unfold ingest_entry.
  rewrite Hfile, Hhtml, Hjson, <- Hgen. cbn [negb drain]. unfold commit. rewrite Hl.
  reflexivity.
Qed.

End TopLevel.

(** ** Conversations without messages *)

Section EmptyConversations.
Context `{Env} `{PyLib}.
Variable clock : nat -> string.

Lemma empty_run (l : list json) :
  Forall (fun c => no_messages c = true /\ is_Some (title_text c)) l ->
  exists g, gen_of (conversations_run l) = Some g /\ raises g = false
            /\ Forall2 (fun c dd => dd_title dd = title_text c
                                    /\ dd_content dd = Some EmptyString) l (yielded g).
Proof.
  induction 1 as [|c l [Hm [s Hs]] _ (g & Hg & Hr & Hy)].
  - exists G_return. repeat split. constructor.
  - destruct (no_messages_doc c Hm) as (d & Hd & Hc & Ht).
    specialize (Ht s Hs).
    exists (G_yield {| dd_title := Some s; dd_created_at := cd_created_at d;
                       dd_content := Some (cd_content d) |} g).
    cbn [conversations_run]. rewrite Hd. cbn [gen_of]. unfold docdict_of. rewrite Ht, Hg.
    split; [reflexivity|]. split; [exact Hr|].
    cbn [yielded]. constructor; [|exact Hy]. cbn [dd_title dd_content].
    rewrite Hs, Hc. auto.
Qed.

Lemma upsert_all_same (ds : list docdict) (d : db) (pth : string) (n : nat) (r : doc) :
  List.find (key_matches "chatgpt" pth) (docs d) = Some r ->
  doc_sha256 r = Some (_sha256 EmptyString) ->
  Forall (fun dd => dd_content dd = Some EmptyString) ds ->
  upsert_all clock d pth ds n = d.
Proof.
  intros Hf Hs Hall. revert n. induction Hall as [|dd ds Hdd _ IH]; intros n; [reflexivity|].
  cbn [upsert_all]. rewrite Hdd. cbn [or_empty].
  rewrite (upsert_unchanged d "chatgpt" pth _ _ _ _ r Hf Hs). apply IH.
Qed.

(** X23.  Conversations without messages all have the empty content. A file of
    such conversations, ingested under a path that has no row yet, leaves the
    row of its first conversation: the later ones find the hash they bring and
    are not stored, though each is counted. *)
Theorem empty_conversations_collapse (ms : list mutation) (c : conn) (pth : string)
    (first : json) (rest : list json) (s1 : string) :
  live c = Some (run ms) ->
  List.find (key_matches "chatgpt" pth) (docs (run ms)) = None ->
  Forall (fun x => no_messages x = true /\ is_Some (title_text x)) (first :: rest) ->
  title_text first = Some s1 ->
  exists g d' r,
    gen_of (ingest_chatgpt_conversations_json (Some (J_list (first :: rest)))) = Some g
    /\ drain clock c pth g 0
       = ({| live := Some d'; durable := durable c |}, S (length rest), None)
    /\ List.filter (key_matches "chatgpt" pth) (docs d') = [r]
    /\ doc_title r = Some s1 /\ doc_content r = EmptyString
    /\ doc_ingested_at r = clock 0%nat.
Proof.
  intros Hl Hnew Hall Ht1. assert (Hwf : wf_db (run ms)) by apply wf_run.
  set (d := run ms) in *.
  destruct (empty_run (first :: rest) Hall) as (g & Hg & Hr & Hy).
  inversion Hy as [|c0 dd l0 ds [Htt Hcc] Hrest Ec Ey]. subst c0 l0.
  set (r := new_doc (docs d) "chatgpt" pth (dd_title dd) (dd_created_at dd)
                    EmptyString (clock 0%nat)).
  set (d1 := {| docs := docs d ++ [r]; docs_fts := docs_ai (docs_fts d) r |}).
  assert (Hup : upsert_db d "chatgpt" pth (dd_title dd) (dd_created_at dd)
                          EmptyString (clock 0%nat) = (Created, d1))
    by (apply upsert_created; exact Hnew).
  assert (Hwf1 : wf_db d1).
  { replace d1 with (snd (upsert_db d "chatgpt" pth (dd_title dd) (dd_created_at dd)
                                    EmptyString (clock 0%nat)))
      by (rewrite Hup; reflexivity).
    apply wf_upsert, Hwf. }
  assert (Hfind : List.find (key_matches "chatgpt" pth) (docs d1) = Some r)
    by (apply find_key_app_new; [exact Hnew|reflexivity]).
  exists g, d1, r.
  split; [exact Hg|]. split.
  - rewrite (drain_schema clock g c d pth 0 Hl), Hr, <- Ey.
    cbn [upsert_all length Nat.add]. rewrite Hcc. cbn [or_empty]. rewrite Hup. cbn [snd].
    rewrite (upsert_all_same ds d1 pth 1 r Hfind eq_refl).
    + f_equal. f_equal. f_equal.
      apply Forall2_length in Hrest. symmetry. exact Hrest.
    + clear -Hrest. induction Hrest as [|x y l l' [_ Hc] _ IH]; constructor; auto.
  - split.
    + apply rows_of_key; [exact Hwf1| |reflexivity].
      cbn [docs d1]. apply List.in_app_iff. right. left. reflexivity.
    + cbn [doc_title doc_content doc_ingested_at r new_doc].
      split; [rewrite Htt; exact Ht1|]. split; reflexivity.
Qed.

End EmptyConversations.

(** ** From the vault to the results of a search *)

Section Found.
Context `{Env}.
Variable clock : nat -> string.





End Found.

(** ** The theorems of the adapters and of the queries at concrete inputs *)

Lemma table_keys_witness :
  only_upserts (fox_example t1 t2) = true
  /\ List.In ("chatgpt"%string, "b.json"%string) (upserted_keys (fox_example t1 t2))
  /\ exists r, List.In r (docs (run (H := test_env) (fox_example t1 t2)))
               /\ doc_key r = ("chatgpt"%string, "b.json"%string).
Proof.
  split; [reflexivity|].
  assert (Hin : List.In ("chatgpt"%string, "b.json"%string)
                        (upserted_keys (fox_example t1 t2))).
  { vm_compute. right. left. reflexivity. }
  split; [exact Hin|].
  destruct (@table_keys_are_upserted_keys test_env (fox_example t1 t2)) as [_ Hall].
  apply Hall; [reflexivity|exact Hin].
Defined.

Lemma upsert_outcome_witness :
  fst (upsert_db (H := test_env) (run (H := test_env) (fox_example t1 t2))
                 "chatgpt" "a.json" (Some "A new title"%string) None
                 "the quick brown fox" t2) = Unchanged.
Proof.
  destruct (@upsert_outcome_by_content test_env (fox_example t1 t2) "chatgpt" "a.json"
              (Some "A new title"%string) None "the quick brown fox" t2)
    as (_ & [_ Hu] & _).
  apply Hu. exists fox_a. split; [vm_compute; left; reflexivity|].
  split; reflexivity.
Defined.

Lemma search_distinct_witness :
  live (connect (Some fox_db)) = Some (run (H := test_env) (fox_example t1 t2))
  /\ search (H := test_env) (connect (Some fox_db)) "quick" 8 = Ok fox_results
  /\ List.NoDup (List.map dict_key fox_results).
Proof.
  split; [reflexivity|]. split; [vm_compute; reflexivity|].
  apply (@search_results_distinct test_env (fox_example t1 t2) (connect (Some fox_db))
           "quick" 8 fox_results).
  - reflexivity.
  - vm_compute. reflexivity.
Defined.

Lemma search_limit_witness :
  0 <= 1 /\ is_int64 1 = true /\ (1 <= 8 \/ 8 < 0)
  /\ search (H := test_env) (connect (Some fox_db)) "quick" 8 = Ok fox_results
  /\ search (H := test_env) (connect (Some fox_db)) "quick" 1
     = Ok (firstn (Z.to_nat 1) fox_results).
Proof.
  split; [lia|]. split; [reflexivity|]. split; [left; lia|].
  split; [vm_compute; reflexivity|].
  apply (@search_limit_prefix test_env (connect (Some fox_db)) "quick" 1 8 fox_results).
  - lia.
  - reflexivity.
  - left. lia.
  - vm_compute. reflexivity.
Defined.


Lemma word_case_witness :
  is_alnum_word "Quick" = true /\ is_keyword "Quick" = false
  /\ search (H := test_env) (connect (Some fox_db)) "Quick" 8
     = search (H := test_env) (connect (Some fox_db)) (lower_string "Quick") 8.
Proof.
  split; [reflexivity|]. split; [reflexivity|].
  destruct (@word_query_ignores_case test_env (connect (Some fox_db)) "Quick" 8 eq_refl)
    as [Hsame _].
  apply Hsame. reflexivity.
Defined.

Lemma blank_query_witness :
  is_blank "  " = true /\ live fresh_conn = Some empty_db /\ is_int64 8 = true /\ 8 <> 0
  /\ search (H := test_env) fresh_conn "  " 8 = Raise OperationalError.
Proof.
  split; [reflexivity|]. split; [reflexivity|]. split; [reflexivity|]. split; [lia|].
  apply (@blank_query_raises test_env fresh_conn empty_db "  " 8);
    [reflexivity|reflexivity|reflexivity|lia].
Defined.

Lemma html_vault_runs : Forall (fun e => entry_raises e = false) html_vault.
Proof. repeat constructor. Defined.


Lemma html_vault_storable : Forall (fun pd => storable pd = true) (batch_docs html_vault).
Proof. apply List.Forall_forall, List.forallb_forall. vm_compute. reflexivity. Qed.

Lemma ingest_chatgpt_all_witness :
  live fresh_conn = Some empty_db
  /\ Forall (fun e => entry_raises e = false) html_vault
  /\ Forall (fun pd => storable pd = true) (batch_docs html_vault)
  /\ ingest_chatgpt (H := test_env) test_clock fresh_conn (Some html_vault)
     = ({| live := Some (upsert_batch (H := test_env) test_clock "chatgpt" empty_db
                           (batch_docs html_vault) 0);
           durable := Some (upsert_batch (H := test_env) test_clock "chatgpt" empty_db
                              (batch_docs html_vault) 0) |},
        Ok (length (batch_docs html_vault))).
Proof.
  split; [reflexivity|]. split; [exact html_vault_runs|].
  split; [exact html_vault_storable|].
  apply (@ingest_chatgpt_upserts_all test_env test_clock fresh_conn empty_db html_vault).
  - reflexivity.
  - exact html_vault_runs.
  - exact html_vault_storable.
Defined.


Lemma perplexity_heading_witness :
  " "%string <> EmptyString /\ all_blanks " " = true
  /\ "Title "%string <> EmptyString /\ starts_blank "Title " = false
  /\ one_line "Title " = true /\ line_end (String.append newline_s "body") = true
  /\ dd_title (ingest_perplexity_markdown "q.md"
                 (String "#" (String.append " "
                                (String.append "Title " (String.append newline_s "body")))))
     = Some (strip "Title ").
Proof.
  split; [discriminate|]. split; [reflexivity|]. split; [discriminate|].
  split; [reflexivity|]. split; [reflexivity|]. split; [reflexivity|].
  apply (perplexity_title_heading "q.md" " " "Title " (String.append newline_s "body"));
    [discriminate|reflexivity|discriminate|reflexivity|reflexivity|reflexivity].
Defined.

Lemma perplexity_default_witness :
  heading_mark true (list_ascii_of_string "## Notes") = false
  /\ dd_title (ingest_perplexity_markdown "q.md" "## Notes")
     = Some (String.append "Perplexity export: " "q.md").
Proof.
  split; [reflexivity|].
  apply (perplexity_title_default "q.md" "## Notes"). reflexivity.
Defined.

Lemma markdown_selection_witness :
  is_markdown (md_file "vault/perplexity/Notes.MD" "Notes.MD" "plain notes") = true.
Proof.
  apply (proj2 (markdown_selection
                  (md_file "vault/perplexity/Notes.MD" "Notes.MD" "plain notes"))).
  exists "Notes"%string, ".MD"%string. split; [reflexivity|]. split; [discriminate|].
  left. reflexivity.
Defined.

Lemma md_vault_readable : Forall (fun f => unreadable f = false) md_vault.
Proof. repeat constructor. Defined.



Lemma perplexity_unreadable_witness :
  live fresh_conn = Some empty_db
  /\ Forall (fun f => unreadable f = false) md_vault
  /\ unreadable locked_file = true
  /\ ingest_perplexity (H := test_env) test_clock fresh_conn
       (Some (md_vault ++ locked_file :: [md_file "vault/perplexity/z.md" "z.md" "last"]))
     = ({| live := Some (upsert_batch (H := test_env) test_clock "perplexity" empty_db
                           (perplexity_docs md_vault) 0);
           durable := Some empty_db |},
        Raise ProducerError).
Proof.
  split; [reflexivity|]. split; [exact md_vault_readable|]. split; [reflexivity|].
  apply (@perplexity_unreadable_aborts test_env test_clock fresh_conn empty_db md_vault
           locked_file [md_file "vault/perplexity/z.md" "z.md" "last"]).
  - reflexivity.
  - exact md_vault_readable.
  - reflexivity.
Defined.

Lemma main_partial_failure_witness :
  Forall (fun e => entry_raises e = false) html_vault
  /\ entry_raises (json_file "vault/chatgpt/conversations.json" G_raise) = true
  /\ exists c',
       main (H := test_env) test_clock test_clock (Some fox_db) false
            (Some (html_vault ++ [json_file "vault/chatgpt/conversations.json" G_raise]))
            (Some md_vault)
       = (c', Raise ProducerError)
       /\ durable c' = Some fox_db
       /\ forall q lim, run_main (H := test_env) (durable c') q lim
                        = run_main (H := test_env) (Some fox_db) q lim.
Proof.
  split; [exact html_vault_runs|]. split; [reflexivity|].
  destruct (@main_partial_failure test_env test_clock test_clock (Some fox_db))
    as [Hchat _].
  destruct (Hchat html_vault (json_file "vault/chatgpt/conversations.json" G_raise) []
                  (Some md_vault) html_vault_runs eq_refl)
    as (c' & Hmain & Hsome & _).
  exists c'. split; [exact Hmain|]. exact (Hsome fox_db eq_refl).
Defined.


Lemma top_level_witness :
  live fresh_conn = Some empty_db
  /\ conversations_of (bare_conv "A") = None
  /\ ingest_chatgpt (H := test_env) test_clock fresh_conn
       (Some [json_file "vault/chatgpt/conversations.json" G_return])
     = ({| live := Some empty_db; durable := Some empty_db |}, Ok 0%nat).
Proof.
  split; [reflexivity|]. split; [reflexivity|].
  apply (@unexpected_top_level_ingests_nothing test_env test_pylib test_clock fresh_conn
           empty_db (json_file "vault/chatgpt/conversations.json" G_return)
           (bare_conv "A"));
    reflexivity.
Defined.

Lemma conversations_stop_witness :
  Forall (fun c => is_Some (conversation_doc (H := test_pylib) c)) [bare_conv "A"]
  /\ is_dict (J_str "oops") = false
  /\ conv_raises (conversations_run (H := test_pylib) broken_list) = true
  /\ conv_yielded (conversations_run (H := test_pylib) broken_list)
     = conv_yielded (conversations_run (H := test_pylib) [bare_conv "A"]).
Proof.
  assert (Hgood : Forall (fun c => is_Some (conversation_doc (H := test_pylib) c))
                         [bare_conv "A"]).
  { constructor; [|constructor]. eexists. vm_compute. reflexivity. }
  split; [exact Hgood|]. split; [reflexivity|].
  destruct (@conversations_stop_at_bad test_pylib [bare_conv "A"] Hgood) as [_ Hbad].
  apply (Hbad (J_str "oops") [bare_conv "C"]). reflexivity.
Defined.

Lemma conversation_shape_witness :
  conversation_doc (H := test_pylib) (bare_conv "A")
  = Some {| cd_title := J_str "A"; cd_created_at := None; cd_content := EmptyString |}
  /\ truthy (J_str "A") = true /\ strip EmptyString = EmptyString.
Proof.
  split; [vm_compute; reflexivity|].
  apply (@conversation_doc_shape test_pylib (bare_conv "A")
           {| cd_title := J_str "A"; cd_created_at := None; cd_content := EmptyString |}).
  vm_compute. reflexivity.
Defined.

Lemma empty_conversations_witness :
  live fresh_conn = Some (run (H := test_env) [])
  /\ List.find (key_matches "chatgpt" "vault/chatgpt/conversations.json")
               (docs (run (H := test_env) [])) = None
  /\ Forall (fun x => no_messages x = true /\ is_Some (title_text x))
            [bare_conv "A"; bare_conv "B"]
  /\ title_text (bare_conv "A") = Some "A"%string
  /\ exists g d' r,
       gen_of (ingest_chatgpt_conversations_json (H := test_pylib)
                 (Some (J_list [bare_conv "A"; bare_conv "B"]))) = Some g
       /\ drain (H := test_env) test_clock fresh_conn "vault/chatgpt/conversations.json" g 0
          = ({| live := Some d'; durable := durable fresh_conn |}, 2%nat, None)
       /\ List.filter (key_matches "chatgpt" "vault/chatgpt/conversations.json") (docs d')
          = [r]
       /\ doc_title r = Some "A"%string /\ doc_content r = EmptyString
       /\ doc_ingested_at r = test_clock 0%nat.
Proof.
  assert (Hall : Forall (fun x => no_messages x = true /\ is_Some (title_text x))
                        [bare_conv "A"; bare_conv "B"]).
  { repeat constructor; eexists; reflexivity. }
  split; [reflexivity|]. split; [reflexivity|]. split; [exact Hall|].
  split; [reflexivity|].
  apply (@empty_conversations_collapse test_env test_pylib test_clock [] fresh_conn
           "vault/chatgpt/conversations.json" (bare_conv "A") [bare_conv "B"] "A"
           eq_refl eq_refl Hall eq_refl).
Defined.

